(** * Fire_Simulator: the deterministic financial projection engine

    A shallow embedding of [backend/core/simulation.py] (the amortizer
    [calculate_monthly_payment] and the month-stepping engine
    [run_simulation]) and of [core_private/fire_calculations.py] (the
    present-value calculator, the allocation policy and the FIRE
    achievement evaluator [check_fire_achievement]).

    Numbers.  Python [int]s are [Z].  Python [float]s are modelled as exact
    rationals [Q]: every arithmetic operation of the source is kept, in the
    order the source performs it, but IEEE-754 rounding is not modelled.
    Equations between amounts are therefore stated up to [Qeq] ([==]) where
    algebra is involved, and up to [=] where both sides are produced by the
    same computation.

    Dictionaries.  The payload dictionaries have optional keys: a missing
    key is [None].  [life_planning] (keyed by the decimal string of an age)
    and [simulation_results] (keyed by age) are finite maps [gmap Z _]. *)

From Stdlib Require Import ZArith QArith Qminmax Qpower Qabs Lqa Lia String.
From stdpp Require Import gmap list sorting option.

Open Scope Q_scope.

(** ** Python idioms *)

(** [x or d] on numbers: a missing value ([None]) and a zero are both
    falsy, so both yield the default. *)
Definition py_or_Q (o : option Q) (d : Q) : Q :=
  match o with
  | Some v => if Qeq_bool v 0 then d else v
  | None => d
  end.

Definition py_or_Z (o : option Z) (d : Z) : Z :=
  match o with
  | Some v => if (v =? 0)%Z then d else v
  | None => d
  end.

(** [range(n)] as the list [0; 1; ...; n-1]. *)
Definition range (n : nat) : list Z := map Z.of_nat (seq 0 n).

(** Comparisons on floats, as booleans: [x <= y] and [x < y]. *)
Definition Qleb (x y : Q) : bool := Qle_bool x y.
Definition Qltb (x y : Q) : bool := negb (Qle_bool y x).

(** Float division and power raise [ZeroDivisionError] on a zero divisor,
    respectively on a zero base with a negative exponent; [None] stands
    for the exception. *)
Definition py_div (a b : Q) : option Q :=
  if Qeq_bool b 0 then None else Some (a / b).

Definition py_pow (b : Q) (n : Z) : option Q :=
  if Qeq_bool b 0 && (n <? 0)%Z then None else Some (b ^ n).

(** ** Data model *)

(** The request payload ([player_status], [investment_config],
    [salary_config], [life_planning]); only the keys the engine and the
    evaluator read are kept. *)
Record PlayerStatus := mkPlayerStatus {
  ps_age : option Z;
  ps_savings : option Q;
  ps_monthly_income : option Q;
  ps_monthly_expense : option Q;
  ps_debt : option Q
}.

Record InvestmentConfig := mkInvestmentConfig {
  ic_retirement_age : option Z;
  ic_life_expectancy : option Z;
  ic_inflation_rate : option Q;
  ic_conservative_return_rate : option Q;
  ic_growth_return_rate : option Q;
  ic_cash_return : option Q;
  ic_young_growth_ratio : option Q;
  ic_young_conservative_ratio : option Q;
  ic_young_cash_reserve_ratio : option Q;
  ic_middle_growth_ratio : option Q;
  ic_middle_conservative_ratio : option Q;
  ic_middle_cash_reserve_ratio : option Q;
  ic_old_growth_ratio : option Q;
  ic_old_conservative_ratio : option Q;
  ic_old_cash_reserve_ratio : option Q
}.

Record SalaryConfig := mkSalaryConfig {
  sc_young_growth_rate : option Q
}.

(** A life-planning event: its [type] tag (the house purchase is the
    label "買房" in the source) and its optional [house_data] record. *)
Inductive EventType :=
| BuyHouse
| OtherEvent (label : string).

Record HouseData := mkHouseData {
  hd_house_price : option Q;
  hd_down_payment_ratio : option Q;
  hd_loan_rate : option Q;
  hd_loan_years : option Z
}.

Record Event := mkEvent {
  ev_type : EventType;
  ev_house_data : option HouseData
}.

Record Payload := mkPayload {
  player_status : PlayerStatus;
  investment_config : InvestmentConfig;
  salary_config : SalaryConfig;
  life_planning : gmap Z (list Event)
}.

(** One entry of [financial_results]. *)
Record MonthlySnapshot := mkMonthlySnapshot {
  ms_age : Z;
  ms_month : Z;
  ms_net_worth : Q;
  ms_savings : Q;
  ms_debt : Q;
  ms_monthly_income : Q;
  ms_monthly_expense : Q;
  ms_total_expense : Q;
  ms_stock_investment : Q;
  ms_bond_investment : Q;
  ms_cash_investment : Q;
  ms_real_estate_investment : Q
}.

(** One value of [yearly_map] / [simulation_results]. *)
Record YearEnd := mkYearEnd {
  ye_monthly_income : Q;
  ye_monthly_expense : Q;
  ye_savings : Q;
  ye_debt : Q;
  ye_stock_investment : Q;
  ye_bond_investment : Q;
  ye_cash_investment : Q;
  ye_net_worth : Q;
  ye_yearly_withdrawn : Q;
  ye_monthly_house_payment : Q
}.

(** The event log is a list of formatted strings; each string is a
    function of the values kept here, so equal entries give equal strings. *)
Inductive LogEntry :=
| LogStart
| LogHorizon (age retirement_age life_expectancy : Z) (inflation : Q)
| LogHousePurchase (cur_age : Z) (house_price loan_amount monthly_house_payment : Q)
| LogDone.

(** The local variables of [run_simulation] that the two loops update. *)
Record State := mkState {
  cur_age : Z;
  monthly_income : Q;
  monthly_expense : Q;
  current_debt : Q;
  monthly_house_payment : Q;
  stock_amt : Q;
  bond_amt : Q;
  cash_amt : Q;
  savings : Q;
  financial_results : list MonthlySnapshot;
  yearly_map : gmap Z YearEnd;
  event_log : list LogEntry
}.

(** The dictionary [run_simulation] returns. *)
Record SimResult := mkSimResult {
  simulation_results : gmap Z YearEnd;
  res_financial_results : list MonthlySnapshot;
  res_event_log : list LogEntry
}.

(** ** Mortgage amortizer ([simulation.py], lines 7-12) *)

Definition calculate_monthly_payment (principal annual_rate : Q) (years : Z) : Q :=
  if (years <=? 0)%Z || Qleb principal 0 then 0
  else
    let monthly_principal := principal / inject_Z (years * 12) in
    monthly_principal.

(** The sum of [n] equal instalments, added one at a time. *)
Fixpoint sum_payments (n : nat) (payment : Q) : Q :=
  match n with
  | O => 0
  | S k => sum_payments k payment + payment
  end.

(** ** Allocation policy *)

(** [FireCalculations.get_allocation_ratios]; [run_simulation] repeats the
    same statements inline (lines 73-92). *)
Definition get_allocation_ratios (age : Z) (invest : InvestmentConfig) : Q * Q * Q :=
  let '(gr, cr, hr) :=
    if (age <=? 40)%Z then
      (py_or_Q (ic_young_growth_ratio invest) 0,
       py_or_Q (ic_young_conservative_ratio invest) 0,
       py_or_Q (ic_young_cash_reserve_ratio invest) 0)
    else if (age <=? 55)%Z then
      (py_or_Q (ic_middle_growth_ratio invest) 0,
       py_or_Q (ic_middle_conservative_ratio invest) 0,
       py_or_Q (ic_middle_cash_reserve_ratio invest) 0)
    else
      (py_or_Q (ic_old_growth_ratio invest) 0,
       py_or_Q (ic_old_conservative_ratio invest) 0,
       py_or_Q (ic_old_cash_reserve_ratio invest) 0) in
  let total_ratio := gr + cr + hr in
  if Qleb total_ratio 0 then (0, 0, 1)
  else (gr / total_ratio, cr / total_ratio, hr / total_ratio).

(** ** Monthly projection engine ([run_simulation]) *)

(** The values [run_simulation] reads off the payload before its loops. *)
Definition age_of (payload : Payload) : Z :=
  py_or_Z (ps_age (player_status payload)) 25.
Definition retirement_age_of (payload : Payload) : Z :=
  py_or_Z (ic_retirement_age (investment_config payload)) 65.
Definition life_expectancy_of (payload : Payload) : Z :=
  py_or_Z (ic_life_expectancy (investment_config payload)) 85.
Definition years_of (payload : Payload) : Z :=
  Z.max 0 (retirement_age_of payload - age_of payload).
Definition years_in_retirement_of (payload : Payload) : Z :=
  Z.max 0 (life_expectancy_of payload - retirement_age_of payload).
Definition inflation_of (payload : Payload) : Q :=
  py_or_Q (ic_inflation_rate (investment_config payload)) 0.03.
Definition cons_ret_of (payload : Payload) : Q :=
  py_or_Q (ic_conservative_return_rate (investment_config payload)) 0.03.
Definition growth_ret_of (payload : Payload) : Q :=
  py_or_Q (ic_growth_return_rate (investment_config payload)) 0.07.
(** [float(invest.get("cash_return", 0.02))]: only a missing key is
    defaulted. *)
Definition cash_return_of (payload : Payload) : Q :=
  default 0.02 (ic_cash_return (investment_config payload)).

(** The state on entry to the accumulation loop (lines 22-51). *)
Definition initial_state (payload : Payload) : State :=
  let ps := player_status payload in
  {| cur_age := age_of payload;
     monthly_income := py_or_Q (ps_monthly_income ps) 0;
     monthly_expense := py_or_Q (ps_monthly_expense ps) 0;
     current_debt := py_or_Q (ps_debt ps) 0;
     monthly_house_payment := 0;
     stock_amt := 0;
     bond_amt := 0;
     cash_amt := 0;
     savings := py_or_Q (ps_savings ps) 0;
     financial_results := [];
     yearly_map := ∅;
     event_log :=
       [LogStart;
        LogHorizon (age_of payload) (retirement_age_of payload)
          (life_expectancy_of payload) (inflation_of payload)] |}.

(** [event.get("house_data", {}).get(field)]. *)
Definition house_data_get {A} (field : HouseData -> option A) (event : Event) : option A :=
  ev_house_data event ≫= field.

(** One house-purchase event (lines 61-70); other events are skipped. *)
Definition apply_event (st : State) (event : Event) : State :=
  match ev_type event with
  | BuyHouse =>
      let house_price := py_or_Q (house_data_get hd_house_price event) 0 in
      let down_payment_ratio :=
        default 20 (house_data_get hd_down_payment_ratio event) / 100 in
      let loan_rate := default 0.03 (house_data_get hd_loan_rate event) in
      let loan_years := default 30%Z (house_data_get hd_loan_years event) in
      let loan_amount := house_price * (1 - down_payment_ratio) in
      let payment := calculate_monthly_payment loan_amount loan_rate loan_years in
      {| cur_age := cur_age st;
         monthly_income := monthly_income st;
         monthly_expense := monthly_expense st;
         current_debt := loan_amount;
         monthly_house_payment := payment;
         stock_amt := stock_amt st;
         bond_amt := bond_amt st;
         cash_amt := cash_amt st;
         savings := savings st;
         financial_results := financial_results st;
         yearly_map := yearly_map st;
         event_log :=
           event_log st
           ++ [LogHousePurchase (cur_age st) house_price loan_amount payment] |}
  | OtherEvent _ => st
  end.

(** The events keyed to the current age, in stored order (lines 57-70). *)
Definition process_events (payload : Payload) (st : State) : State :=
  match life_planning payload !! cur_age st with
  | Some events_at_age => fold_left apply_event events_at_age st
  | None => st
  end.

(** One month of the accumulation phase (lines 95-128). *)
Definition accumulation_month (payload : Payload) (gr cr hr : Q)
    (st : State) (m : Z) : State :=
  let net_monthly_income := monthly_income st - monthly_house_payment st in
  let cashflow := net_monthly_income - monthly_expense st in
  let monthly_growth_ret := growth_ret_of payload / 12 in
  let monthly_cons_ret := cons_ret_of payload / 12 in
  let monthly_cash_ret := cash_return_of payload / 12 in
  let stock_amt' := stock_amt st * (1 + monthly_growth_ret) + cashflow * gr in
  let bond_amt' := bond_amt st * (1 + monthly_cons_ret) + cashflow * cr in
  let cash_amt' := cash_amt st * (1 + monthly_cash_ret) + cashflow * hr in
  let current_debt' :=
    if Qltb 0 (current_debt st) && Qltb 0 (monthly_house_payment st)
    then Qmax 0 (current_debt st - monthly_house_payment st)
    else current_debt st in
  {| cur_age := cur_age st;
     monthly_income := monthly_income st;
     monthly_expense := monthly_expense st;
     current_debt := current_debt';
     monthly_house_payment := monthly_house_payment st;
     stock_amt := stock_amt';
     bond_amt := bond_amt';
     cash_amt := cash_amt';
     savings := savings st;
     financial_results :=
       financial_results st
       ++ [{| ms_age := cur_age st;
              ms_month := m + 1;
              ms_net_worth := stock_amt' + bond_amt' + cash_amt';
              ms_savings := 0;
              ms_debt := current_debt';
              ms_monthly_income := monthly_income st;
              ms_monthly_expense := monthly_expense st;
              ms_total_expense := monthly_expense st + monthly_house_payment st;
              ms_stock_investment := stock_amt';
              ms_bond_investment := bond_amt';
              ms_cash_investment := cash_amt';
              ms_real_estate_investment := 0 |}];
     yearly_map := yearly_map st;
     event_log := event_log st |}.

(** The year-end snapshot and the step to the next age (lines 130-147). *)
Definition accumulation_year_end (payload : Payload) (st : State) : State :=
  {| cur_age := cur_age st + 1;
     monthly_income :=
       monthly_income st
       * (1 + default 0 (sc_young_growth_rate (salary_config payload)));
     monthly_expense := monthly_expense st * (1 + inflation_of payload);
     current_debt := current_debt st;
     monthly_house_payment := monthly_house_payment st;
     stock_amt := stock_amt st;
     bond_amt := bond_amt st;
     cash_amt := cash_amt st;
     savings := savings st;
     financial_results := financial_results st;
     yearly_map :=
       <[cur_age st :=
           {| ye_monthly_income := monthly_income st;
              ye_monthly_expense := monthly_expense st;
              ye_savings := 0;
              ye_debt := current_debt st;
              ye_stock_investment := stock_amt st;
              ye_bond_investment := bond_amt st;
              ye_cash_investment := cash_amt st;
              ye_net_worth := stock_amt st + bond_amt st + cash_amt st;
              ye_yearly_withdrawn := 0;
              ye_monthly_house_payment := monthly_house_payment st |}]>
         (yearly_map st);
     event_log := event_log st |}.

(** One iteration of the accumulation loop (lines 55-147). *)
Definition accumulation_year (payload : Payload) (st : State) : State :=
  let st1 := process_events payload st in
  let '(gr, cr, hr) :=
    get_allocation_ratios (cur_age st1) (investment_config payload) in
  let st2 := fold_left (accumulation_month payload gr cr hr) (range 12) st1 in
  accumulation_year_end payload st2.

(** The withdrawal waterfall (lines 166-185) on the balances after the
    month's compounding: pay from cash first, then bond, then stock.
    Returns the new (stock, bond, cash). *)
Definition withdraw (stock bond cash monthly_total_expense : Q) : Q * Q * Q :=
  if Qleb monthly_total_expense cash then
    (stock, bond, cash - monthly_total_expense)
  else if Qleb monthly_total_expense (cash + bond) then
    let cash_needed := monthly_total_expense - cash in
    (stock, bond - cash_needed, 0)
  else
    let cash_available := cash + bond in
    let stock_needed := monthly_total_expense - cash_available in
    (Qmax 0 (stock - stock_needed), 0, 0).

(** One month of the retirement phase (lines 152-202).  All three
    branches of the waterfall end with the same two debt statements. *)
Definition retirement_month (payload : Payload) (st : State) (m : Z) : State :=
  let monthly_total_expense := monthly_expense st + monthly_house_payment st in
  let monthly_growth_ret := growth_ret_of payload / 12 in
  let monthly_cons_ret := cons_ret_of payload / 12 in
  let monthly_cash_ret := cash_return_of payload / 12 in
  let stock1 := stock_amt st * (1 + monthly_growth_ret) in
  let bond1 := bond_amt st * (1 + monthly_cons_ret) in
  let cash1 := cash_amt st * (1 + monthly_cash_ret) in
  let '(stock_amt', bond_amt', cash_amt') :=
    withdraw stock1 bond1 cash1 monthly_total_expense in
  let current_debt' := Qmax 0 (current_debt st - monthly_house_payment st) in
  let savings' := stock_amt' + bond_amt' + cash_amt' in
  {| cur_age := cur_age st;
     monthly_income := monthly_income st;
     monthly_expense := monthly_expense st;
     current_debt := current_debt';
     monthly_house_payment := monthly_house_payment st;
     stock_amt := stock_amt';
     bond_amt := bond_amt';
     cash_amt := cash_amt';
     savings := savings';
     financial_results :=
       financial_results st
       ++ [{| ms_age := cur_age st;
              ms_month := m + 1;
              ms_net_worth := savings';
              ms_savings := 0;
              ms_debt := current_debt';
              ms_monthly_income := 0;
              ms_monthly_expense := monthly_expense st;
              ms_total_expense := monthly_total_expense;
              ms_stock_investment := Qmax 0 stock_amt';
              ms_bond_investment := Qmax 0 bond_amt';
              ms_cash_investment := Qmax 0 cash_amt';
              ms_real_estate_investment := 0 |}];
     yearly_map := yearly_map st;
     event_log := event_log st |}.

(** The end of a retirement year (lines 204-224).  [monthly_total_expense]
    still holds the value of the last month, which is the sum below since
    neither summand changes within the year. *)
Definition retirement_year_end (payload : Payload) (st : State) : State :=
  let monthly_total_expense := monthly_expense st + monthly_house_payment st in
  {| cur_age := cur_age st + 1;
     monthly_income := monthly_income st;
     monthly_expense := monthly_expense st * (1 + inflation_of payload);
     current_debt := current_debt st;
     monthly_house_payment :=
       if Qleb (current_debt st) 0 then 0 else monthly_house_payment st;
     stock_amt := stock_amt st;
     bond_amt := bond_amt st;
     cash_amt := cash_amt st;
     savings := savings st;
     financial_results := financial_results st;
     yearly_map :=
       <[cur_age st :=
           {| ye_monthly_income := 0;
              ye_monthly_expense := monthly_expense st;
              ye_savings := 0;
              ye_debt := current_debt st;
              ye_stock_investment := Qmax 0 (stock_amt st);
              ye_bond_investment := Qmax 0 (bond_amt st);
              ye_cash_investment := Qmax 0 (cash_amt st);
              ye_net_worth := Qmax 0 (savings st);
              ye_yearly_withdrawn := monthly_total_expense * 12;
              ye_monthly_house_payment := monthly_house_payment st |}]>
         (yearly_map st);
     event_log := event_log st |}.

(** One iteration of the retirement loop (lines 151-224). *)
Definition retirement_year (payload : Payload) (st : State) : State :=
  let st1 := fold_left (retirement_month payload) (range 12) st in
  retirement_year_end payload st1.

(** [monthly_income = 0] between the two loops (line 150). *)
Definition retire (st : State) : State :=
  {| cur_age := cur_age st;
     monthly_income := 0;
     monthly_expense := monthly_expense st;
     current_debt := current_debt st;
     monthly_house_payment := monthly_house_payment st;
     stock_amt := stock_amt st;
     bond_amt := bond_amt st;
     cash_amt := cash_amt st;
     savings := savings st;
     financial_results := financial_results st;
     yearly_map := yearly_map st;
     event_log := event_log st |}.

(** The state after the accumulation loop and after the retirement loop. *)
Definition accumulation_phase (payload : Payload) : State :=
  Nat.iter (Z.to_nat (years_of payload)) (accumulation_year payload)
    (initial_state payload).

Definition retirement_phase (payload : Payload) : State :=
  Nat.iter (Z.to_nat (years_in_retirement_of payload)) (retirement_year payload)
    (retire (accumulation_phase payload)).

Definition run_simulation (payload : Payload) : SimResult :=
  let st := retirement_phase payload in
  {| simulation_results := yearly_map st;
     res_financial_results := financial_results st;
     res_event_log := event_log st ++ [LogDone] |}.

(** ** Present-value calculator ([FireCalculations]) *)

Definition calculate_growing_annuity_present_value
    (annual_expense : Q) (years : Z) (real_return_rate inflation_rate : Q) : option Q :=
  if (years <=? 0)%Z || Qleb annual_expense 0 then Some 0
  else
    let r := real_return_rate in
    let g := inflation_rate in
    if Qltb (Qabs (r - g)) 1e-6 then
      py_div (annual_expense * inject_Z years) (1 + r)
    else
      ratio ← py_div (1 + g) (1 + r);
      power ← py_pow ratio years;
      py_div (annual_expense * (1 - power)) (r - g).

Definition calculate_retirement_target_growing_annuity
    (current_monthly_expense : Q) (current_age retirement_age life_expectancy : Z)
    (inflation_rate real_return_rate : Q) : option Q :=
  let g := inflation_rate in
  let r := real_return_rate in
  let years_to_retirement := Z.max 0 (retirement_age - current_age) in
  power ← py_pow (1 + g) years_to_retirement;
  let retirement_annual_expense := current_monthly_expense * 12 * power in
  let years_in_retirement := Z.max 0 (life_expectancy - retirement_age) in
  calculate_growing_annuity_present_value
    retirement_annual_expense years_in_retirement r g.

Definition calculate_retirement_target_traditional_25x
    (current_monthly_expense : Q) (current_age retirement_age : Z)
    (inflation_rate : Q) : option Q :=
  let g := inflation_rate in
  let years_to_retirement := Z.max 0 (retirement_age - current_age) in
  power ← py_pow (1 + g) years_to_retirement;
  let retirement_annual_expense := current_monthly_expense * 12 * power in
  Some (retirement_annual_expense * 25).

(** ** FIRE achievement evaluator ([check_fire_achievement]) *)

(** The narrative strings of [achievements], by the values they format. *)
Inductive Achievement :=
| GrowingAchieved (age : Z) (target net_worth : Q)
| TraditionalAchieved (age : Z) (target net_worth : Q).

Record RetirementStatus := mkRetirementStatus {
  rs_age : Z;
  rs_net_worth : Q;
  rs_monthly_expense : Q;
  rs_annual_expense : Q;
  rs_safe_withdrawal : Q
}.

Record FireResult := mkFireResult {
  fire_age_growing : option Z;
  fire_age_traditional : option Z;
  fire_target_growing : Q;
  fire_target_traditional : Q;
  retirement_status : option RetirementStatus;
  achievements : list Achievement
}.

(** The values the evaluator reads off its configuration (lines 187-193). *)
Record FireParams := mkFireParams {
  fp_retirement_age : Z;
  fp_life_expectancy : Z;
  fp_inflation : Q;
  fp_conservative : Q;
  fp_current_age : Z;
  fp_current_monthly_expense : Q
}.

Definition fire_params (player_status : PlayerStatus)
    (investment_config : InvestmentConfig) : FireParams :=
  {| fp_retirement_age := py_or_Z (ic_retirement_age investment_config) 65;
     fp_life_expectancy := py_or_Z (ic_life_expectancy investment_config) 85;
     fp_inflation := py_or_Q (ic_inflation_rate investment_config) 0.03;
     fp_conservative :=
       py_or_Q (ic_conservative_return_rate investment_config) 0.03;
     fp_current_age := py_or_Z (ps_age player_status) 25;
     fp_current_monthly_expense :=
       py_or_Q (ps_monthly_expense player_status) 0 |}.

(** The headline targets at the configured retirement age (lines 205-230). *)
Definition headline_targets (simulation_results : gmap Z YearEnd)
    (fp : FireParams) : option (Q * Q) :=
  match simulation_results !! fp_retirement_age fp with
  | Some retirement_data =>
      let retirement_expenses := ye_monthly_expense retirement_data * 12 in
      let years := Z.max 0 (fp_life_expectancy fp - fp_retirement_age fp) in
      growing ← calculate_growing_annuity_present_value
                  retirement_expenses years (fp_conservative fp) (fp_inflation fp);
      Some (growing, retirement_expenses * 25)
  | None =>
      growing ← calculate_retirement_target_growing_annuity
                  (fp_current_monthly_expense fp) (fp_current_age fp)
                  (fp_retirement_age fp) (fp_life_expectancy fp)
                  (fp_inflation fp) (fp_conservative fp);
      traditional ← calculate_retirement_target_traditional_25x
                      (fp_current_monthly_expense fp) (fp_current_age fp)
                      (fp_retirement_age fp) (fp_inflation fp);
      Some (growing, traditional)
  end.

(** The body of the scan over ages (lines 239-267). *)
Definition check_age (simulation_results : gmap Z YearEnd) (fp : FireParams)
    (result : FireResult) (age : Z) : option FireResult :=
  let net_worth := from_option ye_net_worth 0 (simulation_results !! age) in
  let remaining_life_years := (fp_life_expectancy fp - age)%Z in
  if (remaining_life_years <=? 0)%Z then Some result
  else
    let years_from_now := (age - fp_current_age fp)%Z in
    power ← py_pow (1 + fp_inflation fp) years_from_now;
    let future_expense := fp_current_monthly_expense fp * 12 * power in
    age_fire_target_growing ←
      calculate_growing_annuity_present_value
        future_expense remaining_life_years (fp_conservative fp) (fp_inflation fp);
    let age_fire_target_traditional := future_expense * 25 in
    let result1 :=
      match fire_age_growing result with
      | None =>
          if Qleb age_fire_target_growing net_worth then
            {| fire_age_growing := Some age;
               fire_age_traditional := fire_age_traditional result;
               fire_target_growing := fire_target_growing result;
               fire_target_traditional := fire_target_traditional result;
               retirement_status := retirement_status result;
               achievements :=
                 achievements result
                 ++ [GrowingAchieved age age_fire_target_growing net_worth] |}
          else result
      | Some _ => result
      end in
    let result2 :=
      match fire_age_traditional result1 with
      | None =>
          if Qleb age_fire_target_traditional net_worth then
            {| fire_age_growing := fire_age_growing result1;
               fire_age_traditional := Some age;
               fire_target_growing := fire_target_growing result1;
               fire_target_traditional := fire_target_traditional result1;
               retirement_status := retirement_status result1;
               achievements :=
                 achievements result1
                 ++ [TraditionalAchieved age age_fire_target_traditional net_worth] |}
          else result1
      | Some _ => result1
      end in
    Some result2.

(** The scan: the body at each age in turn, stopping at an exception. *)
Fixpoint scan_ages (simulation_results : gmap Z YearEnd) (fp : FireParams)
    (ages : list Z) (result : FireResult) : option FireResult :=
  match ages with
  | [] => Some result
  | age :: rest =>
      result' ← check_age simulation_results fp result age;
      scan_ages simulation_results fp rest result'
  end.

(** [sorted(simulation_results.keys())]. *)
Definition sorted_ages (simulation_results : gmap Z YearEnd) : list Z :=
  merge_sort Z.le (elements (dom simulation_results)).

Definition check_fire_achievement (simulation_results : gmap Z YearEnd)
    (player_status : PlayerStatus) (investment_config : InvestmentConfig)
    : option FireResult :=
  let fp := fire_params player_status investment_config in
  '(target_growing, target_traditional) ← headline_targets simulation_results fp;
  let result :=
    {| fire_age_growing := None;
       fire_age_traditional := None;
       fire_target_growing := target_growing;
       fire_target_traditional := target_traditional;
       retirement_status := None;
       achievements := [] |} in
  result ← scan_ages simulation_results fp (sorted_ages simulation_results) result;
  let status :=
    match simulation_results !! fp_retirement_age fp with
    | Some retirement_data =>
        Some {| rs_age := fp_retirement_age fp;
                rs_net_worth := ye_net_worth retirement_data;
                rs_monthly_expense := ye_monthly_expense retirement_data;
                rs_annual_expense := ye_monthly_expense retirement_data * 12;
                rs_safe_withdrawal := ye_net_worth retirement_data * 0.04 |}
    | None => None
    end in
  Some {| fire_age_growing := fire_age_growing result;
          fire_age_traditional := fire_age_traditional result;
          fire_target_growing := fire_target_growing result;
          fire_target_traditional := fire_target_traditional result;
          retirement_status := status;
          achievements := achievements result |}.

(** ** Payloads that differ in one key *)

(** [payload] with the key [k] of [player_status] or [investment_config]
    set to [v] ([None]: the key is absent). *)
Definition set_savings (v : option Q) (payload : Payload) : Payload :=
  {| player_status :=
       {| ps_age := ps_age (player_status payload);
         ps_savings := v;
         ps_monthly_income := ps_monthly_income (player_status payload);
         ps_monthly_expense := ps_monthly_expense (player_status payload);
         ps_debt := ps_debt (player_status payload) |};
     investment_config := investment_config payload;
     salary_config := salary_config payload;
     life_planning := life_planning payload |}.

Definition set_age (v : option Z) (payload : Payload) : Payload :=
  {| player_status :=
       {| ps_age := v;
         ps_savings := ps_savings (player_status payload);
         ps_monthly_income := ps_monthly_income (player_status payload);
         ps_monthly_expense := ps_monthly_expense (player_status payload);
         ps_debt := ps_debt (player_status payload) |};
     investment_config := investment_config payload;
     salary_config := salary_config payload;
     life_planning := life_planning payload |}.

Definition set_retirement_age (v : option Z) (payload : Payload) : Payload :=
  {| player_status := player_status payload;
     investment_config :=
       {| ic_retirement_age := v;
         ic_life_expectancy := ic_life_expectancy (investment_config payload);
         ic_inflation_rate := ic_inflation_rate (investment_config payload);
         ic_conservative_return_rate := ic_conservative_return_rate (investment_config payload);
         ic_growth_return_rate := ic_growth_return_rate (investment_config payload);
         ic_cash_return := ic_cash_return (investment_config payload);
         ic_young_growth_ratio := ic_young_growth_ratio (investment_config payload);
         ic_young_conservative_ratio := ic_young_conservative_ratio (investment_config payload);
         ic_young_cash_reserve_ratio := ic_young_cash_reserve_ratio (investment_config payload);
         ic_middle_growth_ratio := ic_middle_growth_ratio (investment_config payload);
         ic_middle_conservative_ratio := ic_middle_conservative_ratio (investment_config payload);
         ic_middle_cash_reserve_ratio := ic_middle_cash_reserve_ratio (investment_config payload);
         ic_old_growth_ratio := ic_old_growth_ratio (investment_config payload);
         ic_old_conservative_ratio := ic_old_conservative_ratio (investment_config payload);
         ic_old_cash_reserve_ratio := ic_old_cash_reserve_ratio (investment_config payload) |};
     salary_config := salary_config payload;
     life_planning := life_planning payload |}.

Definition set_life_expectancy (v : option Z) (payload : Payload) : Payload :=
  {| player_status := player_status payload;
     investment_config :=
       {| ic_retirement_age := ic_retirement_age (investment_config payload);
         ic_life_expectancy := v;
         ic_inflation_rate := ic_inflation_rate (investment_config payload);
         ic_conservative_return_rate := ic_conservative_return_rate (investment_config payload);
         ic_growth_return_rate := ic_growth_return_rate (investment_config payload);
         ic_cash_return := ic_cash_return (investment_config payload);
         ic_young_growth_ratio := ic_young_growth_ratio (investment_config payload);
         ic_young_conservative_ratio := ic_young_conservative_ratio (investment_config payload);
         ic_young_cash_reserve_ratio := ic_young_cash_reserve_ratio (investment_config payload);
         ic_middle_growth_ratio := ic_middle_growth_ratio (investment_config payload);
         ic_middle_conservative_ratio := ic_middle_conservative_ratio (investment_config payload);
         ic_middle_cash_reserve_ratio := ic_middle_cash_reserve_ratio (investment_config payload);
         ic_old_growth_ratio := ic_old_growth_ratio (investment_config payload);
         ic_old_conservative_ratio := ic_old_conservative_ratio (investment_config payload);
         ic_old_cash_reserve_ratio := ic_old_cash_reserve_ratio (investment_config payload) |};
     salary_config := salary_config payload;
     life_planning := life_planning payload |}.

Definition set_inflation_rate (v : option Q) (payload : Payload) : Payload :=
  {| player_status := player_status payload;
     investment_config :=
       {| ic_retirement_age := ic_retirement_age (investment_config payload);
         ic_life_expectancy := ic_life_expectancy (investment_config payload);
         ic_inflation_rate := v;
         ic_conservative_return_rate := ic_conservative_return_rate (investment_config payload);
         ic_growth_return_rate := ic_growth_return_rate (investment_config payload);
         ic_cash_return := ic_cash_return (investment_config payload);
         ic_young_growth_ratio := ic_young_growth_ratio (investment_config payload);
         ic_young_conservative_ratio := ic_young_conservative_ratio (investment_config payload);
         ic_young_cash_reserve_ratio := ic_young_cash_reserve_ratio (investment_config payload);
         ic_middle_growth_ratio := ic_middle_growth_ratio (investment_config payload);
         ic_middle_conservative_ratio := ic_middle_conservative_ratio (investment_config payload);
         ic_middle_cash_reserve_ratio := ic_middle_cash_reserve_ratio (investment_config payload);
         ic_old_growth_ratio := ic_old_growth_ratio (investment_config payload);
         ic_old_conservative_ratio := ic_old_conservative_ratio (investment_config payload);
         ic_old_cash_reserve_ratio := ic_old_cash_reserve_ratio (investment_config payload) |};
     salary_config := salary_config payload;
     life_planning := life_planning payload |}.

Definition set_conservative_return_rate (v : option Q) (payload : Payload) : Payload :=
  {| player_status := player_status payload;
     investment_config :=
       {| ic_retirement_age := ic_retirement_age (investment_config payload);
         ic_life_expectancy := ic_life_expectancy (investment_config payload);
         ic_inflation_rate := ic_inflation_rate (investment_config payload);
         ic_conservative_return_rate := v;
         ic_growth_return_rate := ic_growth_return_rate (investment_config payload);
         ic_cash_return := ic_cash_return (investment_config payload);
         ic_young_growth_ratio := ic_young_growth_ratio (investment_config payload);
         ic_young_conservative_ratio := ic_young_conservative_ratio (investment_config payload);
         ic_young_cash_reserve_ratio := ic_young_cash_reserve_ratio (investment_config payload);
         ic_middle_growth_ratio := ic_middle_growth_ratio (investment_config payload);
         ic_middle_conservative_ratio := ic_middle_conservative_ratio (investment_config payload);
         ic_middle_cash_reserve_ratio := ic_middle_cash_reserve_ratio (investment_config payload);
         ic_old_growth_ratio := ic_old_growth_ratio (investment_config payload);
         ic_old_conservative_ratio := ic_old_conservative_ratio (investment_config payload);
         ic_old_cash_reserve_ratio := ic_old_cash_reserve_ratio (investment_config payload) |};
     salary_config := salary_config payload;
     life_planning := life_planning payload |}.

Definition set_growth_return_rate (v : option Q) (payload : Payload) : Payload :=
  {| player_status := player_status payload;
     investment_config :=
       {| ic_retirement_age := ic_retirement_age (investment_config payload);
         ic_life_expectancy := ic_life_expectancy (investment_config payload);
         ic_inflation_rate := ic_inflation_rate (investment_config payload);
         ic_conservative_return_rate := ic_conservative_return_rate (investment_config payload);
         ic_growth_return_rate := v;
         ic_cash_return := ic_cash_return (investment_config payload);
         ic_young_growth_ratio := ic_young_growth_ratio (investment_config payload);
         ic_young_conservative_ratio := ic_young_conservative_ratio (investment_config payload);
         ic_young_cash_reserve_ratio := ic_young_cash_reserve_ratio (investment_config payload);
         ic_middle_growth_ratio := ic_middle_growth_ratio (investment_config payload);
         ic_middle_conservative_ratio := ic_middle_conservative_ratio (investment_config payload);
         ic_middle_cash_reserve_ratio := ic_middle_cash_reserve_ratio (investment_config payload);
         ic_old_growth_ratio := ic_old_growth_ratio (investment_config payload);
         ic_old_conservative_ratio := ic_old_conservative_ratio (investment_config payload);
         ic_old_cash_reserve_ratio := ic_old_cash_reserve_ratio (investment_config payload) |};
     salary_config := salary_config payload;
     life_planning := life_planning payload |}.

Definition set_cash_return (v : option Q) (payload : Payload) : Payload :=
  {| player_status := player_status payload;
     investment_config :=
       {| ic_retirement_age := ic_retirement_age (investment_config payload);
         ic_life_expectancy := ic_life_expectancy (investment_config payload);
         ic_inflation_rate := ic_inflation_rate (investment_config payload);
         ic_conservative_return_rate := ic_conservative_return_rate (investment_config payload);
         ic_growth_return_rate := ic_growth_return_rate (investment_config payload);
         ic_cash_return := v;
         ic_young_growth_ratio := ic_young_growth_ratio (investment_config payload);
         ic_young_conservative_ratio := ic_young_conservative_ratio (investment_config payload);
         ic_young_cash_reserve_ratio := ic_young_cash_reserve_ratio (investment_config payload);
         ic_middle_growth_ratio := ic_middle_growth_ratio (investment_config payload);
         ic_middle_conservative_ratio := ic_middle_conservative_ratio (investment_config payload);
         ic_middle_cash_reserve_ratio := ic_middle_cash_reserve_ratio (investment_config payload);
         ic_old_growth_ratio := ic_old_growth_ratio (investment_config payload);
         ic_old_conservative_ratio := ic_old_conservative_ratio (investment_config payload);
         ic_old_cash_reserve_ratio := ic_old_cash_reserve_ratio (investment_config payload) |};
     salary_config := salary_config payload;
     life_planning := life_planning payload |}.

(** ** Sample payloads *)

Definition empty_investment_config : InvestmentConfig :=
  {| ic_retirement_age := None; ic_life_expectancy := None;
     ic_inflation_rate := None; ic_conservative_return_rate := None;
     ic_growth_return_rate := None; ic_cash_return := None;
     ic_young_growth_ratio := None; ic_young_conservative_ratio := None;
     ic_young_cash_reserve_ratio := None; ic_middle_growth_ratio := None;
     ic_middle_conservative_ratio := None; ic_middle_cash_reserve_ratio := None;
     ic_old_growth_ratio := None; ic_old_conservative_ratio := None;
     ic_old_cash_reserve_ratio := None |}.

(** A person of [age] with the given monthly income and expense, no debt,
    no configured weights or rates, and no life events. *)
Definition simple_payload (age retirement_age life_expectancy : Z)
    (income expense : Q) : Payload :=
  {| player_status :=
       {| ps_age := Some age; ps_savings := None;
          ps_monthly_income := Some income;
          ps_monthly_expense := Some expense; ps_debt := None |};
     investment_config :=
       investment_config
         (set_life_expectancy (Some life_expectancy)
            (set_retirement_age (Some retirement_age)
               (mkPayload (mkPlayerStatus None None None None None)
                  empty_investment_config (mkSalaryConfig None) ∅)));
     salary_config := {| sc_young_growth_rate := None |};
     life_planning := ∅ |}.

(** ** Notions used in the statements *)

(** [st] with the local variable [savings] replaced. *)
Definition with_savings (s : Q) (st : State) : State :=
  {| cur_age := cur_age st;
     monthly_income := monthly_income st;
     monthly_expense := monthly_expense st;
     current_debt := current_debt st;
     monthly_house_payment := monthly_house_payment st;
     stock_amt := stock_amt st;
     bond_amt := bond_amt st;
     cash_amt := cash_amt st;
     savings := s;
     financial_results := financial_results st;
     yearly_map := yearly_map st;
     event_log := event_log st |}.

(** Two payloads from which the loops of [run_simulation] read the same
    values, and two that also start the loops in the same state. *)
Record same_parameters (p1 p2 : Payload) : Prop := mk_same_parameters {
  same_years : years_of p1 = years_of p2;
  same_years_in_retirement :
    years_in_retirement_of p1 = years_in_retirement_of p2;
  same_inflation : inflation_of p1 = inflation_of p2;
  same_cons_ret : cons_ret_of p1 = cons_ret_of p2;
  same_growth_ret : growth_ret_of p1 = growth_ret_of p2;
  same_cash_return : cash_return_of p1 = cash_return_of p2;
  same_ratios :
    forall age, get_allocation_ratios age (investment_config p1)
                = get_allocation_ratios age (investment_config p2);
  same_salary : salary_config p1 = salary_config p2;
  same_life_planning : life_planning p1 = life_planning p2
}.

Definition same_inputs (p1 p2 : Payload) : Prop :=
  same_parameters p1 p2 /\ initial_state p1 = initial_state p2.

(** The state after both loops, started from [st]. *)
Definition run_from (payload : Payload) (st : State) : State :=
  Nat.iter (Z.to_nat (years_in_retirement_of payload)) (retirement_year payload)
    (retire (Nat.iter (Z.to_nat (years_of payload)) (accumulation_year payload) st)).

(** The net worth the scan reads at [age] ([data.get('net_worth', 0)]),
    the projected annual expense of that age and the two tests of the
    scan: the age is not skipped and its net worth reaches the target. *)
Definition net_worth_at (simulation_results : gmap Z YearEnd) (age : Z) : Q :=
  from_option ye_net_worth 0 (simulation_results !! age).

Definition future_expense (fp : FireParams) (age : Z) : Q :=
  fp_current_monthly_expense fp * 12
  * (1 + fp_inflation fp) ^ (age - fp_current_age fp).

Definition reaches_growing (simulation_results : gmap Z YearEnd)
    (fp : FireParams) (age : Z) : bool :=
  (0 <? fp_life_expectancy fp - age)%Z
  && match calculate_growing_annuity_present_value
             (future_expense fp age) (fp_life_expectancy fp - age)
             (fp_conservative fp) (fp_inflation fp) with
     | Some target => Qleb target (net_worth_at simulation_results age)
     | None => false
     end.

Definition reaches_traditional (simulation_results : gmap Z YearEnd)
    (fp : FireParams) (age : Z) : bool :=
  (0 <? fp_life_expectancy fp - age)%Z
  && Qleb (future_expense fp age * 25) (net_worth_at simulation_results age).

(** [a] is the smallest simulated age that passes the test. *)
Definition smallest_age (simulation_results : gmap Z YearEnd)
    (reaches : Z -> bool) (a : Z) : Prop :=
  a ∈ dom simulation_results
  /\ reaches a = true
  /\ forall a', a' ∈ dom simulation_results -> reaches a' = true -> (a <= a')%Z.

(** What one iteration of the scan does to an achievement age. *)
Definition first_or (found : option Z) (hit : bool) (age : Z) : option Z :=
  match found with
  | Some a => Some a
  | None => if hit then Some age else None
  end.

(** A two-year snapshot map for a person of 30 who spends 20000 a month:
    a net worth of 100000 at 30 and of 10000000 at 31. *)
Definition year_end_sample (net_worth expense : Q) : YearEnd :=
  {| ye_monthly_income := 0; ye_monthly_expense := expense; ye_savings := 0;
     ye_debt := 0; ye_stock_investment := 0; ye_bond_investment := 0;
     ye_cash_investment := net_worth; ye_net_worth := net_worth;
     ye_yearly_withdrawn := 0; ye_monthly_house_payment := 0 |}.

Definition sample_results : gmap Z YearEnd :=
  <[31%Z := year_end_sample 10000000 20600]>
    (<[30%Z := year_end_sample 100000 20000]> ∅).

Definition sample_player : PlayerStatus :=
  {| ps_age := Some 30%Z; ps_savings := None; ps_monthly_income := Some 50000;
     ps_monthly_expense := Some 20000; ps_debt := None |}.

(** The first [m] months of an accumulation year begun in state [st]
    (after the year's events): the weights are those of the age on entry. *)
Definition accumulation_months (payload : Payload) (st : State) (m : nat) : State :=
  let '(gr, cr, hr) :=
    get_allocation_ratios (cur_age st) (investment_config payload) in
  fold_left (accumulation_month payload gr cr hr) (range m) st.

(** The state on entry to month [m] of accumulation year [j] (both from
    0), the events of the year already applied; and the state on entry to
    month [m] of retirement year [j]. *)
Definition accumulation_entry (payload : Payload) (j m : nat) : State :=
  accumulation_months payload
    (process_events payload
       (Nat.iter j (accumulation_year payload) (initial_state payload)))
    m.

Definition retirement_entry (payload : Payload) (j m : nat) : State :=
  fold_left (retirement_month payload) (range m)
    (Nat.iter j (retirement_year payload) (retire (accumulation_phase payload))).

(** The loan principal a house-purchase event originates, and payloads
    whose initial debt and loan principals are not negative. *)
Definition event_principal (event : Event) : Q :=
  py_or_Q (house_data_get hd_house_price event) 0
  * (1 - default 20 (house_data_get hd_down_payment_ratio event) / 100).

Definition valid_debts (payload : Payload) : Prop :=
  0 <= py_or_Q (ps_debt (player_status payload)) 0
  /\ forall a evs,
       life_planning payload !! a = Some evs ->
       Forall (fun ev => ev_type ev = BuyHouse -> 0 <= event_principal ev) evs.

(** A house-purchase event with all four house fields present, and the
    purchase of the reference scenario: 15,000,000 with 20% down at 3%
    over 30 years. *)
Definition house_purchase_event (price down_payment_ratio rate : Q) (term : Z) : Event :=
  {| ev_type := BuyHouse;
     ev_house_data :=
       Some {| hd_house_price := Some price;
               hd_down_payment_ratio := Some down_payment_ratio;
               hd_loan_rate := Some rate;
               hd_loan_years := Some term |} |}.

Definition reference_purchase : Event := house_purchase_event 15000000 20 0.03 30.

(** The state of a loan of [debt0] repaid by instalments of [pay], [n] of
    them paid. *)
Definition owing (debt0 pay : Q) (n : nat) (st : State) : Prop :=
  monthly_house_payment st = pay
  /\ current_debt st == debt0 - inject_Z (Z.of_nat n) * pay.

(** The loan and the instalment of the reference purchase, as the engine
    computes them, and the number of accumulation years before [age]. *)
Definition reference_loan : Q := 15000000 * (1 - 20 / 100).
Definition reference_payment : Q := reference_loan / inject_Z (30 * 12).

Definition years_until (payload : Payload) (age : Z) : nat :=
  Z.to_nat (age - age_of payload).

(** A person of 30 who buys the reference house at once and retires at 60. *)
Definition house_payload : Payload :=
  {| player_status := player_status (simple_payload 30 60 60 100000 25000);
     investment_config := investment_config (simple_payload 30 60 60 100000 25000);
     salary_config := salary_config (simple_payload 30 60 60 100000 25000);
     life_planning := {[ 30%Z := [reference_purchase] ]} |}.

(** ** Further notions used in the statements *)

(** [invest] with its nine weights multiplied by [k]. *)
Definition scale_ratios (k : Q) (invest : InvestmentConfig) : InvestmentConfig :=
  {| ic_retirement_age := ic_retirement_age invest;
     ic_life_expectancy := ic_life_expectancy invest;
     ic_inflation_rate := ic_inflation_rate invest;
     ic_conservative_return_rate := ic_conservative_return_rate invest;
     ic_growth_return_rate := ic_growth_return_rate invest;
     ic_cash_return := ic_cash_return invest;
     ic_young_growth_ratio := Qmult k <$> ic_young_growth_ratio invest;
     ic_young_conservative_ratio := Qmult k <$> ic_young_conservative_ratio invest;
     ic_young_cash_reserve_ratio := Qmult k <$> ic_young_cash_reserve_ratio invest;
     ic_middle_growth_ratio := Qmult k <$> ic_middle_growth_ratio invest;
     ic_middle_conservative_ratio := Qmult k <$> ic_middle_conservative_ratio invest;
     ic_middle_cash_reserve_ratio := Qmult k <$> ic_middle_cash_reserve_ratio invest;
     ic_old_growth_ratio := Qmult k <$> ic_old_growth_ratio invest;
     ic_old_conservative_ratio := Qmult k <$> ic_old_conservative_ratio invest;
     ic_old_cash_reserve_ratio := Qmult k <$> ic_old_cash_reserve_ratio invest |}.

(** A weight that is missing or not negative; a configuration whose nine
    weights are so. *)
Definition weight_ok (w : option Q) : Prop :=
  match w with Some v => 0 <= v | None => True end.

Definition weights_ok (invest : InvestmentConfig) : Prop :=
  weight_ok (ic_young_growth_ratio invest)
  /\ weight_ok (ic_young_conservative_ratio invest)
  /\ weight_ok (ic_young_cash_reserve_ratio invest)
  /\ weight_ok (ic_middle_growth_ratio invest)
  /\ weight_ok (ic_middle_conservative_ratio invest)
  /\ weight_ok (ic_middle_cash_reserve_ratio invest)
  /\ weight_ok (ic_old_growth_ratio invest)
  /\ weight_ok (ic_old_conservative_ratio invest)
  /\ weight_ok (ic_old_cash_reserve_ratio invest).

(** Equality of weight triples up to the representation of fractions. *)
Definition ratios_eq (x y : Q * Q * Q) : Prop :=
  x.1.1 == y.1.1 /\ x.1.2 == y.1.2 /\ x.2 == y.2.

(** The expenses of [n] years, the first [E0] and each later one grown by
    [g], each discounted at [r] to the start of the first year. *)
Fixpoint discounted_expenses (E0 r g : Q) (n : nat) : Q :=
  match n with
  | O => 0
  | S k =>
      discounted_expenses E0 r g k
      + E0 * (1 + g) ^ Z.of_nat k / (1 + r) ^ (Z.of_nat k + 1)
  end.

(** [invest] with the three weights of the young bucket set. *)
Definition set_weights_young (g c h : Q) (invest : InvestmentConfig) : InvestmentConfig :=
  {| ic_retirement_age := ic_retirement_age invest;
     ic_life_expectancy := ic_life_expectancy invest;
     ic_inflation_rate := ic_inflation_rate invest;
     ic_conservative_return_rate := ic_conservative_return_rate invest;
     ic_growth_return_rate := ic_growth_return_rate invest;
     ic_cash_return := ic_cash_return invest;
     ic_young_growth_ratio := Some g;
     ic_young_conservative_ratio := Some c;
     ic_young_cash_reserve_ratio := Some h;
     ic_middle_growth_ratio := ic_middle_growth_ratio invest;
     ic_middle_conservative_ratio := ic_middle_conservative_ratio invest;
     ic_middle_cash_reserve_ratio := ic_middle_cash_reserve_ratio invest;
     ic_old_growth_ratio := ic_old_growth_ratio invest;
     ic_old_conservative_ratio := ic_old_conservative_ratio invest;
     ic_old_cash_reserve_ratio := ic_old_cash_reserve_ratio invest |}.

(** The year-end records written by [accumulation_year_end] and by
    [retirement_year_end] from the state after the year's twelfth month. *)
Definition ye_of_accumulation (st : State) : YearEnd :=
  {| ye_monthly_income := monthly_income st;
     ye_monthly_expense := monthly_expense st;
     ye_savings := 0;
     ye_debt := current_debt st;
     ye_stock_investment := stock_amt st;
     ye_bond_investment := bond_amt st;
     ye_cash_investment := cash_amt st;
     ye_net_worth := stock_amt st + bond_amt st + cash_amt st;
     ye_yearly_withdrawn := 0;
     ye_monthly_house_payment := monthly_house_payment st |}.

Definition ye_of_retirement (st : State) : YearEnd :=
  {| ye_monthly_income := 0;
     ye_monthly_expense := monthly_expense st;
     ye_savings := 0;
     ye_debt := current_debt st;
     ye_stock_investment := Qmax 0 (stock_amt st);
     ye_bond_investment := Qmax 0 (bond_amt st);
     ye_cash_investment := Qmax 0 (cash_amt st);
     ye_net_worth := Qmax 0 (savings st);
     ye_yearly_withdrawn := (monthly_expense st + monthly_house_payment st) * 12;
     ye_monthly_house_payment := monthly_house_payment st |}.

(** [payload] with another [life_planning] map; the house purchases
    among a map's events. *)
Definition set_life_planning (lp : gmap Z (list Event)) (payload : Payload) : Payload :=
  {| player_status := player_status payload;
     investment_config := investment_config payload;
     salary_config := salary_config payload;
     life_planning := lp |}.

Definition is_purchase (event : Event) : bool :=
  match ev_type event with
  | BuyHouse => true
  | OtherEvent _ => false
  end.

Definition only_purchases (lp : gmap Z (list Event)) : gmap Z (list Event) :=
  List.filter is_purchase <$> lp.

(** A state with no assets, no house payment and no negative expense. *)
Definition penniless (st : State) : Prop :=
  stock_amt st == 0 /\ bond_amt st == 0 /\ cash_amt st == 0
  /\ monthly_house_payment st == 0 /\ 0 <= monthly_expense st.

(** A person of 30 who retires at 40 and buys a small house at 31, on a
    loan of two years. *)
Definition short_loan_payload : Payload :=
  {| player_status := player_status (simple_payload 30 40 50 100000 25000);
     investment_config := investment_config (simple_payload 30 40 50 100000 25000);
     salary_config := salary_config (simple_payload 30 40 50 100000 25000);
     life_planning := {[ 31%Z := [house_purchase_event 1200000 20 0.03 2] ]} |}.

(** ** The manual check of [tools/smoke_test_simple.py] *)

(** The three variables the loop of lines 67-73 updates. *)
Record ManualCheck := {
  mc_monthly_income : Q;
  mc_monthly_expense : Q;
  mc_total_savings : Q
}.

(** One pass of the loop body (lines 68-73): a year's surplus is added to
    the total, the total is compounded once, and income and expense grow. *)
Definition manual_check_year (inflation salary_growth cash_return : Q)
    (s : ManualCheck) : ManualCheck :=
  let monthly_savings := mc_monthly_income s - mc_monthly_expense s in
  let annual_savings := monthly_savings * 12 in
  let total_savings := mc_total_savings s + annual_savings in
  let total_savings := total_savings * (1 + cash_return) in
  {| mc_monthly_income := mc_monthly_income s * (1 + salary_growth);
     mc_monthly_expense := mc_monthly_expense s * (1 + inflation);
     mc_total_savings := total_savings |}.

(** [n] passes from a total of 0 (lines 60-73; the script runs it with
    30000, 25000, 0.03, 0.05, 0.0 and 40). *)
Definition manual_check (monthly_income monthly_expense inflation salary_growth
    cash_return : Q) (n : nat) : ManualCheck :=
  Nat.iter n (manual_check_year inflation salary_growth cash_return)
    {| mc_monthly_income := monthly_income;
       mc_monthly_expense := monthly_expense;
       mc_total_savings := 0 |}.

(** The manual check run on the values the engine reads off [payload]. *)
Definition manual_check_of (payload : Payload) (n : nat) : ManualCheck :=
  manual_check
    (py_or_Q (ps_monthly_income (player_status payload)) 0)
    (py_or_Q (ps_monthly_expense (player_status payload)) 0)
    (inflation_of payload)
    (default 0 (sc_young_growth_rate (salary_config payload)))
    (cash_return_of payload) n.

(** No weight on growth or conservative assets in any age bucket. *)
Definition no_growth_or_bonds (invest : InvestmentConfig) : Prop :=
  py_or_Q (ic_young_growth_ratio invest) 0 == 0
  /\ py_or_Q (ic_young_conservative_ratio invest) 0 == 0
  /\ py_or_Q (ic_middle_growth_ratio invest) 0 == 0
  /\ py_or_Q (ic_middle_conservative_ratio invest) 0 == 0
  /\ py_or_Q (ic_old_growth_ratio invest) 0 == 0
  /\ py_or_Q (ic_old_conservative_ratio invest) 0 == 0.

(** A state that holds [tot] in cash and nothing else, pays no house
    instalment, and has income [inc] and expense [exp]. *)
Definition saving_cash (inc exp tot : Q) (st : State) : Prop :=
  monthly_income st == inc /\ monthly_expense st == exp
  /\ monthly_house_payment st == 0
  /\ stock_amt st == 0 /\ bond_amt st == 0 /\ cash_amt st == tot.

(** The payload of the script: everything in cash at no return. *)
Definition smoke_test_payload : Payload :=
  {| player_status :=
       {| ps_age := Some 25%Z; ps_savings := Some 0;
          ps_monthly_income := Some 30000; ps_monthly_expense := Some 25000;
          ps_debt := Some 0 |};
     investment_config :=
       {| ic_retirement_age := Some 65%Z;
          ic_life_expectancy := Some 85%Z;
          ic_inflation_rate := Some 0.03;
          ic_conservative_return_rate := Some 0.03;
          ic_growth_return_rate := Some 0.07;
          ic_cash_return := Some 0;
          ic_young_growth_ratio := Some 0;
          ic_young_conservative_ratio := Some 0;
          ic_young_cash_reserve_ratio := Some 1;
          ic_middle_growth_ratio := Some 0;
          ic_middle_conservative_ratio := Some 0;
          ic_middle_cash_reserve_ratio := Some 1;
          ic_old_growth_ratio := Some 0;
          ic_old_conservative_ratio := Some 0;
          ic_old_cash_reserve_ratio := Some 1 |};
     salary_config := {| sc_young_growth_rate := Some 0.05 |};
     life_planning := ∅ |}.

(** ** What the narrative of the evaluator says *)

(** 1 for an achievement age, 0 for null. *)
Definition found (age : option Z) : nat :=
  match age with Some _ => 1 | None => 0 end.

(** The entries of [ach] against the two achievement ages [fg] and [ft]:
    an entry names the achievement age of its formula, the target of that
    formula at that age, and the net worth recorded at that age, which
    reaches the target; each achievement age has its entry; and there is
    no other entry. *)
Definition narrates (sr : gmap Z YearEnd) (fp : FireParams)
    (fg ft : option Z) (ach : list Achievement) : Prop :=
  (forall a t nw, GrowingAchieved a t nw ∈ ach ->
     fg = Some a
     /\ calculate_growing_annuity_present_value
          (future_expense fp a) (fp_life_expectancy fp - a)
          (fp_conservative fp) (fp_inflation fp) = Some t
     /\ t <= nw /\ nw = net_worth_at sr a)
  /\ (forall a t nw, TraditionalAchieved a t nw ∈ ach ->
        ft = Some a
        /\ t = future_expense fp a * 25
        /\ t <= nw /\ nw = net_worth_at sr a)
  /\ (forall a, fg = Some a -> exists t nw, GrowingAchieved a t nw ∈ ach)
  /\ (forall a, ft = Some a -> exists t nw, TraditionalAchieved a t nw ∈ ach)
  /\ length ach = (found fg + found ft)%nat.

(** ** Life-planning endpoints of the backend ([backend/app/main.py]) *)

(** [x or d] on an optional string: [None] and the empty string both give
    [d]. *)
Definition py_or_string (x : option string) (d : string) : string :=
  match x with
  | Some EmptyString | None => d
  | Some s => s
  end.

(** The request bodies (lines 70-87) and the stored event (line 112). *)
Record LifeEventRequest := mkLifeEventRequest {
  ler_age : Z;
  ler_event_type : string;
  ler_amount : option Q;
  ler_description : option string
}.

Record DeleteLifeEventRequest := mkDeleteLifeEventRequest {
  dr_age : Z;
  dr_index : Z
}.

Record UpdateLifeEventRequest := mkUpdateLifeEventRequest {
  ur_age : Z;
  ur_index : Z;
  ur_event_type : option string;
  ur_amount : option Q;
  ur_description : option string
}.

Record LifeEventData := mkLifeEventData {
  led_type : string;
  led_amount : option Q;
  led_description : string
}.

(** [state.life_planning]: the events planned at each age. *)
Abbreviation LifePlanning := (gmap Z (list LifeEventData)).

(** What a handler raises: an [HTTPException] with its status code, or the
    [IndexError] of [list.pop] and of indexing. *)
Inductive ApiError :=
| HTTPException (status_code : Z)
| IndexError.

(** [events.pop(idx)] for an index that is not negative. *)
Definition py_pop {A} (idx : nat) (events : list A) : option (A * list A) :=
  removed ← events !! idx;
  Some (removed, delete idx events).

(** The stored form of a request (line 112). *)
Definition event_data (event : LifeEventRequest) : LifeEventData :=
  {| led_type := ler_event_type event;
     led_amount := ler_amount event;
     led_description :=
       py_or_string (ler_description event)
         (ler_event_type event ++ " event")%string |}.

(** [add_life_event] (lines 108-115). *)
Definition add_life_event (event : LifeEventRequest) (lp : LifePlanning)
    : LifePlanning :=
  let lp1 :=
    match lp !! ler_age event with
    | None => <[ler_age event := []]> lp
    | Some _ => lp
    end in
  alter (fun events => events ++ [event_data event]) (ler_age event) lp1.

(** [delete_life_event] (lines 118-131): the new planning and the removed
    event, or the exception. *)
Definition delete_life_event (req : DeleteLifeEventRequest) (lp : LifePlanning)
    : ApiError + LifePlanning * LifeEventData :=
  let age := dr_age req in
  let idx := dr_index req in
  match lp !! age with
  | None => inl (HTTPException 404)
  | Some events =>
      if (idx <? 0)%Z || (Z.of_nat (length events) <=? idx)%Z
      then inl (HTTPException 400)
      else
        match py_pop (Z.to_nat idx) events with
        | None => inl IndexError
        | Some (removed, events') =>
            let lp1 := <[age := events']> lp in
            let lp2 :=
              match events' with
              | [] => delete age lp1
              | _ :: _ => lp1
              end in
            inr (lp2, removed)
        end
  end.

(** [update_life_event] (lines 134-152): the new planning and the updated
    event, or the exception. *)
Definition update_life_event (req : UpdateLifeEventRequest) (lp : LifePlanning)
    : ApiError + LifePlanning * LifeEventData :=
  let age := ur_age req in
  let idx := ur_index req in
  match lp !! age with
  | None => inl (HTTPException 404)
  | Some events =>
      if (idx <? 0)%Z || (Z.of_nat (length events) <=? idx)%Z
      then inl (HTTPException 400)
      else
        match events !! Z.to_nat idx with
        | None => inl IndexError
        | Some event =>
            let event1 :=
              {| led_type := default (led_type event) (ur_event_type req);
                 led_amount := led_amount event;
                 led_description := led_description event |} in
            let event2 :=
              {| led_type := led_type event1;
                 led_amount := led_amount event1;
                 led_description :=
                   default (led_description event1) (ur_description req) |} in
            let event3 :=
              {| led_type := led_type event2;
                 led_amount :=
                   match ur_amount req with
                   | Some amount => Some amount
                   | None => led_amount event2
                   end;
                 led_description := led_description event2 |} in
            inr (<[age := <[Z.to_nat idx := event3]> events]> lp, event3)
        end
  end.

(** [clear_all_planning] (lines 155-160) and [restart_tool] (lines
    356-359), as far as the planning goes. *)
Definition clear_all_planning (lp : LifePlanning) : LifePlanning := ∅.
Definition restart_tool (lp : LifePlanning) : LifePlanning := ∅.

(** [has_planning] of [get_board_state] (lines 181 and 200). *)
Definition has_planning (lp : LifePlanning) (age : Z) : bool :=
  match lp !! age with
  | Some events => (0 <? length events)%nat
  | None => false
  end.

(** A call of one of the endpoints that write the planning, and the
    planning after it: a handler that raises has not written yet. *)
Inductive ApiCall :=
| AddLifeEvent (event : LifeEventRequest)
| DeleteLifeEvent (req : DeleteLifeEventRequest)
| UpdateLifeEvent (req : UpdateLifeEventRequest)
| ClearAllPlanning
| RestartTool.

Definition api_step (lp : LifePlanning) (call : ApiCall) : LifePlanning :=
  match call with
  | AddLifeEvent event => add_life_event event lp
  | DeleteLifeEvent req =>
      match delete_life_event req lp with
      | inr (lp', _) => lp'
      | inl _ => lp
      end
  | UpdateLifeEvent req =>
      match update_life_event req lp with
      | inr (lp', _) => lp'
      | inl _ => lp
      end
  | ClearAllPlanning => clear_all_planning lp
  | RestartTool => restart_tool lp
  end.

(** The planning after a sequence of calls on a fresh [BackendState]
    (line 51). *)
Definition api_run (calls : list ApiCall) : LifePlanning :=
  fold_left api_step calls ∅.

(** No age is planned with an empty list of events. *)
Definition no_empty_list (lp : LifePlanning) : Prop :=
  forall age events, lp !! age = Some events -> events <> [].

(** The events planned at [age], none if the age is not a key. *)
Definition events_at (lp : LifePlanning) (age : Z) : list LifeEventData :=
  default [] (lp !! age).

(** A request to plan a journey at 30. *)
Definition travel_request : LifeEventRequest :=
  {| ler_age := 30%Z;
     ler_event_type := "travel"%string;
     ler_amount := Some 50000;
     ler_description := None |}.

(** * Properties *)

(** ** Comparisons and clamping *)

Lemma Qleb_true x y : Qleb x y = true <-> x <= y.
Proof. apply Qle_bool_iff. Qed.

Lemma Qleb_false x y : Qleb x y = false <-> y < x.
Proof.
  unfold Qleb. rewrite <- not_true_iff_false, Qle_bool_iff.
  split; [apply Qnot_le_lt | apply Qlt_not_le].
Qed.

Lemma Qltb_true x y : Qltb x y = true <-> x < y.
Proof. unfold Qltb. rewrite negb_true_iff. apply Qleb_false. Qed.

Lemma Qltb_false x y : Qltb x y = false <-> y <= x.
Proof. unfold Qltb. rewrite negb_false_iff. apply Qleb_true. Qed.

Lemma Qeq_bool_false x y : ~ x == y -> Qeq_bool x y = false.
Proof.
  intros H. destruct (Qeq_bool x y) eqn:E; [|reflexivity].
  apply Qeq_bool_iff in E. contradiction.
Qed.

Lemma Qmax0_pos x : 0 < x -> Qmax 0 x = x.
Proof.
  intros H. unfold Qmax, GenericMinMax.gmax.
  destruct (Qcompare_spec 0 x) as [E|L|G]; try reflexivity; lra.
Qed.

Lemma Qmax0_nonpos x : x <= 0 -> Qmax 0 x = 0.
Proof.
  intros H. unfold Qmax, GenericMinMax.gmax.
  destruct (Qcompare_spec 0 x) as [E|L|G]; try reflexivity; lra.
Qed.

Lemma Qmax0_nonneg x : 0 <= Qmax 0 x.
Proof. apply Q.le_max_l. Qed.

Lemma Qmax0_id x : 0 <= x -> Qmax 0 x == x.
Proof. intros H. apply Q.max_r. exact H. Qed.

Lemma py_or_Q_zero z d : z == 0 -> py_or_Q (Some z) d = d.
Proof. intros H. unfold py_or_Q. apply Qeq_bool_iff in H. now rewrite H. Qed.

Lemma py_div_defined a b : ~ b == 0 -> py_div a b = Some (a / b).
Proof. intros H. unfold py_div. now rewrite Qeq_bool_false. Qed.

Lemma py_pow_defined b n : ~ b == 0 \/ (0 <= n)%Z -> py_pow b n = Some (b ^ n).
Proof.
  intros [H|H]; unfold py_pow.
  - now rewrite Qeq_bool_false.
  - destruct (Z.ltb_spec n 0); [lia|]. now rewrite andb_false_r.
Qed.

(** ** Mortgage amortizer *)

Lemma sum_payments_closed n payment :
  sum_payments n payment == inject_Z (Z.of_nat n) * payment.
Proof.
  induction n as [|k IH].
  - simpl. ring.
  - cbn [sum_payments]. rewrite IH, Nat2Z.inj_succ. unfold Z.succ.
    rewrite inject_Z_plus. ring.
Qed.

Lemma calculate_monthly_payment_pos principal annual_rate years :
  0 < principal -> (0 < years)%Z ->
  calculate_monthly_payment principal annual_rate years
  = principal / inject_Z (years * 12).
Proof.
  intros Hp Hy. unfold calculate_monthly_payment.
  destruct (Z.leb_spec years 0); [lia|].
  destruct (Qleb principal 0) eqn:E; [apply Qleb_true in E; lra | reflexivity].
Qed.

Lemma calculate_monthly_payment_zero principal annual_rate years :
  principal <= 0 \/ (years <= 0)%Z ->
  calculate_monthly_payment principal annual_rate years = 0.
Proof.
  intros H. unfold calculate_monthly_payment.
  destruct (Z.leb_spec years 0); [reflexivity|].
  destruct H as [H|H]; [|lia].
  apply Qleb_true in H. rewrite H. reflexivity.
Qed.

Lemma calculate_monthly_payment_nonneg principal annual_rate years :
  0 <= calculate_monthly_payment principal annual_rate years.
Proof.
  unfold calculate_monthly_payment.
  destruct (Z.leb_spec years 0); cbn [orb]; [lra|].
  destruct (Qleb principal 0) eqn:E; [lra|].
  apply Qleb_false in E.
  apply Qlt_le_weak, Qlt_shift_div_l; [|lra].
  change 0 with (inject_Z 0). rewrite <- Zlt_Qlt. lia.
Qed.

(** C7. For principal > 0 and years > 0 the payment is
    [principal / (years * 12)] whatever the annual rate; it is 0 whenever
    principal <= 0 or years <= 0; and [years * 12] such payments add up to
    the principal. *)
Theorem calculate_monthly_payment_spec :
  (forall principal annual_rate annual_rate' years,
      0 < principal -> (0 < years)%Z ->
      calculate_monthly_payment principal annual_rate years
      = principal / inject_Z (years * 12)
      /\ calculate_monthly_payment principal annual_rate' years
         = calculate_monthly_payment principal annual_rate years)
  /\ (forall principal annual_rate years,
         principal <= 0 \/ (years <= 0)%Z ->
         calculate_monthly_payment principal annual_rate years = 0)
  /\ (forall principal annual_rate years,
         0 < principal -> (0 < years)%Z ->
         sum_payments (Z.to_nat (years * 12))
           (calculate_monthly_payment principal annual_rate years)
         == principal).
Proof.
  split; [|split].
  - intros P r r' T HP HT. split.
    + now apply calculate_monthly_payment_pos.
    + reflexivity.
  - apply calculate_monthly_payment_zero.
  - intros P r T HP HT.
    rewrite calculate_monthly_payment_pos by assumption.
    rewrite sum_payments_closed, Z2Nat.id by lia.
    field. change 0 with (inject_Z 0). rewrite inject_Z_injective. lia.
Qed.

Lemma calculate_monthly_payment_spec_witness :
  calculate_monthly_payment 12000000 0.03 30 = 12000000 / inject_Z (30 * 12)
  /\ calculate_monthly_payment (-5) 0.03 30 = 0
  /\ sum_payments (Z.to_nat (30 * 12)) (calculate_monthly_payment 12000000 0.03 30)
     == 12000000.
Proof.
  destruct calculate_monthly_payment_spec as (H1 & H2 & H3).
  split; [|split].
  - apply (H1 12000000 0.03 0.03 30%Z); reflexivity.
  - apply (H2 (-5) 0.03 30%Z). left. discriminate.
  - apply (H3 12000000 0.03 30%Z); reflexivity.
Defined.

(** ** Present-value calculator *)

Lemma Qabs_small_nonzero x eps : 0 < eps -> ~ Qabs x < eps -> ~ x == 0.
Proof.
  intros He Hn Hx. apply Hn. rewrite Hx. exact He.
Qed.

(** C6. [calculate_growing_annuity_present_value E0 n r g] is 0 whenever
    n <= 0 or E0 <= 0; otherwise it is [E0 * n / (1 + r)] when
    |r - g| < 1e-6, and [E0 * (1 - ((1+g)/(1+r))^n) / (r - g)] when not.
    (At r = -1 the two quotients are undefined and the source raises.) *)
Theorem calculate_growing_annuity_present_value_spec
    (E0 : Q) (n : Z) (r g : Q) :
  ((n <= 0)%Z \/ E0 <= 0 ->
   calculate_growing_annuity_present_value E0 n r g = Some 0)
  /\ ((0 < n)%Z -> 0 < E0 -> ~ 1 + r == 0 -> Qabs (r - g) < 1e-6 ->
      calculate_growing_annuity_present_value E0 n r g
      = Some (E0 * inject_Z n / (1 + r)))
  /\ ((0 < n)%Z -> 0 < E0 -> ~ 1 + r == 0 -> ~ Qabs (r - g) < 1e-6 ->
      calculate_growing_annuity_present_value E0 n r g
      = Some (E0 * (1 - ((1 + g) / (1 + r)) ^ n) / (r - g))).
Proof.
  unfold calculate_growing_annuity_present_value.
  split; [|split].
  - intros [Hn|HE].
    + destruct (Z.leb_spec n 0); [reflexivity | lia].
    + apply Qleb_true in HE. rewrite HE, orb_true_r. reflexivity.
  - intros Hn HE Hr Habs.
    destruct (Z.leb_spec n 0); [lia|].
    destruct (Qleb E0 0) eqn:E; [apply Qleb_true in E; lra|]. cbn [orb].
    apply Qltb_true in Habs. rewrite Habs.
    now apply py_div_defined.
  - intros Hn HE Hr Habs.
    destruct (Z.leb_spec n 0); [lia|].
    destruct (Qleb E0 0) eqn:E; [apply Qleb_true in E; lra|]. cbn [orb].
    destruct (Qltb (Qabs (r - g)) 1e-6) eqn:E'; [apply Qltb_true in E'; contradiction|].
    rewrite (py_div_defined _ _ Hr). cbn [mbind option_bind].
    rewrite py_pow_defined by (right; lia). cbn [mbind option_bind].
    apply py_div_defined.
    apply (Qabs_small_nonzero _ 1e-6); [reflexivity | exact Habs].
Qed.

Lemma calculate_growing_annuity_present_value_spec_witness :
  calculate_growing_annuity_present_value 100 0 0.05 0.03 = Some 0
  /\ calculate_growing_annuity_present_value 100 2 0.03 0.03
     = Some (100 * inject_Z 2 / (1 + 0.03))
  /\ calculate_growing_annuity_present_value 100 2 0.05 0.03
     = Some (100 * (1 - ((1 + 0.03) / (1 + 0.05)) ^ 2) / (0.05 - 0.03)).
Proof.
  split; [|split].
  - apply (calculate_growing_annuity_present_value_spec 100 0%Z 0.05 0.03).
    left. reflexivity.
  - apply (calculate_growing_annuity_present_value_spec 100 2%Z 0.03 0.03);
      (reflexivity || discriminate).
  - apply (calculate_growing_annuity_present_value_spec 100 2%Z 0.05 0.03);
      (reflexivity || discriminate).
Defined.

(** ** The monthly snapshot list only grows *)

Lemma apply_event_results st event :
  financial_results (apply_event st event) = financial_results st.
Proof. unfold apply_event. destruct (ev_type event); reflexivity. Qed.

Lemma process_events_results payload st :
  financial_results (process_events payload st) = financial_results st.
Proof.
  unfold process_events. destruct (life_planning payload !! cur_age st) as [evs|];
    [|reflexivity].
  revert st. induction evs as [|ev evs IH]; intros st; cbn [fold_left].
  - reflexivity.
  - rewrite IH. apply apply_event_results.
Qed.

(** Any loop whose body appends one snapshot appends one per iteration. *)
Lemma months_results_length (step : State -> Z -> State) :
  (forall st m, length (financial_results (step st m))
                = S (length (financial_results st))) ->
  forall ms st,
    length (financial_results (fold_left step ms st))
    = (length (financial_results st) + length ms)%nat.
Proof.
  intros Hstep ms. induction ms as [|m ms IH]; intros st; cbn [fold_left].
  - cbn. lia.
  - rewrite IH, Hstep. cbn. lia.
Qed.

Lemma range_length n : length (range n) = n.
Proof. unfold range. now rewrite length_map, length_seq. Qed.

Lemma accumulation_month_results_length payload gr cr hr st m :
  length (financial_results (accumulation_month payload gr cr hr st m))
  = S (length (financial_results st)).
Proof. cbn. rewrite length_app. cbn. lia. Qed.

Lemma retirement_month_results_length payload st m :
  length (financial_results (retirement_month payload st m))
  = S (length (financial_results st)).
Proof.
  unfold retirement_month. destruct (withdraw _ _ _ _) as [[s b] c].
  cbn. rewrite length_app. cbn. lia.
Qed.

Lemma accumulation_year_end_results payload st :
  financial_results (accumulation_year_end payload st) = financial_results st.
Proof. reflexivity. Qed.

Lemma retirement_year_end_results payload st :
  financial_results (retirement_year_end payload st) = financial_results st.
Proof. reflexivity. Qed.

Lemma retire_results st : financial_results (retire st) = financial_results st.
Proof. reflexivity. Qed.

Lemma accumulation_year_results_length payload st :
  length (financial_results (accumulation_year payload st))
  = (length (financial_results st) + 12)%nat.
Proof.
  unfold accumulation_year.
  destruct (get_allocation_ratios _ _) as [[gr cr] hr].
  rewrite accumulation_year_end_results.
  rewrite months_results_length
    by (intros; apply accumulation_month_results_length).
  rewrite process_events_results, range_length. reflexivity.
Qed.

Lemma retirement_year_results_length payload st :
  length (financial_results (retirement_year payload st))
  = (length (financial_results st) + 12)%nat.
Proof.
  unfold retirement_year. rewrite retirement_year_end_results.
  rewrite months_results_length
    by (intros; apply retirement_month_results_length).
  rewrite range_length. reflexivity.
Qed.

Lemma years_results_length (year : State -> State) :
  (forall st, length (financial_results (year st))
              = (length (financial_results st) + 12)%nat) ->
  forall n st,
    length (financial_results (Nat.iter n year st))
    = (length (financial_results st) + 12 * n)%nat.
Proof.
  intros Hyear n st. induction n as [|n IH].
  - cbn [Nat.iter nat_rect]. lia.
  - rewrite Nat.iter_succ, Hyear, IH. lia.
Qed.

Lemma run_simulation_results payload :
  res_financial_results (run_simulation payload)
  = financial_results (retirement_phase payload).
Proof. reflexivity. Qed.

Lemma run_simulation_results_length payload :
  length (res_financial_results (run_simulation payload))
  = (12 * (Z.to_nat (years_of payload)
           + Z.to_nat (years_in_retirement_of payload)))%nat.
Proof.
  rewrite run_simulation_results. unfold retirement_phase, accumulation_phase.
  rewrite years_results_length by apply retirement_year_results_length.
  rewrite retire_results.
  rewrite years_results_length by apply accumulation_year_results_length.
  change (length (financial_results (initial_state payload))) with 0%nat.
  lia.
Qed.

(** C8, as stated, fails: with retirement at 27 and life expectancy 26
    for a person of 25 the engine emits 24 snapshots, not at most 12; and
    with retirement at 28 for a person of 30 living to 31 it emits 36. *)
Lemma snapshot_bound_counterexample :
  let late := simple_payload 25 27 26 0 0 in
  let early := simple_payload 30 28 31 0 0 in
  ~ (Z.of_nat (length (res_financial_results (run_simulation late)))
     <= (life_expectancy_of late - age_of late) * 12)%Z
  /\ ~ (Z.of_nat (length (res_financial_results (run_simulation early)))
        <= (life_expectancy_of early - age_of early) * 12)%Z.
Proof.
  cbv zeta. rewrite !run_simulation_results_length.
  split; vm_compute; intros H; apply H; reflexivity.
Qed.

(** C8, amended. The snapshot list has exactly
    12 * (max(0, retirement_age - age) + max(0, life_expectancy - retirement_age))
    entries; when age <= retirement_age <= life_expectancy this is
    (life_expectancy - age) * 12. *)
Theorem run_simulation_snapshot_count payload :
  Z.of_nat (length (res_financial_results (run_simulation payload)))
  = (12 * (Z.max 0 (retirement_age_of payload - age_of payload)
           + Z.max 0 (life_expectancy_of payload - retirement_age_of payload)))%Z
  /\ ((age_of payload <= retirement_age_of payload <= life_expectancy_of payload)%Z ->
      (Z.of_nat (length (res_financial_results (run_simulation payload)))
       <= (life_expectancy_of payload - age_of payload) * 12)%Z).
Proof.
  rewrite run_simulation_results_length.
  unfold years_of, years_in_retirement_of. split; [lia|]. intros H. lia.
Qed.

Lemma run_simulation_snapshot_count_witness :
  let payload := simple_payload 25 26 27 20000 30000 in
  (Z.of_nat (length (res_financial_results (run_simulation payload))) <= 24)%Z.
Proof.
  cbv zeta.
  apply (proj2 (run_simulation_snapshot_count (simple_payload 25 26 27 20000 30000))).
  vm_compute. split; discriminate.
Defined.

(** ** The engine reads its payload only through a few values *)

Lemma fold_left_ext {A B} (f g : A -> B -> A) :
  (forall a b, f a b = g a b) ->
  forall l a, fold_left f l a = fold_left g l a.
Proof.
  intros H l. induction l as [|b l IH]; intros a; cbn [fold_left].
  - reflexivity.
  - now rewrite H, IH.
Qed.

Lemma fold_left_cons {A B} (f : A -> B -> A) b l a :
  fold_left f (b :: l) a = fold_left f l (f a b).
Proof. reflexivity. Qed.

Lemma iter_ext {A} (f g : A -> A) :
  (forall a, f a = g a) -> forall n a, Nat.iter n f a = Nat.iter n g a.
Proof.
  intros H n a. induction n as [|n IH].
  - reflexivity.
  - now rewrite !Nat.iter_succ, IH, H.
Qed.

Section SameInputs.
Variables p1 p2 : Payload.
Hypothesis same : same_parameters p1 p2.

Lemma accumulation_month_same gr cr hr st m :
  accumulation_month p1 gr cr hr st m = accumulation_month p2 gr cr hr st m.
Proof.
  unfold accumulation_month.
  now rewrite (same_growth_ret _ _ same), (same_cons_ret _ _ same),
    (same_cash_return _ _ same).
Qed.

Lemma accumulation_year_same st :
  accumulation_year p1 st = accumulation_year p2 st.
Proof.
  unfold accumulation_year, process_events, accumulation_year_end.
  rewrite (same_life_planning _ _ same), (same_salary _ _ same),
    (same_inflation _ _ same).
  set (st1 := match life_planning p2 !! cur_age st with
              | Some evs => fold_left apply_event evs st
              | None => st
              end).
  rewrite (same_ratios _ _ same).
  destruct (get_allocation_ratios _ _) as [[gr cr] hr].
  rewrite (fold_left_ext _ _ (accumulation_month_same gr cr hr)).
  reflexivity.
Qed.

Lemma retirement_month_same st m :
  retirement_month p1 st m = retirement_month p2 st m.
Proof.
  unfold retirement_month.
  now rewrite (same_growth_ret _ _ same), (same_cons_ret _ _ same),
    (same_cash_return _ _ same).
Qed.

Lemma retirement_year_same st :
  retirement_year p1 st = retirement_year p2 st.
Proof.
  unfold retirement_year, retirement_year_end.
  rewrite (same_inflation _ _ same).
  rewrite (fold_left_ext _ _ retirement_month_same).
  reflexivity.
Qed.

Lemma run_from_same st : run_from p1 st = run_from p2 st.
Proof.
  unfold run_from.
  rewrite (same_years _ _ same), (same_years_in_retirement _ _ same).
  rewrite (iter_ext _ _ accumulation_year_same).
  rewrite (iter_ext _ _ retirement_year_same).
  reflexivity.
Qed.
End SameInputs.

Lemma retirement_phase_run_from payload :
  retirement_phase payload = run_from payload (initial_state payload).
Proof. reflexivity. Qed.

Lemma run_simulation_same p1 p2 :
  same_inputs p1 p2 -> run_simulation p1 = run_simulation p2.
Proof.
  intros [same init]. unfold run_simulation.
  now rewrite !retirement_phase_run_from, init, (run_from_same _ _ same).
Qed.

(** ** Zero-valued keys *)

Lemma set_age_zero_same payload :
  same_inputs (set_age (Some 0%Z) payload) (set_age None payload).
Proof. split; [constructor|]; reflexivity. Qed.

Lemma set_retirement_age_zero_same payload :
  same_inputs (set_retirement_age (Some 0%Z) payload)
    (set_retirement_age None payload).
Proof. split; [constructor|]; reflexivity. Qed.

Lemma set_life_expectancy_zero_same payload :
  same_inputs (set_life_expectancy (Some 0%Z) payload)
    (set_life_expectancy None payload).
Proof. split; [constructor|]; reflexivity. Qed.

Lemma set_inflation_rate_zero_same payload z :
  z == 0 ->
  same_inputs (set_inflation_rate (Some z) payload)
    (set_inflation_rate None payload).
Proof.
  intros Hz. split; [constructor; try reflexivity|].
  - unfold inflation_of, set_inflation_rate.
    cbn [investment_config ic_inflation_rate].
    apply (py_or_Q_zero z _ Hz).
  - unfold initial_state, inflation_of, set_inflation_rate.
    cbn [investment_config ic_inflation_rate].
    rewrite (py_or_Q_zero z _ Hz). reflexivity.
Qed.

Lemma set_conservative_return_rate_zero_same payload z :
  z == 0 ->
  same_inputs (set_conservative_return_rate (Some z) payload)
    (set_conservative_return_rate None payload).
Proof.
  intros Hz. split; [constructor|]; try reflexivity.
  unfold cons_ret_of, set_conservative_return_rate.
  cbn [investment_config ic_conservative_return_rate].
  apply (py_or_Q_zero z _ Hz).
Qed.

Lemma set_growth_return_rate_zero_same payload z :
  z == 0 ->
  same_inputs (set_growth_return_rate (Some z) payload)
    (set_growth_return_rate None payload).
Proof.
  intros Hz. split; [constructor|]; try reflexivity.
  unfold growth_ret_of, set_growth_return_rate.
  cbn [investment_config ic_growth_return_rate].
  apply (py_or_Q_zero z _ Hz).
Qed.

(** With [cash_return] present and zero, a month of accumulation adds
    that month's share of the cash flow to an otherwise unchanged cash
    balance. *)
Lemma zero_cash_return_month payload z gr cr hr st m :
  z == 0 ->
  cash_amt (accumulation_month (set_cash_return (Some z) payload) gr cr hr st m)
  == cash_amt st
     + ((monthly_income st - monthly_house_payment st) - monthly_expense st) * hr.
Proof.
  intros Hz. unfold accumulation_month, cash_return_of, set_cash_return.
  cbn [cash_amt investment_config ic_cash_return default from_option id].
  rewrite Hz. field.
Qed.

(** A year of saving 1000 a month into cash: the second snapshot tells
    a zero cash return from a missing one. *)
Lemma zero_cash_return_differs :
  run_simulation (set_cash_return (Some 0) (simple_payload 25 26 26 1000 0))
  <> run_simulation (set_cash_return None (simple_payload 25 26 26 1000 0)).
Proof.
  intros H.
  apply (f_equal (fun r => ms_cash_investment <$> res_financial_results r !! 1%nat)) in H.
  vm_compute in H. discriminate H.
Qed.

(** C10. A key that is present but zero is read like a missing one for
    [age] (25), [retirement_age] (65), [life_expectancy] (85),
    [inflation_rate] (0.03), [conservative_return_rate] (0.03) and
    [growth_return_rate] (0.07): the two payloads give the same output,
    and the value used is the default, not zero.  A zero [cash_return] is
    kept: the monthly cash rate is zero and cash is not compounded, which
    differs from the output without the key. *)
Theorem zero_valued_keys_are_defaulted (payload : Payload) :
  (run_simulation (set_age (Some 0%Z) payload)
   = run_simulation (set_age None payload)
   /\ age_of (set_age (Some 0%Z) payload) = 25%Z)
  /\ (run_simulation (set_retirement_age (Some 0%Z) payload)
      = run_simulation (set_retirement_age None payload)
      /\ retirement_age_of (set_retirement_age (Some 0%Z) payload) = 65%Z)
  /\ (run_simulation (set_life_expectancy (Some 0%Z) payload)
      = run_simulation (set_life_expectancy None payload)
      /\ life_expectancy_of (set_life_expectancy (Some 0%Z) payload) = 85%Z)
  /\ (forall z, z == 0 ->
        run_simulation (set_inflation_rate (Some z) payload)
        = run_simulation (set_inflation_rate None payload)
        /\ inflation_of (set_inflation_rate (Some z) payload) = 0.03)
  /\ (forall z, z == 0 ->
        run_simulation (set_conservative_return_rate (Some z) payload)
        = run_simulation (set_conservative_return_rate None payload)
        /\ cons_ret_of (set_conservative_return_rate (Some z) payload) = 0.03)
  /\ (forall z, z == 0 ->
        run_simulation (set_growth_return_rate (Some z) payload)
        = run_simulation (set_growth_return_rate None payload)
        /\ growth_ret_of (set_growth_return_rate (Some z) payload) = 0.07)
  /\ (forall z, z == 0 ->
        cash_return_of (set_cash_return (Some z) payload) / 12 == 0
        /\ forall gr cr hr st m,
             cash_amt (accumulation_month (set_cash_return (Some z) payload)
                         gr cr hr st m)
             == cash_amt st
                + ((monthly_income st - monthly_house_payment st)
                   - monthly_expense st) * hr)
  /\ cash_return_of (set_cash_return None payload) = 0.02
  /\ run_simulation (set_cash_return (Some 0) (simple_payload 25 26 26 1000 0))
     <> run_simulation (set_cash_return None (simple_payload 25 26 26 1000 0)).
Proof.
  repeat apply conj.
  - apply run_simulation_same, set_age_zero_same.
  - reflexivity.
  - apply run_simulation_same, set_retirement_age_zero_same.
  - reflexivity.
  - apply run_simulation_same, set_life_expectancy_zero_same.
  - reflexivity.
  - intros z Hz. split.
    + now apply run_simulation_same, set_inflation_rate_zero_same.
    + apply (py_or_Q_zero z _ Hz).
  - intros z Hz. split.
    + now apply run_simulation_same, set_conservative_return_rate_zero_same.
    + apply (py_or_Q_zero z _ Hz).
  - intros z Hz. split.
    + now apply run_simulation_same, set_growth_return_rate_zero_same.
    + apply (py_or_Q_zero z _ Hz).
  - intros z Hz. split.
    + unfold cash_return_of, set_cash_return.
      cbn [investment_config ic_cash_return default from_option id].
      rewrite Hz. reflexivity.
    + intros. now apply zero_cash_return_month.
  - reflexivity.
  - exact zero_cash_return_differs.
Qed.

Lemma zero_valued_keys_are_defaulted_witness :
  let payload := simple_payload 25 26 27 20000 30000 in
  run_simulation (set_inflation_rate (Some 0) payload)
  = run_simulation (set_inflation_rate None payload)
  /\ inflation_of (set_inflation_rate (Some 0) payload) = 0.03.
Proof.
  cbv zeta.
  destruct (zero_valued_keys_are_defaulted (simple_payload 25 26 27 20000 30000))
    as (_ & _ & _ & H & _).
  exact (H 0 (Qeq_refl 0)).
Defined.

(** ** The local variable [savings] is written before it is read *)

Lemma apply_event_with_savings s st event :
  apply_event (with_savings s st) event = with_savings s (apply_event st event).
Proof. unfold apply_event. destruct (ev_type event); reflexivity. Qed.

Lemma process_events_with_savings payload s st :
  process_events payload (with_savings s st)
  = with_savings s (process_events payload st).
Proof.
  unfold process_events. change (cur_age (with_savings s st)) with (cur_age st).
  destruct (life_planning payload !! cur_age st) as [evs|]; [|reflexivity].
  revert st. induction evs as [|ev evs IH]; intros st; cbn [fold_left].
  - reflexivity.
  - now rewrite apply_event_with_savings, IH.
Qed.

Lemma accumulation_months_with_savings payload gr cr hr s ms st :
  fold_left (accumulation_month payload gr cr hr) ms (with_savings s st)
  = with_savings s (fold_left (accumulation_month payload gr cr hr) ms st).
Proof.
  revert st. induction ms as [|m ms IH]; intros st; cbn [fold_left].
  - reflexivity.
  - rewrite <- IH. reflexivity.
Qed.

Lemma accumulation_year_end_with_savings payload s st :
  accumulation_year_end payload (with_savings s st)
  = with_savings s (accumulation_year_end payload st).
Proof. reflexivity. Qed.

Lemma accumulation_year_with_savings payload s st :
  accumulation_year payload (with_savings s st)
  = with_savings s (accumulation_year payload st).
Proof.
  unfold accumulation_year. rewrite process_events_with_savings.
  change (cur_age (with_savings s (process_events payload st)))
    with (cur_age (process_events payload st)).
  destruct (get_allocation_ratios _ _) as [[gr cr] hr].
  rewrite accumulation_months_with_savings.
  apply accumulation_year_end_with_savings.
Qed.

Lemma accumulation_years_with_savings payload s n st :
  Nat.iter n (accumulation_year payload) (with_savings s st)
  = with_savings s (Nat.iter n (accumulation_year payload) st).
Proof.
  induction n as [|n IH]; [reflexivity|].
  now rewrite !Nat.iter_succ, IH, accumulation_year_with_savings.
Qed.

(** A retirement month assigns [savings] before recording it. *)
Lemma retirement_month_with_savings payload s st m :
  retirement_month payload (with_savings s st) m = retirement_month payload st m.
Proof. reflexivity. Qed.

Lemma range_succ n : range (S n) = 0%Z :: map Z.of_nat (seq 1 n).
Proof. reflexivity. Qed.

Lemma retirement_year_with_savings payload s st :
  retirement_year payload (with_savings s st) = retirement_year payload st.
Proof.
  unfold retirement_year. rewrite range_succ, !fold_left_cons.
  rewrite retirement_month_with_savings. reflexivity.
Qed.

Lemma run_from_with_savings payload s st :
  with_savings 0 (run_from payload (with_savings s st))
  = with_savings 0 (run_from payload st).
Proof.
  unfold run_from. rewrite accumulation_years_with_savings.
  change (retire (with_savings s ?x)) with (with_savings s (retire x)).
  destruct (Z.to_nat (years_in_retirement_of payload)) as [|k].
  - reflexivity.
  - now rewrite !Nat.iter_succ_r, retirement_year_with_savings.
Qed.

Lemma set_savings_parameters v payload :
  same_parameters (set_savings v payload) payload.
Proof. constructor; reflexivity. Qed.

Lemma run_simulation_set_savings v payload :
  run_simulation (set_savings v payload)
  = run_simulation (set_savings None payload).
Proof.
  assert (Hres : forall st st',
             with_savings 0 st = with_savings 0 st' ->
             {| simulation_results := yearly_map st;
                res_financial_results := financial_results st;
                res_event_log := event_log st ++ [LogDone] |}
             = {| simulation_results := yearly_map st';
                  res_financial_results := financial_results st';
                  res_event_log := event_log st' ++ [LogDone] |}).
  { intros st st' H.
    change (yearly_map st) with (yearly_map (with_savings 0 st)).
    change (financial_results st) with (financial_results (with_savings 0 st)).
    change (event_log st) with (event_log (with_savings 0 st)).
    now rewrite H. }
  unfold run_simulation. apply Hres.
  rewrite !retirement_phase_run_from.
  rewrite (run_from_same _ _ (set_savings_parameters v payload)).
  rewrite (run_from_same _ _ (set_savings_parameters None payload)).
  change (initial_state (set_savings v payload))
    with (with_savings (py_or_Q v 0) (initial_state (set_savings None payload))).
  apply run_from_with_savings.
Qed.

(** C9. Two payloads that differ only in the [savings] key of
    [player_status] give the same [simulation_results],
    [financial_results] and [event_log]; the three balances start at 0
    whatever the savings. *)
Theorem savings_is_ignored (payload : Payload) (savings1 savings2 : option Q) :
  run_simulation (set_savings savings1 payload)
  = run_simulation (set_savings savings2 payload)
  /\ stock_amt (initial_state (set_savings savings1 payload)) = 0
  /\ bond_amt (initial_state (set_savings savings1 payload)) = 0
  /\ cash_amt (initial_state (set_savings savings1 payload)) = 0.
Proof.
  split; [|repeat split].
  now rewrite (run_simulation_set_savings savings1),
    (run_simulation_set_savings savings2).
Qed.

(** ** FIRE achievement evaluator *)

Lemma find_sorted_smallest (P : Z -> bool) (l : list Z) :
  StronglySorted Z.le l ->
  forall a, find P l = Some a
            <-> In a l /\ P a = true
                /\ forall a', In a' l -> P a' = true -> (a <= a')%Z.
Proof.
  induction 1 as [|x l Hs IH Hall]; intros a; cbn [find].
  - split; [discriminate | intros [[] _]].
  - rewrite Forall_forall in Hall. destruct (P x) eqn:Px.
    + split.
      * intros [= <-]. split; [now left|]. split; [exact Px|].
        intros a' [<-|Hin] _; [lia | now apply Hall].
      * intros (Hin & Pa & Hmin). f_equal.
        destruct Hin as [E|Hin]; [exact E|].
        apply Hall in Hin.
        specialize (Hmin x (or_introl eq_refl) Px). lia.
    + rewrite IH. split.
      * intros (Hin & Pa & Hmin). split; [now right|]. split; [exact Pa|].
        intros a' [<-|Hin'] Pa'; [congruence | now apply Hmin].
      * intros (Hin & Pa & Hmin). split; [|split; [exact Pa|]].
        -- destruct Hin as [<-|Hin]; [congruence | exact Hin].
        -- intros a' Hin'. apply Hmin. now right.
Qed.

Lemma find_none_iff {A} (P : A -> bool) (l : list A) :
  find P l = None <-> forall a, In a l -> P a = false.
Proof.
  split; [apply find_none|].
  induction l as [|x l IH]; intros H; cbn [find]; [reflexivity|].
  rewrite (H x (or_introl eq_refl)). apply IH. intros a Ha. apply H. now right.
Qed.

Lemma sorted_ages_sorted sr : StronglySorted Z.le (sorted_ages sr).
Proof. apply StronglySorted_merge_sort; apply _. Qed.

Lemma sorted_ages_In sr a : In a (sorted_ages sr) <-> a ∈ dom sr.
Proof.
  unfold sorted_ages.
  rewrite <- list_elem_of_In, merge_sort_Permutation. apply elem_of_elements.
Qed.

Lemma calculate_growing_annuity_present_value_defined E0 n r g :
  ~ 1 + r == 0 -> is_Some (calculate_growing_annuity_present_value E0 n r g).
Proof.
  intros Hr. unfold calculate_growing_annuity_present_value.
  destruct (Z.leb_spec n 0) as [Hn|Hn]; cbn [orb]; [eauto|].
  destruct (Qleb E0 0); [eauto|].
  destruct (Qltb (Qabs (r - g)) 1e-6) eqn:Ha.
  - rewrite py_div_defined by exact Hr. eauto.
  - apply Qltb_false in Ha.
    rewrite (py_div_defined _ _ Hr). cbn [mbind option_bind].
    rewrite py_pow_defined by (right; lia). cbn [mbind option_bind].
    rewrite py_div_defined; [eauto|].
    apply (Qabs_small_nonzero _ 1e-6); [reflexivity | now apply Qle_not_lt].
Qed.

Section Evaluator.
Variable sr : gmap Z YearEnd.
Variable fp : FireParams.
Hypothesis inflation_ok : ~ 1 + fp_inflation fp == 0.
Hypothesis conservative_ok : ~ 1 + fp_conservative fp == 0.

Lemma check_age_ages result age :
  exists result',
    check_age sr fp result age = Some result'
    /\ fire_age_growing result'
       = first_or (fire_age_growing result) (reaches_growing sr fp age) age
    /\ fire_age_traditional result'
       = first_or (fire_age_traditional result) (reaches_traditional sr fp age) age.
Proof.
  unfold check_age, reaches_growing, reaches_traditional.
  fold (net_worth_at sr age).
  destruct (Z.leb_spec (fp_life_expectancy fp - age) 0) as [Hle|Hgt].
  - exists result. destruct (Z.ltb_spec 0 (fp_life_expectancy fp - age)); [lia|].
    cbn [andb]. unfold first_or.
    now destruct (fire_age_growing result), (fire_age_traditional result).
  - destruct (Z.ltb_spec 0 (fp_life_expectancy fp - age)); [|lia]. cbn [andb].
    rewrite py_pow_defined by now left. cbn [mbind option_bind].
    fold (future_expense fp age).
    destruct (calculate_growing_annuity_present_value_defined
                (future_expense fp age) (fp_life_expectancy fp - age)
                (fp_conservative fp) (fp_inflation fp) conservative_ok)
      as [target ->].
    cbn [mbind option_bind]. eexists. split; [reflexivity|].
    unfold first_or. destruct result as [fg ft tg tt rs ach].
    cbn [fire_age_growing fire_age_traditional].
    destruct fg, ft, (Qleb target (net_worth_at sr age)),
      (Qleb (future_expense fp age * 25) (net_worth_at sr age));
      split; reflexivity.
Qed.

Lemma first_or_find (P : Z -> bool) found age rest :
  match first_or found (P age) age with
  | Some a => Some a
  | None => find P rest
  end
  = match found with Some a => Some a | None => find P (age :: rest) end.
Proof. unfold first_or. cbn [find]. destruct found, (P age); reflexivity. Qed.

Lemma scan_ages_ages ages : forall result,
  exists result',
    scan_ages sr fp ages result = Some result'
    /\ fire_age_growing result'
       = match fire_age_growing result with
         | Some a => Some a
         | None => find (reaches_growing sr fp) ages
         end
    /\ fire_age_traditional result'
       = match fire_age_traditional result with
         | Some a => Some a
         | None => find (reaches_traditional sr fp) ages
         end.
Proof.
  induction ages as [|age rest IH]; intros result; cbn [scan_ages].
  - exists result. split; [reflexivity|].
    now destruct (fire_age_growing result), (fire_age_traditional result).
  - destruct (check_age_ages result age) as (r1 & -> & Hg & Ht).
    cbn [mbind option_bind].
    destruct (IH r1) as (r2 & -> & Hg2 & Ht2). exists r2.
    split; [reflexivity|]. rewrite Hg2, Ht2, Hg, Ht.
    split; apply first_or_find.
Qed.
End Evaluator.

Lemma headline_targets_defined sr fp :
  ~ 1 + fp_conservative fp == 0 -> is_Some (headline_targets sr fp).
Proof.
  intros Hr. unfold headline_targets.
  destruct (sr !! fp_retirement_age fp) as [data|].
  - destruct (calculate_growing_annuity_present_value_defined
                (ye_monthly_expense data * 12)
                (Z.max 0 (fp_life_expectancy fp - fp_retirement_age fp))
                (fp_conservative fp) (fp_inflation fp) Hr) as [v ->].
    cbn [mbind option_bind]. eauto.
  - unfold calculate_retirement_target_growing_annuity,
      calculate_retirement_target_traditional_25x.
    rewrite !py_pow_defined by (right; lia). cbn [mbind option_bind].
    match goal with
    | |- context [calculate_growing_annuity_present_value ?E ?n ?r ?g] =>
        destruct (calculate_growing_annuity_present_value_defined E n r g Hr)
          as [v ->]
    end.
    cbn [mbind option_bind]. eauto.
Qed.

Lemma reaches_growing_true sr fp a :
  reaches_growing sr fp a = true
  <-> (0 < fp_life_expectancy fp - a)%Z
      /\ exists target,
           calculate_growing_annuity_present_value
             (future_expense fp a) (fp_life_expectancy fp - a)
             (fp_conservative fp) (fp_inflation fp) = Some target
           /\ target <= net_worth_at sr a.
Proof.
  unfold reaches_growing. rewrite andb_true_iff, Z.ltb_lt.
  destruct (calculate_growing_annuity_present_value _ _ _ _) as [t|].
  - rewrite Qleb_true. split.
    + intros [H1 H2]. eauto.
    + intros (H1 & t' & [= <-] & H2). auto.
  - split; [intros [_ [=]] | intros (_ & t & [=] & _)].
Qed.

Lemma reaches_traditional_true sr fp a :
  reaches_traditional sr fp a = true
  <-> (0 < fp_life_expectancy fp - a)%Z
      /\ future_expense fp a * 25 <= net_worth_at sr a.
Proof.
  unfold reaches_traditional. now rewrite andb_true_iff, Z.ltb_lt, Qleb_true.
Qed.

Lemma find_sorted_ages sr (P : Z -> bool) :
  (forall a, find P (sorted_ages sr) = Some a <-> smallest_age sr P a)
  /\ (find P (sorted_ages sr) = None <-> forall a, a ∈ dom sr -> P a = false).
Proof.
  split.
  - intros a. rewrite (find_sorted_smallest P _ (sorted_ages_sorted sr)).
    unfold smallest_age. rewrite sorted_ages_In.
    split; intros (H1 & H2 & H3); (split; [exact H1|split; [exact H2|]]);
      intros a' Ha'; apply H3; now apply sorted_ages_In.
  - rewrite find_none_iff. split; intros H a Ha; apply H; now apply sorted_ages_In.
Qed.

(** C5. The scan visits the snapshot ages in ascending order, passes over
    the ages with no remaining years, projects the annual expense of an age
    by compounding inflation from the current age, and reports for each of
    the two formulas, independently, the smallest simulated age whose net
    worth reaches that formula's target for the age, or null when no
    simulated age does.  (The two rates are not -1, where the source
    raises.) *)
Theorem check_fire_achievement_first_ages
    (sr : gmap Z YearEnd) (ps : PlayerStatus) (ic : InvestmentConfig) :
  let fp := fire_params ps ic in
  ~ 1 + fp_inflation fp == 0 ->
  ~ 1 + fp_conservative fp == 0 ->
  exists result,
    check_fire_achievement sr ps ic = Some result
    /\ (forall a, fire_age_growing result = Some a
                  <-> smallest_age sr (reaches_growing sr fp) a)
    /\ (fire_age_growing result = None
        <-> forall a, a ∈ dom sr -> reaches_growing sr fp a = false)
    /\ (forall a, fire_age_traditional result = Some a
                  <-> smallest_age sr (reaches_traditional sr fp) a)
    /\ (fire_age_traditional result = None
        <-> forall a, a ∈ dom sr -> reaches_traditional sr fp a = false)
    /\ (forall a, reaches_growing sr fp a = true
                  <-> (0 < fp_life_expectancy fp - a)%Z
                      /\ exists target,
                           calculate_growing_annuity_present_value
                             (fp_current_monthly_expense fp * 12
                              * (1 + fp_inflation fp) ^ (a - fp_current_age fp))
                             (fp_life_expectancy fp - a)
                             (fp_conservative fp) (fp_inflation fp)
                           = Some target
                           /\ target <= net_worth_at sr a)
    /\ (forall a, reaches_traditional sr fp a = true
                  <-> (0 < fp_life_expectancy fp - a)%Z
                      /\ fp_current_monthly_expense fp * 12
                         * (1 + fp_inflation fp) ^ (a - fp_current_age fp) * 25
                         <= net_worth_at sr a).
Proof.
  intros fp Hinf Hcons. unfold check_fire_achievement. fold fp.
  destruct (headline_targets_defined sr fp Hcons) as [[tg tt] ->].
  cbn [mbind option_bind].
  match goal with
  | |- context [scan_ages sr fp (sorted_ages sr) ?r0] =>
      destruct (scan_ages_ages sr fp Hinf Hcons (sorted_ages sr) r0)
        as (r & -> & Hg & Ht)
  end.
  cbn [mbind option_bind fire_age_growing fire_age_traditional] in *.
  eexists. split; [reflexivity|].
  cbn [fire_age_growing fire_age_traditional]. rewrite Hg, Ht.
  destruct (find_sorted_ages sr (reaches_growing sr fp)) as [Hg1 Hg2].
  destruct (find_sorted_ages sr (reaches_traditional sr fp)) as [Ht1 Ht2].
  split; [exact Hg1|]. split; [exact Hg2|].
  split; [exact Ht1|]. split; [exact Ht2|].
  split; intros a; [apply reaches_growing_true | apply reaches_traditional_true].
Qed.

Lemma check_fire_achievement_first_ages_witness :
  exists result,
    check_fire_achievement sample_results sample_player empty_investment_config
    = Some result
    /\ (forall a, fire_age_growing result = Some a
                  <-> smallest_age sample_results
                        (reaches_growing sample_results
                           (fire_params sample_player empty_investment_config)) a).
Proof.
  destruct (check_fire_achievement_first_ages
              sample_results sample_player empty_investment_config)
    as (result & Hres & Hgrow & _).
  - discriminate.
  - discriminate.
  - exists result. split; [exact Hres | exact Hgrow].
Defined.

(** On the sample the 25x target is met at 31 and the growing-annuity
    target is not met at all: the two ages are found independently. *)
Example check_fire_achievement_sample :
  (fun result => (fire_age_growing result, fire_age_traditional result))
    <$> check_fire_achievement sample_results sample_player empty_investment_config
  = Some (None, Some 31%Z).
Proof. vm_compute. reflexivity. Qed.

(** ** Where a month's snapshot ends up in the output *)

Lemma range_snoc n : range (S n) = range n ++ [Z.of_nat n].
Proof. unfold range. now rewrite seq_S, map_app. Qed.

Lemma range_split m n :
  (m <= n)%nat -> exists rest, range n = range m ++ rest.
Proof.
  intros H. exists (map Z.of_nat (seq m (n - m))). unfold range.
  rewrite <- map_app, <- seq_app. do 2 f_equal. lia.
Qed.

Lemma accumulation_year_unfold payload st :
  accumulation_year payload st
  = accumulation_year_end payload
      (accumulation_months payload (process_events payload st) 12).
Proof.
  unfold accumulation_year, accumulation_months.
  now destruct (get_allocation_ratios _ _) as [[gr cr] hr].
Qed.

Lemma accumulation_months_succ payload st m gr cr hr :
  get_allocation_ratios (cur_age st) (investment_config payload) = (gr, cr, hr) ->
  accumulation_months payload st (S m)
  = accumulation_month payload gr cr hr
      (accumulation_months payload st m) (Z.of_nat m).
Proof.
  intros E. unfold accumulation_months. rewrite E.
  now rewrite range_snoc, fold_left_app.
Qed.

Lemma months_prefix (step : State -> Z -> State) :
  (forall st m, financial_results st `prefix_of` financial_results (step st m)) ->
  forall ms st,
    financial_results st `prefix_of` financial_results (fold_left step ms st).
Proof.
  intros Hstep ms. induction ms as [|m ms IH]; intros st; cbn [fold_left].
  - reflexivity.
  - etrans; [apply Hstep | apply IH].
Qed.

Lemma years_prefix (year : State -> State) :
  (forall st, financial_results st `prefix_of` financial_results (year st)) ->
  forall j n st,
    (j <= n)%nat ->
    financial_results (Nat.iter j year st)
      `prefix_of` financial_results (Nat.iter n year st).
Proof.
  intros Hyear j n st Hjn. induction Hjn as [|n Hjn IH].
  - reflexivity.
  - rewrite Nat.iter_succ. etrans; [apply IH | apply Hyear].
Qed.

Lemma accumulation_month_prefix payload gr cr hr st m :
  financial_results st
    `prefix_of` financial_results (accumulation_month payload gr cr hr st m).
Proof. eexists. reflexivity. Qed.

Lemma retirement_month_prefix payload st m :
  financial_results st `prefix_of` financial_results (retirement_month payload st m).
Proof.
  unfold retirement_month. destruct (withdraw _ _ _ _) as [[s b] c].
  eexists. reflexivity.
Qed.

Lemma accumulation_months_prefix payload st m n :
  (m <= n)%nat ->
  financial_results (accumulation_months payload st m)
    `prefix_of` financial_results (accumulation_months payload st n).
Proof.
  intros H. unfold accumulation_months.
  destruct (get_allocation_ratios _ _) as [[gr cr] hr].
  destruct (range_split m n H) as [rest ->]. rewrite fold_left_app.
  apply months_prefix. intros. apply accumulation_month_prefix.
Qed.

Lemma accumulation_months_year_prefix payload st m :
  (m <= 12)%nat ->
  financial_results (accumulation_months payload (process_events payload st) m)
    `prefix_of` financial_results (accumulation_year payload st).
Proof.
  intros H. rewrite accumulation_year_unfold, accumulation_year_end_results.
  now apply accumulation_months_prefix.
Qed.

Lemma accumulation_year_prefix payload st :
  financial_results st `prefix_of` financial_results (accumulation_year payload st).
Proof.
  etrans; [|apply (accumulation_months_year_prefix payload st 0); lia].
  unfold accumulation_months. destruct (get_allocation_ratios _ _) as [[gr cr] hr].
  cbn [range seq map fold_left]. now rewrite process_events_results.
Qed.

Lemma retirement_months_prefix payload st m n :
  (m <= n)%nat ->
  financial_results (fold_left (retirement_month payload) (range m) st)
    `prefix_of`
    financial_results (fold_left (retirement_month payload) (range n) st).
Proof.
  intros H. destruct (range_split m n H) as [rest ->]. rewrite fold_left_app.
  apply months_prefix. intros. apply retirement_month_prefix.
Qed.

Lemma retirement_year_prefix payload st :
  financial_results st `prefix_of` financial_results (retirement_year payload st).
Proof.
  unfold retirement_year. rewrite retirement_year_end_results.
  apply months_prefix. intros. apply retirement_month_prefix.
Qed.

Lemma retirement_phase_prefix payload :
  financial_results (accumulation_phase payload)
    `prefix_of` res_financial_results (run_simulation payload).
Proof.
  rewrite run_simulation_results. unfold retirement_phase.
  rewrite <- (retire_results (accumulation_phase payload)).
  apply (years_prefix _ (retirement_year_prefix payload) 0); lia.
Qed.

Lemma accumulation_entry_prefix payload j m :
  (j < Z.to_nat (years_of payload))%nat -> (m <= 12)%nat ->
  financial_results (accumulation_entry payload j m)
    `prefix_of` res_financial_results (run_simulation payload).
Proof.
  intros Hj Hm. etrans; [|apply retirement_phase_prefix].
  unfold accumulation_entry, accumulation_phase.
  etrans; [apply (accumulation_months_year_prefix _ _ m Hm)|].
  rewrite <- Nat.iter_succ.
  apply (years_prefix _ (accumulation_year_prefix payload)); lia.
Qed.

Lemma retirement_entry_prefix payload j m :
  (j < Z.to_nat (years_in_retirement_of payload))%nat -> (m <= 12)%nat ->
  financial_results (retirement_entry payload j m)
    `prefix_of` res_financial_results (run_simulation payload).
Proof.
  intros Hj Hm. rewrite run_simulation_results.
  unfold retirement_entry, retirement_phase.
  etrans; [apply (retirement_months_prefix _ _ m 12 Hm)|].
  etrans; [|apply (years_prefix _ (retirement_year_prefix payload) (S j)); lia].
  rewrite Nat.iter_succ. unfold retirement_year at 2.
  now rewrite retirement_year_end_results.
Qed.

Lemma accumulation_entry_results_length payload j m :
  length (financial_results (accumulation_entry payload j m)) = (12 * j + m)%nat.
Proof.
  unfold accumulation_entry, accumulation_months.
  destruct (get_allocation_ratios _ _) as [[gr cr] hr].
  rewrite months_results_length
    by (intros; apply accumulation_month_results_length).
  rewrite process_events_results, range_length.
  rewrite years_results_length by apply accumulation_year_results_length.
  change (length (financial_results (initial_state payload))) with 0%nat. lia.
Qed.

Lemma retirement_entry_results_length payload j m :
  length (financial_results (retirement_entry payload j m))
  = (12 * (Z.to_nat (years_of payload) + j) + m)%nat.
Proof.
  unfold retirement_entry.
  rewrite months_results_length
    by (intros; apply retirement_month_results_length).
  rewrite range_length.
  rewrite years_results_length by apply retirement_year_results_length.
  rewrite retire_results. unfold accumulation_phase.
  rewrite years_results_length by apply accumulation_year_results_length.
  change (length (financial_results (initial_state payload))) with 0%nat. lia.
Qed.

(** ** What the loops leave unchanged *)

Lemma months_preserve {A} (field : State -> A) (step : State -> Z -> State) :
  (forall st m, field (step st m) = field st) ->
  forall ms st, field (fold_left step ms st) = field st.
Proof.
  intros Hstep ms. induction ms as [|m ms IH]; intros st; cbn [fold_left].
  - reflexivity.
  - now rewrite IH, Hstep.
Qed.

Lemma accumulation_months_preserve {A} (field : State -> A) payload :
  (forall gr cr hr st m,
      field (accumulation_month payload gr cr hr st m) = field st) ->
  forall st m, field (accumulation_months payload st m) = field st.
Proof.
  intros Hstep st m. unfold accumulation_months.
  destruct (get_allocation_ratios _ _) as [[gr cr] hr].
  apply months_preserve. intros. apply Hstep.
Qed.

Lemma accumulation_months_cur_age payload st m :
  cur_age (accumulation_months payload st m) = cur_age st.
Proof. now apply accumulation_months_preserve. Qed.

Lemma accumulation_months_payment payload st m :
  monthly_house_payment (accumulation_months payload st m)
  = monthly_house_payment st.
Proof. now apply accumulation_months_preserve. Qed.

Lemma apply_event_cur_age st event :
  cur_age (apply_event st event) = cur_age st.
Proof. unfold apply_event. now destruct (ev_type event). Qed.

Lemma process_events_cur_age payload st :
  cur_age (process_events payload st) = cur_age st.
Proof.
  unfold process_events.
  destruct (life_planning payload !! cur_age st) as [evs|]; [|reflexivity].
  revert st. induction evs as [|ev evs IH]; intros st; cbn [fold_left].
  - reflexivity.
  - now rewrite IH, apply_event_cur_age.
Qed.

Lemma accumulation_year_cur_age payload st :
  cur_age (accumulation_year payload st) = (cur_age st + 1)%Z.
Proof.
  rewrite accumulation_year_unfold.
  change (cur_age (accumulation_year_end payload ?x)) with (cur_age x + 1)%Z.
  now rewrite accumulation_months_cur_age, process_events_cur_age.
Qed.

Lemma accumulation_years_cur_age payload j :
  cur_age (Nat.iter j (accumulation_year payload) (initial_state payload))
  = (age_of payload + Z.of_nat j)%Z.
Proof.
  induction j as [|j IH].
  - cbn [Nat.iter nat_rect]. change (cur_age (initial_state payload)) with (age_of payload).
    lia.
  - rewrite Nat.iter_succ, accumulation_year_cur_age, IH. lia.
Qed.

Lemma accumulation_entry_cur_age payload j m :
  cur_age (accumulation_entry payload j m) = (age_of payload + Z.of_nat j)%Z.
Proof.
  unfold accumulation_entry.
  now rewrite accumulation_months_cur_age, process_events_cur_age,
    accumulation_years_cur_age.
Qed.

(** The monthly house payment is never negative. *)
Lemma apply_event_payment_nonneg st event :
  0 <= monthly_house_payment st -> 0 <= monthly_house_payment (apply_event st event).
Proof.
  intros H. unfold apply_event. destruct (ev_type event); [|exact H].
  apply calculate_monthly_payment_nonneg.
Qed.

Lemma process_events_payment_nonneg payload st :
  0 <= monthly_house_payment st ->
  0 <= monthly_house_payment (process_events payload st).
Proof.
  unfold process_events.
  destruct (life_planning payload !! cur_age st) as [evs|]; [|auto].
  revert st. induction evs as [|ev evs IH]; intros st H; cbn [fold_left].
  - exact H.
  - now apply IH, apply_event_payment_nonneg.
Qed.

Lemma accumulation_year_payment_nonneg payload st :
  0 <= monthly_house_payment st ->
  0 <= monthly_house_payment (accumulation_year payload st).
Proof.
  intros H. rewrite accumulation_year_unfold.
  change (monthly_house_payment (accumulation_year_end payload ?x))
    with (monthly_house_payment x).
  rewrite accumulation_months_payment. now apply process_events_payment_nonneg.
Qed.

Lemma accumulation_entry_payment_nonneg payload j m :
  0 <= monthly_house_payment (accumulation_entry payload j m).
Proof.
  unfold accumulation_entry. rewrite accumulation_months_payment.
  apply process_events_payment_nonneg.
  induction j as [|j IH].
  - cbn. lra.
  - rewrite Nat.iter_succ. now apply accumulation_year_payment_nonneg.
Qed.

(** With no negative initial debt or loan principal the debt is never
    negative during accumulation. *)
Lemma apply_event_debt_nonneg st event :
  (ev_type event = BuyHouse -> 0 <= event_principal event) ->
  0 <= current_debt st -> 0 <= current_debt (apply_event st event).
Proof.
  intros Hev H. unfold apply_event.
  destruct (ev_type event); [|exact H]. now apply Hev.
Qed.

Lemma process_events_debt_nonneg payload st :
  valid_debts payload ->
  0 <= current_debt st -> 0 <= current_debt (process_events payload st).
Proof.
  intros [_ Hvalid]. unfold process_events.
  destruct (life_planning payload !! cur_age st) as [evs|] eqn:E; [|auto].
  specialize (Hvalid _ _ E). clear E. revert st.
  induction Hvalid as [|ev evs Hev _ IH]; intros st H; cbn [fold_left].
  - exact H.
  - now apply IH, apply_event_debt_nonneg.
Qed.

Lemma accumulation_month_debt_nonneg payload gr cr hr st m :
  0 <= current_debt st ->
  0 <= current_debt (accumulation_month payload gr cr hr st m).
Proof.
  intros H. cbn [accumulation_month current_debt].
  destruct (Qltb 0 (current_debt st) && Qltb 0 (monthly_house_payment st));
    [apply Qmax0_nonneg | exact H].
Qed.

Lemma accumulation_months_debt_nonneg payload st m :
  0 <= current_debt st -> 0 <= current_debt (accumulation_months payload st m).
Proof.
  intros H. unfold accumulation_months.
  destruct (get_allocation_ratios _ _) as [[gr cr] hr].
  generalize (range m). intros ms. revert st H.
  induction ms as [|x ms IH]; intros st H; cbn [fold_left].
  - exact H.
  - now apply IH, accumulation_month_debt_nonneg.
Qed.

Lemma accumulation_entry_debt_nonneg payload j m :
  valid_debts payload -> 0 <= current_debt (accumulation_entry payload j m).
Proof.
  intros Hvalid. unfold accumulation_entry.
  apply accumulation_months_debt_nonneg, process_events_debt_nonneg;
    [exact Hvalid|].
  induction j as [|j IH].
  - apply Hvalid.
  - rewrite Nat.iter_succ, accumulation_year_unfold.
    change (current_debt (accumulation_year_end payload ?x)) with (current_debt x).
    now apply accumulation_months_debt_nonneg, process_events_debt_nonneg.
Qed.

(** ** Allocation weights *)

Lemma get_allocation_ratios_sum age invest gr cr hr :
  get_allocation_ratios age invest = (gr, cr, hr) -> gr + cr + hr == 1.
Proof.
  unfold get_allocation_ratios.
  set (raw := if (age <=? 40)%Z then _ else _).
  destruct raw as [[g c] h].
  destruct (Qleb (g + c + h) 0) eqn:E; intros [= <- <- <-].
  - reflexivity.
  - apply Qleb_false in E. field. lra.
Qed.

(** The debt statement of an accumulation month, for a debt and a payment
    that are not negative. *)
Lemma debt_after_month debt payment :
  0 <= debt -> 0 <= payment ->
  (if Qltb 0 debt && Qltb 0 payment then Qmax 0 (debt - payment) else debt)
  == Qmax 0 (debt - payment).
Proof.
  intros Hd Hp.
  destruct (Qltb 0 debt) eqn:Ed; cbn [andb].
  - destruct (Qltb 0 payment) eqn:Ep; [reflexivity|].
    apply Qltb_false in Ep. rewrite Qmax0_id; lra.
  - apply Qltb_false in Ed. rewrite Qmax0_nonpos; lra.
Qed.

(** ** The accumulation month *)

Lemma accumulation_entry_succ payload j m gr cr hr :
  get_allocation_ratios (cur_age (accumulation_entry payload j m))
    (investment_config payload) = (gr, cr, hr) ->
  accumulation_entry payload j (S m)
  = accumulation_month payload gr cr hr
      (accumulation_entry payload j m) (Z.of_nat m).
Proof.
  unfold accumulation_entry. rewrite accumulation_months_cur_age.
  apply accumulation_months_succ.
Qed.

Lemma accumulation_month_snapshot payload gr cr hr st m :
  let post := accumulation_month payload gr cr hr st m in
  financial_results post !! length (financial_results st)
  = Some {| ms_age := cur_age st;
            ms_month := m + 1;
            ms_net_worth := stock_amt post + bond_amt post + cash_amt post;
            ms_savings := 0;
            ms_debt := current_debt post;
            ms_monthly_income := monthly_income st;
            ms_monthly_expense := monthly_expense st;
            ms_total_expense := monthly_expense st + monthly_house_payment st;
            ms_stock_investment := stock_amt post;
            ms_bond_investment := bond_amt post;
            ms_cash_investment := cash_amt post;
            ms_real_estate_investment := 0 |}.
Proof. cbv zeta. apply list_lookup_middle. reflexivity. Qed.

(** C1. In month [m] of accumulation year [j], entered in state [pre]
    and left in state [post]: the net cash flow is
    (income - house payment) - expense; each balance becomes
    balance * (1 + annual_rate / 12) + cashflow * weight, with the
    weights of the age normalized to sum 1; the debt, which is not
    negative when the initial debt and the loan principals are not, is
    reduced by the house payment and floored at zero; and the snapshot
    emitted for the month, entry [12 * j + m] of the output, records the
    new balances and their sum as net worth. *)
Theorem accumulation_month_spec (payload : Payload) (j m : nat) (gr cr hr : Q) :
  (j < Z.to_nat (years_of payload))%nat ->
  (m < 12)%nat ->
  let pre := accumulation_entry payload j m in
  let post := accumulation_entry payload j (S m) in
  let cashflow :=
    (monthly_income pre - monthly_house_payment pre) - monthly_expense pre in
  get_allocation_ratios (cur_age pre) (investment_config payload) = (gr, cr, hr) ->
  gr + cr + hr == 1
  /\ stock_amt post
     = stock_amt pre * (1 + growth_ret_of payload / 12) + cashflow * gr
  /\ bond_amt post
     = bond_amt pre * (1 + cons_ret_of payload / 12) + cashflow * cr
  /\ cash_amt post
     = cash_amt pre * (1 + cash_return_of payload / 12) + cashflow * hr
  /\ (valid_debts payload -> 0 <= current_debt pre)
  /\ (0 <= current_debt pre ->
      current_debt post
      == Qmax 0 (current_debt pre - monthly_house_payment pre))
  /\ exists snap,
       res_financial_results (run_simulation payload) !! (12 * j + m)%nat
       = Some snap
       /\ ms_age snap = (age_of payload + Z.of_nat j)%Z
       /\ ms_month snap = (Z.of_nat m + 1)%Z
       /\ ms_stock_investment snap = stock_amt post
       /\ ms_bond_investment snap = bond_amt post
       /\ ms_cash_investment snap = cash_amt post
       /\ ms_debt snap = current_debt post
       /\ ms_net_worth snap = stock_amt post + bond_amt post + cash_amt post.
Proof.
  intros Hj Hm pre post cashflow Hratios.
  assert (Hpost : post = accumulation_month payload gr cr hr pre (Z.of_nat m))
    by now apply accumulation_entry_succ.
  split; [eapply get_allocation_ratios_sum; eassumption|].
  split; [now rewrite Hpost|]. split; [now rewrite Hpost|].
  split; [now rewrite Hpost|].
  split; [apply accumulation_entry_debt_nonneg|]. split.
  - intros Hdebt. rewrite Hpost.
    apply debt_after_month; [exact Hdebt|].
    apply accumulation_entry_payment_nonneg.
  - eexists. split.
    + eapply prefix_lookup_Some;
        [|apply (accumulation_entry_prefix payload j (S m)); [exact Hj | lia]].
      fold post. rewrite Hpost.
      rewrite <- (accumulation_entry_results_length payload j m). fold pre.
      apply accumulation_month_snapshot.
    + cbn [ms_age ms_month ms_stock_investment ms_bond_investment
             ms_cash_investment ms_debt ms_net_worth].
      rewrite <- Hpost. split; [apply accumulation_entry_cur_age|].
      repeat split.
Qed.

Lemma accumulation_month_spec_witness :
  let payload := simple_payload 25 26 27 20000 30000 in
  cash_amt (accumulation_entry payload 0 1)
  = cash_amt (accumulation_entry payload 0 0)
      * (1 + cash_return_of payload / 12)
    + (20000 - 0 - 30000) * 1.
Proof.
  cbv zeta.
  destruct (accumulation_month_spec (simple_payload 25 26 27 20000 30000)
              0 0 0 0 1) as (_ & _ & _ & Hcash & _).
  - vm_compute. lia.
  - lia.
  - reflexivity.
  - exact Hcash.
Defined.

(** ** The retirement month *)

Lemma withdraw_spec stock bond cash outflow :
  (outflow <= cash ->
   withdraw stock bond cash outflow = (stock, bond, cash - outflow))
  /\ (cash < outflow -> outflow <= cash + bond ->
      withdraw stock bond cash outflow = (stock, bond - (outflow - cash), 0))
  /\ (cash < outflow -> cash + bond < outflow ->
      withdraw stock bond cash outflow
      = (Qmax 0 (stock - (outflow - (cash + bond))), 0, 0)).
Proof.
  unfold withdraw. split; [|split].
  - intros H. apply Qleb_true in H. now rewrite H.
  - intros H1 H2. apply Qleb_false in H1. apply Qleb_true in H2.
    now rewrite H1, H2.
  - intros H1 H2. apply Qleb_false in H1, H2. now rewrite H1, H2.
Qed.

Lemma retirement_entry_succ payload j m :
  retirement_entry payload j (S m)
  = retirement_month payload (retirement_entry payload j m) (Z.of_nat m).
Proof. unfold retirement_entry. now rewrite range_snoc, fold_left_app. Qed.

Lemma retirement_month_balances payload st m :
  (stock_amt (retirement_month payload st m),
   bond_amt (retirement_month payload st m),
   cash_amt (retirement_month payload st m))
  = withdraw (stock_amt st * (1 + growth_ret_of payload / 12))
      (bond_amt st * (1 + cons_ret_of payload / 12))
      (cash_amt st * (1 + cash_return_of payload / 12))
      (monthly_expense st + monthly_house_payment st).
Proof.
  unfold retirement_month. now destruct (withdraw _ _ _ _) as [[s b] c].
Qed.

Lemma retirement_month_snapshot payload st m :
  let post := retirement_month payload st m in
  financial_results post !! length (financial_results st)
  = Some {| ms_age := cur_age st;
            ms_month := m + 1;
            ms_net_worth := stock_amt post + bond_amt post + cash_amt post;
            ms_savings := 0;
            ms_debt := current_debt post;
            ms_monthly_income := 0;
            ms_monthly_expense := monthly_expense st;
            ms_total_expense := monthly_expense st + monthly_house_payment st;
            ms_stock_investment := Qmax 0 (stock_amt post);
            ms_bond_investment := Qmax 0 (bond_amt post);
            ms_cash_investment := Qmax 0 (cash_amt post);
            ms_real_estate_investment := 0 |}.
Proof.
  cbv zeta. unfold retirement_month. destruct (withdraw _ _ _ _) as [[s b] c].
  apply list_lookup_middle. reflexivity.
Qed.

Lemma retirement_month_cur_age payload st m :
  cur_age (retirement_month payload st m) = cur_age st.
Proof. unfold retirement_month. now destruct (withdraw _ _ _ _) as [[s b] c]. Qed.

Lemma retirement_year_cur_age payload st :
  cur_age (retirement_year payload st) = (cur_age st + 1)%Z.
Proof.
  unfold retirement_year.
  change (cur_age (retirement_year_end payload ?x)) with (cur_age x + 1)%Z.
  rewrite (months_preserve cur_age); [reflexivity|].
  intros. apply retirement_month_cur_age.
Qed.

Lemma retirement_entry_cur_age payload j m :
  cur_age (retirement_entry payload j m)
  = (age_of payload + Z.of_nat (Z.to_nat (years_of payload)) + Z.of_nat j)%Z.
Proof.
  unfold retirement_entry.
  rewrite (months_preserve cur_age) by (intros; apply retirement_month_cur_age).
  induction j as [|j IH].
  - cbn [Nat.iter nat_rect]. change (cur_age (retire ?x)) with (cur_age x).
    unfold accumulation_phase. rewrite accumulation_years_cur_age. lia.
  - rewrite Nat.iter_succ, retirement_year_cur_age, IH. lia.
Qed.

(** C2. In month [m] of retirement year [j], entered in state [pre] and
    left in state [post], with [stock], [bond], [cash] the balances after
    the month's compounding and [outflow] the expense plus the house
    payment: the outflow is taken from cash alone when cash covers it;
    else cash becomes 0, the shortfall is taken from bond and stock is
    untouched when cash and bond cover it; in the remaining case cash
    and bond become 0 and stock loses the remainder, floored at zero.  The month's
    snapshot is entry [12 * (years + j) + m] of the output. *)
Theorem retirement_month_spec (payload : Payload) (j m : nat) :
  (j < Z.to_nat (years_in_retirement_of payload))%nat ->
  (m < 12)%nat ->
  let pre := retirement_entry payload j m in
  let post := retirement_entry payload j (S m) in
  let stock := stock_amt pre * (1 + growth_ret_of payload / 12) in
  let bond := bond_amt pre * (1 + cons_ret_of payload / 12) in
  let cash := cash_amt pre * (1 + cash_return_of payload / 12) in
  let outflow := monthly_expense pre + monthly_house_payment pre in
  (outflow <= cash ->
   cash_amt post = cash - outflow /\ bond_amt post = bond /\ stock_amt post = stock)
  /\ (cash < outflow -> outflow <= cash + bond ->
      cash_amt post = 0 /\ bond_amt post = bond - (outflow - cash)
      /\ stock_amt post = stock)
  /\ (cash < outflow -> cash + bond < outflow ->
      cash_amt post = 0 /\ bond_amt post = 0
      /\ stock_amt post = Qmax 0 (stock - (outflow - (cash + bond)))
      /\ 0 <= stock_amt post)
  /\ exists snap,
       res_financial_results (run_simulation payload)
         !! (12 * (Z.to_nat (years_of payload) + j) + m)%nat = Some snap
       /\ ms_age snap
          = (age_of payload + Z.of_nat (Z.to_nat (years_of payload))
             + Z.of_nat j)%Z
       /\ ms_month snap = (Z.of_nat m + 1)%Z
       /\ ms_stock_investment snap = Qmax 0 (stock_amt post)
       /\ ms_bond_investment snap = Qmax 0 (bond_amt post)
       /\ ms_cash_investment snap = Qmax 0 (cash_amt post)
       /\ ms_net_worth snap = stock_amt post + bond_amt post + cash_amt post.
Proof.
  intros Hj Hm pre post stock bond cash outflow.
  assert (Hpost : post = retirement_month payload pre (Z.of_nat m))
    by apply retirement_entry_succ.
  pose proof (retirement_month_balances payload pre (Z.of_nat m)) as Hbal.
  rewrite <- Hpost in Hbal. fold stock bond cash outflow in Hbal.
  destruct (withdraw_spec stock bond cash outflow) as (W1 & W2 & W3).
  split; [|split; [|split]].
  - intros H. rewrite (W1 H) in Hbal. now injection Hbal as -> -> ->.
  - intros H1 H2. rewrite (W2 H1 H2) in Hbal. now injection Hbal as -> -> ->.
  - intros H1 H2. rewrite (W3 H1 H2) in Hbal. injection Hbal as -> -> ->.
    repeat split. apply Qmax0_nonneg.
  - eexists. split.
    + eapply prefix_lookup_Some;
        [|apply (retirement_entry_prefix payload j (S m)); [exact Hj | lia]].
      fold post. rewrite Hpost.
      rewrite <- (retirement_entry_results_length payload j m). fold pre.
      apply retirement_month_snapshot.
    + cbn [ms_age ms_month ms_stock_investment ms_bond_investment
             ms_cash_investment ms_net_worth].
      rewrite <- Hpost. split; [apply retirement_entry_cur_age|].
      repeat split.
Qed.

Lemma retirement_month_spec_witness :
  let payload := simple_payload 25 26 27 30000 20000 in
  let pre := retirement_entry payload 0 0 in
  cash_amt (retirement_entry payload 0 1)
  = cash_amt pre * (1 + cash_return_of payload / 12)
    - (monthly_expense pre + monthly_house_payment pre)
  /\ bond_amt (retirement_entry payload 0 1)
     = bond_amt pre * (1 + cons_ret_of payload / 12)
  /\ stock_amt (retirement_entry payload 0 1)
     = stock_amt pre * (1 + growth_ret_of payload / 12).
Proof.
  cbv zeta.
  destruct (retirement_month_spec (simple_payload 25 26 27 30000 20000) 0 0)
    as (Hcash & _).
  - vm_compute. lia.
  - lia.
  - apply Hcash. vm_compute. discriminate.
Defined.

(** ** Sign of the recorded balances *)

(** Every retirement-phase snapshot records balances clamped at zero. *)
Lemma retirement_snapshot_nonneg (payload : Payload) (j m : nat) :
  (j < Z.to_nat (years_in_retirement_of payload))%nat ->
  (m < 12)%nat ->
  exists snap,
    res_financial_results (run_simulation payload)
      !! (12 * (Z.to_nat (years_of payload) + j) + m)%nat = Some snap
    /\ 0 <= ms_stock_investment snap
    /\ 0 <= ms_bond_investment snap
    /\ 0 <= ms_cash_investment snap.
Proof.
  intros Hj Hm. eexists. split.
  - eapply prefix_lookup_Some;
      [|apply (retirement_entry_prefix payload j (S m)); [exact Hj | lia]].
    rewrite retirement_entry_succ.
    rewrite <- (retirement_entry_results_length payload j m).
    apply retirement_month_snapshot.
  - cbn [ms_stock_investment ms_bond_investment ms_cash_investment].
    repeat split; apply Qmax0_nonneg.
Qed.

(** C3 fails in the accumulation phase, which has no clamp: a person of
    25 earning 20000 and spending 30000 a month, all in cash, is recorded
    with a cash balance of -10000 after the first month. *)
Theorem accumulation_balance_goes_negative :
  exists snap,
    res_financial_results (run_simulation (simple_payload 25 26 27 20000 30000))
      !! 0%nat = Some snap
    /\ ms_age snap = 25%Z
    /\ ms_month snap = 1%Z
    /\ ms_cash_investment snap == -10000
    /\ ms_cash_investment snap < 0.
Proof.
  eexists. split; [vm_compute; reflexivity|].
  repeat split.
Qed.

(** ** Mortgage origination and repayment *)

Lemma py_or_Q_value v d : py_or_Q (Some v) d == v \/ (v == 0 /\ py_or_Q (Some v) d = d).
Proof.
  unfold py_or_Q. destruct (Qeq_bool v 0) eqn:E.
  - right. split; [now apply Qeq_bool_iff | reflexivity].
  - left. reflexivity.
Qed.

Lemma apply_event_house st price dp rate term :
  let st' := apply_event st (house_purchase_event price dp rate term) in
  current_debt st' == price * (1 - dp / 100)
  /\ monthly_house_payment st'
     = calculate_monthly_payment (current_debt st') rate term.
Proof.
  cbv zeta. unfold apply_event, house_purchase_event, house_data_get.
  cbn [ev_type ev_house_data mbind option_bind hd_house_price
         hd_down_payment_ratio hd_loan_rate hd_loan_years default from_option id
         current_debt monthly_house_payment].
  split; [|reflexivity].
  destruct (py_or_Q_value price 0) as [E|[E ->]]; rewrite E; ring.
Qed.

Lemma calculate_monthly_payment_nonneg_principal principal rate term :
  0 <= principal -> (0 < term)%Z ->
  calculate_monthly_payment principal rate term
  == principal / inject_Z (term * 12).
Proof.
  intros Hp Ht. destruct (Qlt_le_dec 0 principal) as [H|H].
  - now rewrite calculate_monthly_payment_pos.
  - rewrite calculate_monthly_payment_zero by now left.
    assert (E : principal == 0) by lra. rewrite E. field.
    change 0 with (inject_Z 0). rewrite inject_Z_injective. lia.
Qed.

Lemma apply_event_other st event :
  ev_type event <> BuyHouse -> apply_event st event = st.
Proof. unfold apply_event. now destruct (ev_type event). Qed.

Lemma process_events_no_purchase payload st :
  (forall evs, life_planning payload !! cur_age st = Some evs ->
               Forall (fun ev => ev_type ev <> BuyHouse) evs) ->
  process_events payload st = st.
Proof.
  unfold process_events. intros H.
  destruct (life_planning payload !! cur_age st) as [evs|]; [|reflexivity].
  specialize (H evs eq_refl). revert st.
  induction H as [|ev evs Hev _ IH]; intros st; cbn [fold_left].
  - reflexivity.
  - now rewrite apply_event_other, IH.
Qed.

Lemma accumulation_months_zero payload st : accumulation_months payload st 0 = st.
Proof.
  unfold accumulation_months. now destruct (get_allocation_ratios _ _) as [[gr cr] hr].
Qed.

Lemma accumulation_entry_next_year payload j :
  accumulation_entry payload (S j) 0
  = process_events payload
      (accumulation_year_end payload (accumulation_entry payload j 12)).
Proof.
  unfold accumulation_entry.
  now rewrite accumulation_months_zero, Nat.iter_succ, accumulation_year_unfold.
Qed.

(** A loan of [N] instalments of [pay] each. *)
Section Repayment.
Variable payload : Payload.
Variables debt0 pay : Q.
Variable N : nat.
Hypothesis pay_pos : 0 < pay.
Hypothesis debt0_pay : debt0 == inject_Z (Z.of_nat N) * pay.

Lemma accumulation_month_owing gr cr hr st m n :
  (n < N)%nat -> owing debt0 pay n st ->
  owing debt0 pay (S n) (accumulation_month payload gr cr hr st m).
Proof.
  intros Hn [Hpay Hdebt]. split; [exact Hpay|].
  cbn [accumulation_month current_debt]. rewrite Hpay.
  assert (HN : inject_Z (Z.of_nat (S n)) <= inject_Z (Z.of_nat N))
    by (rewrite <- Zle_Qle; lia).
  assert (HS : inject_Z (Z.of_nat (S n)) == inject_Z (Z.of_nat n) + 1)
    by (rewrite Nat2Z.inj_succ; unfold Z.succ; now rewrite inject_Z_plus).
  assert (Hd : pay <= current_debt st) by (rewrite Hdebt; nra).
  assert (E1 : Qltb 0 (current_debt st) = true) by (apply Qltb_true; lra).
  assert (E2 : Qltb 0 pay = true) by now apply Qltb_true.
  rewrite E1, E2. cbn [andb]. rewrite Qmax0_id by lra.
  rewrite Hdebt, HS. ring.
Qed.

Lemma accumulation_months_owing st n m :
  (n + m <= N)%nat -> owing debt0 pay n st ->
  owing debt0 pay (n + m) (accumulation_months payload st m).
Proof.
  intros Hm Hst. induction m as [|m IH].
  - rewrite accumulation_months_zero, Nat.add_0_r. exact Hst.
  - destruct (get_allocation_ratios (cur_age st) (investment_config payload))
      as [[gr cr] hr] eqn:E.
    rewrite (accumulation_months_succ _ _ _ _ _ _ E).
    replace (n + S m)%nat with (S (n + m)) by lia.
    apply accumulation_month_owing; [lia | apply IH; lia].
Qed.
End Repayment.

Lemma accumulation_entry_months payload j m :
  accumulation_entry payload j m
  = accumulation_months payload (accumulation_entry payload j 0) m.
Proof. unfold accumulation_entry. now rewrite accumulation_months_zero. Qed.

(** The snapshot of month [m] of accumulation year [j] in the output. *)
Lemma accumulation_entry_snapshot payload j m :
  (j < Z.to_nat (years_of payload))%nat -> (m < 12)%nat ->
  let pre := accumulation_entry payload j m in
  let post := accumulation_entry payload j (S m) in
  res_financial_results (run_simulation payload) !! (12 * j + m)%nat
  = Some {| ms_age := cur_age pre;
            ms_month := Z.of_nat m + 1;
            ms_net_worth := stock_amt post + bond_amt post + cash_amt post;
            ms_savings := 0;
            ms_debt := current_debt post;
            ms_monthly_income := monthly_income pre;
            ms_monthly_expense := monthly_expense pre;
            ms_total_expense := monthly_expense pre + monthly_house_payment pre;
            ms_stock_investment := stock_amt post;
            ms_bond_investment := bond_amt post;
            ms_cash_investment := cash_amt post;
            ms_real_estate_investment := 0 |}.
Proof.
  intros Hj Hm pre post.
  destruct (get_allocation_ratios (cur_age pre) (investment_config payload))
    as [[gr cr] hr] eqn:E.
  assert (Hpost : post = accumulation_month payload gr cr hr pre (Z.of_nat m))
    by now apply accumulation_entry_succ.
  eapply prefix_lookup_Some;
    [|apply (accumulation_entry_prefix payload j (S m)); [exact Hj | lia]].
  fold post. rewrite Hpost.
  rewrite <- (accumulation_entry_results_length payload j m). fold pre.
  apply accumulation_month_snapshot.
Qed.

Lemma reference_purchase_applied st :
  owing reference_loan reference_payment 0 (apply_event st reference_purchase).
Proof. split; [reflexivity|]. cbn [apply_event reference_purchase]. reflexivity. Qed.

Lemma reference_payment_positive : 0 < reference_payment.
Proof. reflexivity. Qed.

Lemma reference_loan_360_payments :
  reference_loan == inject_Z (Z.of_nat 360) * reference_payment.
Proof. reflexivity. Qed.

Section ReferencePurchase.
Variable payload : Payload.
Hypothesis age_le_30 : (age_of payload <= 30)%Z.
Hypothesis retirement_ge_60 : (60 <= retirement_age_of payload)%Z.
Hypothesis purchase_at_30 :
  life_planning payload !! 30%Z = Some [reference_purchase].
Hypothesis no_other_purchase :
  forall a evs, (30 < a < 60)%Z -> life_planning payload !! a = Some evs ->
                Forall (fun ev => ev_type ev <> BuyHouse) evs.

Local Abbreviation j0 := (years_until payload 30).

Lemma reference_year_entry i :
  (i < 30)%nat ->
  owing reference_loan reference_payment (12 * i) (accumulation_entry payload (j0 + i) 0).
Proof.
  induction i as [|i IH]; intros Hi.
  - rewrite Nat.add_0_r. unfold accumulation_entry.
    rewrite accumulation_months_zero. unfold process_events.
    rewrite accumulation_years_cur_age.
    replace (age_of payload + Z.of_nat j0)%Z with 30%Z
      by (unfold years_until; lia).
    rewrite purchase_at_30. cbn [fold_left].
    apply reference_purchase_applied.
  - replace (j0 + S i)%nat with (S (j0 + i)) by lia.
    rewrite accumulation_entry_next_year.
    assert (Hend : owing reference_loan reference_payment (12 * S i)
                     (accumulation_year_end payload
                        (accumulation_entry payload (j0 + i) 12))).
    { rewrite accumulation_entry_months.
      replace (12 * S i)%nat with (12 * i + 12)%nat by lia.
      apply (accumulation_months_owing payload reference_loan reference_payment 360
               reference_payment_positive reference_loan_360_payments); [lia | apply IH; lia]. }
    rewrite process_events_no_purchase; [exact Hend|].
    intros evs.
    change (cur_age (accumulation_year_end payload ?x)) with (cur_age x + 1)%Z.
    rewrite accumulation_entry_cur_age. apply no_other_purchase.
    unfold years_until. lia.
Qed.

Lemma reference_month_entry i m :
  (i < 30)%nat -> (m <= 12)%nat ->
  owing reference_loan reference_payment (12 * i + m) (accumulation_entry payload (j0 + i) m).
Proof.
  intros Hi Hm. rewrite accumulation_entry_months.
  apply (accumulation_months_owing payload reference_loan reference_payment 360
           reference_payment_positive reference_loan_360_payments); [lia|].
  now apply reference_year_entry.
Qed.

Lemma reference_debt_after k :
  (1 <= k <= 360)%nat ->
  exists snap,
    res_financial_results (run_simulation payload) !! (12 * j0 + k - 1)%nat
    = Some snap
    /\ ms_age snap = (30 + Z.of_nat ((k - 1) / 12))%Z
    /\ ms_month snap = (Z.of_nat ((k - 1) mod 12) + 1)%Z
    /\ ms_debt snap == 12000000 - inject_Z (Z.of_nat k) * (12000000 / inject_Z (30 * 12)).
Proof.
  intros Hk.
  pose proof (Nat.div_mod_eq (k - 1) 12) as Hdm.
  pose proof (Nat.mod_upper_bound (k - 1) 12 ltac:(lia)) as Hmod.
  set (i := ((k - 1) / 12)%nat) in *. set (m := ((k - 1) mod 12)%nat) in *.
  assert (Hi : (i < 30)%nat) by lia.
  assert (Hyears : (j0 + i < Z.to_nat (years_of payload))%nat)
    by (unfold years_of, years_until; lia).
  eexists. split; [|split; [|split]].
  - replace (12 * j0 + k - 1)%nat with (12 * (j0 + i) + m)%nat by lia.
    now apply accumulation_entry_snapshot.
  - cbn [ms_age]. rewrite accumulation_entry_cur_age. unfold years_until. lia.
  - reflexivity.
  - cbn [ms_debt].
    destruct (reference_month_entry i (S m) Hi ltac:(lia)) as [_ Hdebt].
    rewrite Hdebt. replace (12 * i + S m)%nat with k by lia.
    unfold reference_payment, reference_loan. field.
    change 0 with (inject_Z 0). rewrite inject_Z_injective. lia.
Qed.
End ReferencePurchase.

(** C4. A house-purchase event sets the outstanding debt to
    price * (1 - down payment / 100) whatever the debt was before, and the
    monthly house payment to the amortizer's payment for that principal,
    which is principal / (term * 12) for a principal that is not negative
    and a positive term.  For a purchase at 30 of 15,000,000 with 20% down
    over 30 years (the person not older than 30, retiring at 60 or later,
    with no other purchase before 60): the debt is 12,000,000 and the
    payment 12,000,000 / (30 * 12) on entry to age 30, the debt recorded
    after the [k]-th month is 12,000,000 - k * payment for k = 1..360,
    and it is 0 after 360 months. *)
Theorem house_purchase_mortgage :
  (forall st price dp rate term,
      let st' := apply_event st (house_purchase_event price dp rate term) in
      let principal := price * (1 - dp / 100) in
      current_debt st' == principal
      /\ monthly_house_payment st'
         = calculate_monthly_payment (current_debt st') rate term
      /\ (0 <= principal -> (0 < term)%Z ->
          monthly_house_payment st' == principal / inject_Z (term * 12)))
  /\ (forall payload,
         (age_of payload <= 30)%Z ->
         (60 <= retirement_age_of payload)%Z ->
         life_planning payload !! 30%Z = Some [reference_purchase] ->
         (forall a evs, (30 < a < 60)%Z -> life_planning payload !! a = Some evs ->
                        Forall (fun ev => ev_type ev <> BuyHouse) evs) ->
         let j0 := years_until payload 30 in
         let payment := 12000000 / inject_Z (30 * 12) in
         current_debt (accumulation_entry payload j0 0) == 12000000
         /\ monthly_house_payment (accumulation_entry payload j0 0) == payment
         /\ (forall k, (1 <= k <= 360)%nat ->
               exists snap,
                 res_financial_results (run_simulation payload)
                   !! (12 * j0 + k - 1)%nat = Some snap
                 /\ ms_age snap = (30 + Z.of_nat ((k - 1) / 12))%Z
                 /\ ms_month snap = (Z.of_nat ((k - 1) mod 12) + 1)%Z
                 /\ ms_debt snap == 12000000 - inject_Z (Z.of_nat k) * payment)
         /\ exists last,
              res_financial_results (run_simulation payload)
                !! (12 * j0 + 359)%nat = Some last
              /\ ms_debt last == 0).
Proof.
  split.
  - intros st price dp rate term st' principal.
    destruct (apply_event_house st price dp rate term) as [Hdebt Hpay].
    fold st' in Hdebt, Hpay. split; [exact Hdebt|]. split; [exact Hpay|].
    intros Hp Ht. rewrite Hpay.
    rewrite calculate_monthly_payment_nonneg_principal;
      [now rewrite Hdebt | now rewrite Hdebt | exact Ht].
  - intros payload Hage Hret Hbuy Hother j0 payment.
    destruct (reference_year_entry payload Hage Hbuy Hother 0 ltac:(lia))
      as [Hpay Hdebt].
    rewrite Nat.add_0_r in Hpay, Hdebt. fold j0 in Hpay, Hdebt.
    split; [rewrite Hdebt; reflexivity|]. split; [rewrite Hpay; reflexivity|].
    split.
    + intros k Hk. now apply reference_debt_after.
    + destruct (reference_debt_after payload Hage Hret Hbuy Hother 360 ltac:(lia))
        as (snap & Hsnap & _ & _ & Hd).
      exists snap. split; [|rewrite Hd; reflexivity].
      rewrite <- Hsnap. f_equal. lia.
Qed.

Lemma house_purchase_mortgage_witness :
  monthly_house_payment
    (apply_event (initial_state house_payload)
       (house_purchase_event 15000000 20 0.03 30))
  == 15000000 * (1 - 20 / 100) / inject_Z (30 * 12)
  /\ exists last,
       res_financial_results (run_simulation house_payload) !! 359%nat = Some last
       /\ ms_debt last == 0.
Proof.
  destruct house_purchase_mortgage as [Hevent Hrun]. split.
  - apply (Hevent (initial_state house_payload) 15000000 20 0.03 30%Z).
    + discriminate.
    + reflexivity.
  - destruct (Hrun house_payload) as (_ & _ & _ & Hlast).
    + discriminate.
    + discriminate.
    + reflexivity.
    + intros a evs Ha H. unfold house_payload in H. cbn [life_planning] in H.
      rewrite lookup_singleton_ne in H by lia. discriminate H.
    + exact Hlast.
Defined.

(** * Further properties *)

(** ** Allocation policy *)

Lemma py_or_Q_nonneg w : weight_ok w -> 0 <= py_or_Q w 0.
Proof.
  destruct w as [v|]; cbn; [|lra].
  intros H. destruct (Qeq_bool v 0); [lra | exact H].
Qed.

Lemma normalized_in_unit g c h t :
  0 <= g -> 0 <= c -> 0 <= h -> t == g + c + h -> 0 < t ->
  0 <= g / t <= 1.
Proof.
  intros Hg Hc Hh Ht Hpos. split.
  - apply Qle_shift_div_l; [exact Hpos | lra].
  - apply Qle_shift_div_r; [exact Hpos | lra].
Qed.

(** X1. Whatever the age, when no configured weight is negative each of the
    three weights lies between 0 and 1. *)
Theorem allocation_weights_in_unit_interval
    (age : Z) (invest : InvestmentConfig) (gr cr hr : Q) :
  weights_ok invest ->
  get_allocation_ratios age invest = (gr, cr, hr) ->
  0 <= gr <= 1 /\ 0 <= cr <= 1 /\ 0 <= hr <= 1.
Proof.
  intros (H1 & H2 & H3 & H4 & H5 & H6 & H7 & H8 & H9).
  apply py_or_Q_nonneg in H1, H2, H3, H4, H5, H6, H7, H8, H9.
  unfold get_allocation_ratios.
  destruct (age <=? 40)%Z; [|destruct (age <=? 55)%Z];
    match goal with
    | |- context [Qleb ?t 0] => destruct (Qleb t 0) eqn:E
    end;
    intros [= <- <- <-];
    try (repeat split; lra);
    apply Qleb_false in E;
    (split; [|split]);
    match goal with
    | |- 0 <= ?x / (?a + ?b + ?c) <= 1 =>
        first [ apply (normalized_in_unit a b c); (assumption || reflexivity)
              | apply (normalized_in_unit b a c); (assumption || lra)
              | apply (normalized_in_unit c a b); (assumption || lra) ]
    end.
Qed.

Lemma allocation_weights_in_unit_interval_witness :
  0 <= 6 / (6 + 3 + 1) <= 1 /\ 0 <= 3 / (6 + 3 + 1) <= 1 /\ 0 <= 1 / (6 + 3 + 1) <= 1.
Proof.
  apply (allocation_weights_in_unit_interval 30
           (set_weights_young 6 3 1 empty_investment_config)).
  - repeat split; discriminate.
  - reflexivity.
Defined.

Lemma py_or_Q_scale k w :
  ~ k == 0 -> py_or_Q (Qmult k <$> w) 0 == k * py_or_Q w 0.
Proof.
  intros Hk. destruct w as [v|]; cbn [fmap option_fmap option_map py_or_Q]; [|ring].
  destruct (Qeq_bool (k * v) 0) eqn:E1, (Qeq_bool v 0) eqn:E2;
    try apply Qeq_bool_iff in E1; try apply Qeq_bool_iff in E2.
  - ring.
  - now rewrite E1.
  - rewrite E2. ring.
  - reflexivity.
Qed.

Lemma normalize_scale k g c h g' c' h' :
  0 < k -> g' == k * g -> c' == k * c -> h' == k * h ->
  ratios_eq
    (if Qleb (g' + c' + h') 0 then (0, 0, 1)
     else (g' / (g' + c' + h'), c' / (g' + c' + h'), h' / (g' + c' + h')))
    (if Qleb (g + c + h) 0 then (0, 0, 1)
     else (g / (g + c + h), c / (g + c + h), h / (g + c + h))).
Proof.
  intros Hk Hg Hc Hh.
  assert (Ht : g' + c' + h' == k * (g + c + h)) by (rewrite Hg, Hc, Hh; ring).
  destruct (Qleb (g' + c' + h') 0) eqn:E1, (Qleb (g + c + h) 0) eqn:E2;
    try apply Qleb_true in E1; try apply Qleb_true in E2;
    try apply Qleb_false in E1; try apply Qleb_false in E2.
  - repeat split; reflexivity.
  - exfalso. rewrite Ht in E1. nra.
  - exfalso. rewrite Ht in E1. nra.
  - unfold ratios_eq. cbn [fst snd]. rewrite Ht, Hg, Hc, Hh.
    repeat split; field; split; lra.
Qed.

(** X2. Multiplying the nine configured weights by one positive factor (60,
    30, 10 for 0.6, 0.3, 0.1) does not change the weights used. *)
Theorem allocation_weights_scale_invariant
    (age : Z) (invest : InvestmentConfig) (k : Q) :
  0 < k ->
  ratios_eq (get_allocation_ratios age (scale_ratios k invest))
    (get_allocation_ratios age invest).
Proof.
  intros Hk. assert (Hk0 : ~ k == 0) by lra.
  unfold get_allocation_ratios, scale_ratios.
  cbn [ic_young_growth_ratio ic_young_conservative_ratio
         ic_young_cash_reserve_ratio ic_middle_growth_ratio
         ic_middle_conservative_ratio ic_middle_cash_reserve_ratio
         ic_old_growth_ratio ic_old_conservative_ratio ic_old_cash_reserve_ratio].
  destruct (age <=? 40)%Z; [|destruct (age <=? 55)%Z];
    apply (normalize_scale k); try exact Hk; now apply py_or_Q_scale.
Qed.

Lemma allocation_weights_scale_invariant_witness :
  ratios_eq
    (get_allocation_ratios 30
       (scale_ratios 100 (set_weights_young 0.6 0.3 0.1 empty_investment_config)))
    (get_allocation_ratios 30
       (set_weights_young 0.6 0.3 0.1 empty_investment_config)).
Proof. apply allocation_weights_scale_invariant. reflexivity. Defined.

(** ** Present-value calculator *)

Lemma Qpower_lt_1 q n : 0 < q -> q < 1 -> (0 < n)%Z -> q ^ n < 1.
Proof.
  intros H0 H1 Hn.
  assert (Hinv : 1 < / q).
  { apply Qlt_shift_inv_l; [exact H0 | lra]. }
  pose proof (Qpower_1_lt (/ q) n Hinv Hn) as Hp.
  rewrite Qinv_power in Hp.
  pose proof (Qpower_0_lt q n H0) as Hpos.
  apply (Qmult_lt_r _ _ (/ q ^ n)); [lra|].
  rewrite Qmult_inv_r by lra. lra.
Qed.

(** X3. For a positive first-year expense over at least one year, with both
    rates above -100%, the present value is positive. *)
Theorem growing_annuity_present_value_positive (E0 : Q) (n : Z) (r g : Q) :
  0 < E0 -> (0 < n)%Z -> 0 < 1 + r -> 0 < 1 + g ->
  exists pv,
    calculate_growing_annuity_present_value E0 n r g = Some pv /\ 0 < pv.
Proof.
  intros HE Hn Hr Hg. unfold calculate_growing_annuity_present_value.
  destruct (Z.leb_spec n 0); [lia|].
  destruct (Qleb E0 0) eqn:E; [apply Qleb_true in E; lra|]. cbn [orb].
  assert (Hn' : 0 < inject_Z n) by (change 0 with (inject_Z 0); rewrite <- Zlt_Qlt; lia).
  destruct (Qltb (Qabs (r - g)) 1e-6) eqn:Ha.
  - rewrite py_div_defined by lra. eexists. split; [reflexivity|].
    apply Qlt_shift_div_l; [exact Hr | nra].
  - apply Qltb_false in Ha.
    assert (Hrg : ~ r - g == 0)
      by (apply (Qabs_small_nonzero _ 1e-6); [reflexivity | now apply Qle_not_lt]).
    rewrite py_div_defined by lra. cbn [mbind option_bind].
    rewrite py_pow_defined by (right; lia). cbn [mbind option_bind].
    rewrite py_div_defined by exact Hrg. eexists. split; [reflexivity|].
    assert (Hq : 0 < (1 + g) / (1 + r)) by (apply Qlt_shift_div_l; lra).
    destruct (Qlt_le_dec g r) as [Hlt|Hge].
    + assert (Hq1 : (1 + g) / (1 + r) < 1) by (apply Qlt_shift_div_r; lra).
      pose proof (Qpower_lt_1 _ n Hq Hq1 Hn).
      apply Qlt_shift_div_l; [lra | nra].
    + assert (Hgr : r < g) by (destruct (Qeq_dec r g) as [E'|E']; [exfalso; apply Hrg; lra | lra]).
      assert (Hq1 : 1 < (1 + g) / (1 + r)) by (apply Qlt_shift_div_l; lra).
      pose proof (Qpower_1_lt _ n Hq1 Hn).
      assert (Heq : E0 * (1 - ((1 + g) / (1 + r)) ^ n) / (r - g)
                    == E0 * (((1 + g) / (1 + r)) ^ n - 1) / (g - r))
        by (field; lra).
      rewrite Heq. apply Qlt_shift_div_l; [lra | nra].
Qed.

Lemma growing_annuity_present_value_positive_witness :
  exists pv,
    calculate_growing_annuity_present_value 300000 20 0.05 0.03 = Some pv
    /\ 0 < pv.
Proof.
  apply growing_annuity_present_value_positive; reflexivity.
Defined.



Lemma Qpower_succ q k : q ^ (Z.of_nat k + 1) == q ^ Z.of_nat k * q.
Proof. rewrite Qpower_plus' by lia. now rewrite Qpower_1_r. Qed.

Lemma discounted_expenses_equal_rates E0 r g n :
  ~ 1 + r == 0 -> r == g ->
  discounted_expenses E0 r g n == E0 * inject_Z (Z.of_nat n) / (1 + r).
Proof.
  intros Hr Hrg. induction n as [|k IH].
  - cbn. field. exact Hr.
  - cbn [discounted_expenses]. rewrite IH, Nat2Z.inj_succ. unfold Z.succ.
    rewrite inject_Z_plus, Qpower_succ, <- Hrg.
    pose proof (Qpower_not_0 (1 + r) (Z.of_nat k) Hr).
    field. split; assumption.
Qed.

Lemma discounted_expenses_closed E0 r g n :
  ~ 1 + r == 0 -> ~ r - g == 0 ->
  discounted_expenses E0 r g n
  == E0 * (1 - ((1 + g) / (1 + r)) ^ Z.of_nat n) / (r - g).
Proof.
  intros Hr Hrg. induction n as [|k IH].
  - cbn [discounted_expenses]. change (Z.of_nat 0) with 0%Z. cbn [Qpower].
    field. exact Hrg.
  - cbn [discounted_expenses]. rewrite IH, Nat2Z.inj_succ. unfold Z.succ.
    rewrite !Qpower_succ, Qdiv_power.
    pose proof (Qpower_not_0 (1 + r) (Z.of_nat k) Hr).
    field. repeat split; assumption.
Qed.

(** X5. Outside the band 0 < |r - g| < 1e-6 the value returned is the sum of
    the [n] yearly expenses, the first [E0] and each later one grown by
    [g], each discounted at [r]. *)
Theorem growing_annuity_present_value_is_discounted_sum
    (E0 : Q) (n : Z) (r g : Q) :
  0 < E0 -> (0 < n)%Z -> ~ 1 + r == 0 ->
  r == g \/ ~ Qabs (r - g) < 1e-6 ->
  exists pv,
    calculate_growing_annuity_present_value E0 n r g = Some pv
    /\ pv == discounted_expenses E0 r g (Z.to_nat n).
Proof.
  intros HE Hn Hr Hcase. unfold calculate_growing_annuity_present_value.
  destruct (Z.leb_spec n 0); [lia|].
  destruct (Qleb E0 0) eqn:E; [apply Qleb_true in E; lra|]. cbn [orb].
  destruct (Qltb (Qabs (r - g)) 1e-6) eqn:Ha.
  - apply Qltb_true in Ha. destruct Hcase as [Hrg|Hbig]; [|contradiction].
    rewrite py_div_defined by exact Hr. eexists. split; [reflexivity|].
    rewrite discounted_expenses_equal_rates by assumption.
    now rewrite Z2Nat.id by lia.
  - apply Qltb_false in Ha.
    assert (Hrg : ~ r - g == 0)
      by (apply (Qabs_small_nonzero _ 1e-6); [reflexivity | now apply Qle_not_lt]).
    rewrite py_div_defined by exact Hr. cbn [mbind option_bind].
    rewrite py_pow_defined by (right; lia). cbn [mbind option_bind].
    rewrite py_div_defined by exact Hrg. eexists. split; [reflexivity|].
    rewrite discounted_expenses_closed by assumption.
    now rewrite Z2Nat.id by lia.
Qed.

Lemma growing_annuity_present_value_is_discounted_sum_witness :
  exists pv,
    calculate_growing_annuity_present_value 100 2 0.05 0.03 = Some pv
    /\ pv == discounted_expenses 100 0.05 0.03 2.
Proof.
  apply (growing_annuity_present_value_is_discounted_sum 100 2 0.05 0.03);
    try reflexivity; try discriminate.
  right. discriminate.
Defined.



(** ** Year-end snapshots *)

Lemma apply_event_yearly_map st event :
  yearly_map (apply_event st event) = yearly_map st.
Proof. unfold apply_event. now destruct (ev_type event). Qed.

Lemma process_events_yearly_map payload st :
  yearly_map (process_events payload st) = yearly_map st.
Proof.
  unfold process_events.
  destruct (life_planning payload !! cur_age st) as [evs|]; [|reflexivity].
  revert st. induction evs as [|ev evs IH]; intros st; cbn [fold_left].
  - reflexivity.
  - now rewrite IH, apply_event_yearly_map.
Qed.

Lemma accumulation_months_yearly_map payload st m :
  yearly_map (accumulation_months payload st m) = yearly_map st.
Proof. now apply accumulation_months_preserve. Qed.

Lemma retirement_month_yearly_map payload st m :
  yearly_map (retirement_month payload st m) = yearly_map st.
Proof. unfold retirement_month. now destruct (withdraw _ _ _ _) as [[s b] c]. Qed.

Lemma retirement_months_yearly_map payload st ms :
  yearly_map (fold_left (retirement_month payload) ms st) = yearly_map st.
Proof. apply months_preserve. intros. apply retirement_month_yearly_map. Qed.

Lemma retirement_months_cur_age payload st ms :
  cur_age (fold_left (retirement_month payload) ms st) = cur_age st.
Proof. apply months_preserve. intros. apply retirement_month_cur_age. Qed.

(** The record a year writes, and the map it writes it to. *)
Lemma accumulation_year_yearly_map payload st :
  yearly_map (accumulation_year payload st)
  = <[cur_age st :=
        ye_of_accumulation
          (accumulation_months payload (process_events payload st) 12)]>
      (yearly_map st).
Proof.
  rewrite accumulation_year_unfold.
  change (yearly_map (accumulation_year_end payload ?x))
    with (<[cur_age x := ye_of_accumulation x]> (yearly_map x)).
  now rewrite accumulation_months_cur_age, process_events_cur_age,
    accumulation_months_yearly_map, process_events_yearly_map.
Qed.

Lemma retirement_year_yearly_map payload st :
  yearly_map (retirement_year payload st)
  = <[cur_age st :=
        ye_of_retirement (fold_left (retirement_month payload) (range 12) st)]>
      (yearly_map st).
Proof.
  unfold retirement_year.
  change (yearly_map (retirement_year_end payload ?x))
    with (<[cur_age x := ye_of_retirement x]> (yearly_map x)).
  now rewrite retirement_months_cur_age, retirement_months_yearly_map.
Qed.

Lemma retirement_years_cur_age payload st k :
  cur_age (Nat.iter k (retirement_year payload) st) = (cur_age st + Z.of_nat k)%Z.
Proof.
  induction k as [|k IH].
  - cbn [Nat.iter nat_rect]. lia.
  - rewrite Nat.iter_succ, retirement_year_cur_age, IH. lia.
Qed.

Lemma accumulation_years_dom payload j a :
  a ∈ dom (yearly_map (Nat.iter j (accumulation_year payload) (initial_state payload)))
  <-> (age_of payload <= a < age_of payload + Z.of_nat j)%Z.
Proof.
  induction j as [|j IH].
  - cbn [Nat.iter nat_rect initial_state yearly_map]. rewrite dom_empty_L.
    split; [intros H; now apply not_elem_of_empty in H | lia].
  - rewrite Nat.iter_succ, accumulation_year_yearly_map, dom_insert_L,
      elem_of_union, elem_of_singleton, IH, accumulation_years_cur_age. lia.
Qed.

Lemma retirement_years_dom payload k a :
  a ∈ dom (yearly_map (Nat.iter k (retirement_year payload)
                         (retire (accumulation_phase payload))))
  <-> (age_of payload <= a
       < age_of payload + Z.of_nat (Z.to_nat (years_of payload)) + Z.of_nat k)%Z.
Proof.
  induction k as [|k IH].
  - cbn [Nat.iter nat_rect]. change (yearly_map (retire ?x)) with (yearly_map x).
    unfold accumulation_phase. rewrite accumulation_years_dom. lia.
  - rewrite Nat.iter_succ, retirement_year_yearly_map, dom_insert_L,
      elem_of_union, elem_of_singleton, IH, retirement_years_cur_age.
    change (cur_age (retire ?x)) with (cur_age x).
    unfold accumulation_phase. rewrite accumulation_years_cur_age. lia.
Qed.

(** X7. The yearly map has one entry for each simulated age and no other:
    its keys are the ages from the starting age up to, not including,
    the starting age plus the years of both phases. *)
Theorem simulation_results_ages (payload : Payload) (a : Z) :
  a ∈ dom (simulation_results (run_simulation payload))
  <-> (age_of payload <= a
       < age_of payload + years_of payload + years_in_retirement_of payload)%Z.
Proof.
  change (simulation_results (run_simulation payload))
    with (yearly_map (retirement_phase payload)).
  unfold retirement_phase. rewrite retirement_years_dom.
  unfold years_of, years_in_retirement_of. lia.
Qed.

Lemma simulation_results_ages_witness :
  26%Z ∈ dom (simulation_results (run_simulation (simple_payload 25 26 27 20000 30000))).
Proof.
  apply simulation_results_ages. vm_compute. split; [discriminate | reflexivity].
Defined.

Lemma retirement_entry_snapshot payload j m :
  (j < Z.to_nat (years_in_retirement_of payload))%nat -> (m < 12)%nat ->
  let pre := retirement_entry payload j m in
  let post := retirement_entry payload j (S m) in
  res_financial_results (run_simulation payload)
    !! (12 * (Z.to_nat (years_of payload) + j) + m)%nat
  = Some {| ms_age := cur_age pre;
            ms_month := Z.of_nat m + 1;
            ms_net_worth := stock_amt post + bond_amt post + cash_amt post;
            ms_savings := 0;
            ms_debt := current_debt post;
            ms_monthly_income := 0;
            ms_monthly_expense := monthly_expense pre;
            ms_total_expense := monthly_expense pre + monthly_house_payment pre;
            ms_stock_investment := Qmax 0 (stock_amt post);
            ms_bond_investment := Qmax 0 (bond_amt post);
            ms_cash_investment := Qmax 0 (cash_amt post);
            ms_real_estate_investment := 0 |}.
Proof.
  intros Hj Hm pre post.
  eapply prefix_lookup_Some;
    [|apply (retirement_entry_prefix payload j (S m)); [exact Hj | lia]].
  fold post. unfold post. rewrite retirement_entry_succ. fold pre.
  rewrite <- (retirement_entry_results_length payload j m). fold pre.
  apply retirement_month_snapshot.
Qed.

Lemma accumulation_years_lookup payload n j :
  (j < n)%nat ->
  yearly_map (Nat.iter n (accumulation_year payload) (initial_state payload))
    !! (age_of payload + Z.of_nat j)%Z
  = Some (ye_of_accumulation (accumulation_entry payload j 12)).
Proof.
  induction n as [|n IH]; intros Hj; [lia|].
  rewrite Nat.iter_succ, accumulation_year_yearly_map, accumulation_years_cur_age.
  destruct (decide (j = n)) as [->|Hne].
  - rewrite lookup_insert_eq. unfold accumulation_entry. reflexivity.
  - rewrite lookup_insert_ne by lia. apply IH. lia.
Qed.

Lemma retirement_years_lookup_accumulation payload k j :
  (j < Z.to_nat (years_of payload))%nat ->
  yearly_map (Nat.iter k (retirement_year payload)
                (retire (accumulation_phase payload)))
    !! (age_of payload + Z.of_nat j)%Z
  = Some (ye_of_accumulation (accumulation_entry payload j 12)).
Proof.
  intros Hj. induction k as [|k IH].
  - cbn [Nat.iter nat_rect]. change (yearly_map (retire ?x)) with (yearly_map x).
    now apply accumulation_years_lookup.
  - rewrite Nat.iter_succ, retirement_year_yearly_map, retirement_years_cur_age.
    change (cur_age (retire ?x)) with (cur_age x).
    unfold accumulation_phase at 1. rewrite accumulation_years_cur_age.
    rewrite lookup_insert_ne by lia. exact IH.
Qed.

Lemma retirement_years_lookup payload k j :
  (j < k)%nat ->
  yearly_map (Nat.iter k (retirement_year payload)
                (retire (accumulation_phase payload)))
    !! (age_of payload + Z.of_nat (Z.to_nat (years_of payload)) + Z.of_nat j)%Z
  = Some (ye_of_retirement (retirement_entry payload j 12)).
Proof.
  induction k as [|k IH]; intros Hj; [lia|].
  rewrite Nat.iter_succ, retirement_year_yearly_map, retirement_years_cur_age.
  change (cur_age (retire ?x)) with (cur_age x).
  unfold accumulation_phase at 1. rewrite accumulation_years_cur_age.
  destruct (decide (j = k)) as [->|Hne].
  - rewrite lookup_insert_eq. unfold retirement_entry. reflexivity.
  - rewrite lookup_insert_ne by lia. apply IH. lia.
Qed.

Lemma accumulation_entry_income payload j m :
  monthly_income (accumulation_entry payload j m)
  = monthly_income (accumulation_entry payload j 0).
Proof.
  rewrite (accumulation_entry_months payload j m).
  now apply accumulation_months_preserve.
Qed.

Lemma accumulation_entry_expense payload j m :
  monthly_expense (accumulation_entry payload j m)
  = monthly_expense (accumulation_entry payload j 0).
Proof.
  rewrite (accumulation_entry_months payload j m).
  now apply accumulation_months_preserve.
Qed.

Lemma accumulation_entry_payment payload j m :
  monthly_house_payment (accumulation_entry payload j m)
  = monthly_house_payment (accumulation_entry payload j 0).
Proof.
  rewrite (accumulation_entry_months payload j m).
  now apply accumulation_months_preserve.
Qed.

(** X8. The year-end record of an accumulation year repeats the snapshot of
    its twelfth month: net worth, debt, the three balances, income and
    expense; the snapshot's total expense is the record's expense plus
    its house payment; and nothing is withdrawn. *)
Theorem accumulation_year_end_matches_december (payload : Payload) (j : nat) :
  (j < Z.to_nat (years_of payload))%nat ->
  exists ye snap,
    simulation_results (run_simulation payload)
      !! (age_of payload + Z.of_nat j)%Z = Some ye
    /\ res_financial_results (run_simulation payload) !! (12 * j + 11)%nat
       = Some snap
    /\ ye_net_worth ye = ms_net_worth snap
    /\ ye_debt ye = ms_debt snap
    /\ ye_stock_investment ye = ms_stock_investment snap
    /\ ye_bond_investment ye = ms_bond_investment snap
    /\ ye_cash_investment ye = ms_cash_investment snap
    /\ ye_monthly_income ye = ms_monthly_income snap
    /\ ye_monthly_expense ye = ms_monthly_expense snap
    /\ ms_total_expense snap = ye_monthly_expense ye + ye_monthly_house_payment ye
    /\ ye_yearly_withdrawn ye = 0.
Proof.
  intros Hj. do 2 eexists.
  split; [apply (retirement_years_lookup_accumulation payload _ j Hj)|].
  split; [apply (accumulation_entry_snapshot payload j 11 Hj); lia|].
  cbn [ye_of_accumulation ye_net_worth ye_debt ye_stock_investment
         ye_bond_investment ye_cash_investment ye_monthly_income
         ye_monthly_expense ye_monthly_house_payment ye_yearly_withdrawn
         ms_net_worth ms_debt ms_stock_investment ms_bond_investment
         ms_cash_investment ms_monthly_income ms_monthly_expense
         ms_total_expense].
  rewrite (accumulation_entry_income payload j 12),
    (accumulation_entry_income payload j 11),
    (accumulation_entry_expense payload j 12),
    (accumulation_entry_expense payload j 11),
    (accumulation_entry_payment payload j 12),
    (accumulation_entry_payment payload j 11).
  repeat split.
Qed.

Lemma accumulation_year_end_matches_december_witness :
  exists ye snap,
    simulation_results (run_simulation (simple_payload 25 26 27 30000 20000))
      !! 25%Z = Some ye
    /\ res_financial_results (run_simulation (simple_payload 25 26 27 30000 20000))
         !! 11%nat = Some snap
    /\ ye_net_worth ye = ms_net_worth snap.
Proof.
  destruct (accumulation_year_end_matches_december
              (simple_payload 25 26 27 30000 20000) 0)
    as (ye & snap & Hye & Hsnap & Hnw & _).
  - vm_compute. lia.
  - exists ye, snap. split; [exact Hye|]. split; [exact Hsnap | exact Hnw].
Defined.

Lemma retirement_month_savings payload st m :
  savings (retirement_month payload st m)
  = stock_amt (retirement_month payload st m)
    + bond_amt (retirement_month payload st m)
    + cash_amt (retirement_month payload st m).
Proof. unfold retirement_month. now destruct (withdraw _ _ _ _) as [[s b] c]. Qed.

Lemma retirement_month_expense payload st m :
  monthly_expense (retirement_month payload st m) = monthly_expense st.
Proof. unfold retirement_month. now destruct (withdraw _ _ _ _) as [[s b] c]. Qed.

Lemma retirement_month_payment payload st m :
  monthly_house_payment (retirement_month payload st m) = monthly_house_payment st.
Proof. unfold retirement_month. now destruct (withdraw _ _ _ _) as [[s b] c]. Qed.

Lemma retirement_entry_expense payload j m :
  monthly_expense (retirement_entry payload j m)
  = monthly_expense (retirement_entry payload j 0).
Proof.
  unfold retirement_entry.
  rewrite (months_preserve monthly_expense)
    by (intros; apply retirement_month_expense).
  reflexivity.
Qed.

Lemma retirement_entry_payment payload j m :
  monthly_house_payment (retirement_entry payload j m)
  = monthly_house_payment (retirement_entry payload j 0).
Proof.
  unfold retirement_entry.
  rewrite (months_preserve monthly_house_payment)
    by (intros; apply retirement_month_payment).
  reflexivity.
Qed.

(** X9. The year-end record of a retirement year: its net worth is the
    twelfth month's net worth floored at zero, its debt and balances are
    those of that snapshot, its income is 0 and the amount withdrawn is
    twelve times the month's total expense. *)
Theorem retirement_year_end_matches_december (payload : Payload) (j : nat) :
  (j < Z.to_nat (years_in_retirement_of payload))%nat ->
  exists ye snap,
    simulation_results (run_simulation payload)
      !! (age_of payload + Z.of_nat (Z.to_nat (years_of payload)) + Z.of_nat j)%Z
    = Some ye
    /\ res_financial_results (run_simulation payload)
         !! (12 * (Z.to_nat (years_of payload) + j) + 11)%nat = Some snap
    /\ ye_net_worth ye = Qmax 0 (ms_net_worth snap)
    /\ ye_debt ye = ms_debt snap
    /\ ye_stock_investment ye = ms_stock_investment snap
    /\ ye_bond_investment ye = ms_bond_investment snap
    /\ ye_cash_investment ye = ms_cash_investment snap
    /\ ye_monthly_income ye = 0
    /\ ye_monthly_expense ye = ms_monthly_expense snap
    /\ ye_yearly_withdrawn ye = ms_total_expense snap * 12.
Proof.
  intros Hj. do 2 eexists.
  split; [apply (retirement_years_lookup payload _ j Hj)|].
  split; [apply (retirement_entry_snapshot payload j 11 Hj); lia|].
  cbn [ye_of_retirement ye_net_worth ye_debt ye_stock_investment
         ye_bond_investment ye_cash_investment ye_monthly_income
         ye_monthly_expense ye_yearly_withdrawn
         ms_net_worth ms_debt ms_stock_investment ms_bond_investment
         ms_cash_investment ms_monthly_expense ms_total_expense].
  rewrite (retirement_entry_expense payload j 12),
    (retirement_entry_expense payload j 11),
    (retirement_entry_payment payload j 12),
    (retirement_entry_payment payload j 11).
  rewrite (retirement_entry_succ payload j 11), retirement_month_savings.
  repeat split.
Qed.

Lemma retirement_year_end_matches_december_witness :
  exists ye snap,
    simulation_results (run_simulation (simple_payload 25 26 27 30000 20000))
      !! 26%Z = Some ye
    /\ res_financial_results (run_simulation (simple_payload 25 26 27 30000 20000))
         !! 23%nat = Some snap
    /\ ye_yearly_withdrawn ye = ms_total_expense snap * 12.
Proof.
  destruct (retirement_year_end_matches_december
              (simple_payload 25 26 27 30000 20000) 0)
    as (ye & snap & Hye & Hsnap & _ & _ & _ & _ & _ & _ & _ & Hw).
  - vm_compute. lia.
  - exists ye, snap. split; [exact Hye|]. split; [exact Hsnap | exact Hw].
Defined.

(** ** Income and expense year by year *)

Lemma apply_event_income_expense st event :
  monthly_income (apply_event st event) = monthly_income st
  /\ monthly_expense (apply_event st event) = monthly_expense st.
Proof. unfold apply_event. now destruct (ev_type event). Qed.

Lemma process_events_income_expense payload st :
  monthly_income (process_events payload st) = monthly_income st
  /\ monthly_expense (process_events payload st) = monthly_expense st.
Proof.
  unfold process_events.
  destruct (life_planning payload !! cur_age st) as [evs|]; [|now split].
  revert st. induction evs as [|ev evs IH]; intros st; cbn [fold_left].
  - now split.
  - destruct (IH (apply_event st ev)) as [-> ->]. apply apply_event_income_expense.
Qed.

Lemma accumulation_year_income_expense payload st :
  monthly_income (accumulation_year payload st)
  = monthly_income st
    * (1 + default 0 (sc_young_growth_rate (salary_config payload)))
  /\ monthly_expense (accumulation_year payload st)
     = monthly_expense st * (1 + inflation_of payload).
Proof.
  rewrite accumulation_year_unfold.
  change (monthly_income (accumulation_year_end payload ?x))
    with (monthly_income x
          * (1 + default 0 (sc_young_growth_rate (salary_config payload)))).
  change (monthly_expense (accumulation_year_end payload ?x))
    with (monthly_expense x * (1 + inflation_of payload)).
  rewrite (accumulation_months_preserve monthly_income) by reflexivity.
  rewrite (accumulation_months_preserve monthly_expense) by reflexivity.
  now destruct (process_events_income_expense payload st) as [-> ->].
Qed.

Lemma accumulation_years_income_expense payload j :
  let st := Nat.iter j (accumulation_year payload) (initial_state payload) in
  monthly_income st
  == monthly_income (initial_state payload)
     * (1 + default 0 (sc_young_growth_rate (salary_config payload))) ^ Z.of_nat j
  /\ monthly_expense st
     == monthly_expense (initial_state payload)
        * (1 + inflation_of payload) ^ Z.of_nat j.
Proof.
  cbv zeta. induction j as [|j [IHi IHe]].
  - cbn [Nat.iter nat_rect]. change (Z.of_nat 0) with 0%Z. cbn [Qpower].
    split; ring.
  - rewrite Nat.iter_succ.
    destruct (accumulation_year_income_expense payload
                (Nat.iter j (accumulation_year payload) (initial_state payload)))
      as [-> ->].
    rewrite IHi, IHe, Nat2Z.inj_succ. unfold Z.succ. rewrite !Qpower_succ.
    split; ring.
Qed.

Lemma Qpower_succ_Z q z : (0 <= z)%Z -> q ^ (z + 1) == q ^ z * q.
Proof. intros H. rewrite Qpower_plus' by lia. now rewrite Qpower_1_r. Qed.

Lemma retirement_year_expense payload st :
  monthly_expense (retirement_year payload st)
  = monthly_expense st * (1 + inflation_of payload).
Proof.
  unfold retirement_year.
  change (monthly_expense (retirement_year_end payload ?x))
    with (monthly_expense x * (1 + inflation_of payload)).
  rewrite (months_preserve monthly_expense)
    by (intros; apply retirement_month_expense).
  reflexivity.
Qed.

Lemma retirement_years_expense payload k :
  monthly_expense (Nat.iter k (retirement_year payload)
                     (retire (accumulation_phase payload)))
  == monthly_expense (initial_state payload)
     * (1 + inflation_of payload)
       ^ (Z.of_nat (Z.to_nat (years_of payload)) + Z.of_nat k).
Proof.
  induction k as [|k IH].
  - cbn [Nat.iter nat_rect]. change (monthly_expense (retire ?x)) with (monthly_expense x).
    unfold accumulation_phase. rewrite Z.add_0_r.
    apply accumulation_years_income_expense.
  - rewrite Nat.iter_succ, retirement_year_expense, IH, Nat2Z.inj_succ.
    unfold Z.succ. rewrite Z.add_assoc, Qpower_succ_Z by lia. ring.
Qed.

(** X10. Income and expense are constant within a year and compound yearly:
    in accumulation year [j] every snapshot records the initial expense
    times (1 + inflation)^j and the initial income times
    (1 + young_growth_rate)^j, whatever the age; in retirement year [j]
    it records no income and the initial expense times
    (1 + inflation)^(years + j). *)
Theorem income_and_expense_by_year (payload : Payload) (j m : nat) :
  (m < 12)%nat ->
  let income0 := py_or_Q (ps_monthly_income (player_status payload)) 0 in
  let expense0 := py_or_Q (ps_monthly_expense (player_status payload)) 0 in
  let raise := default 0 (sc_young_growth_rate (salary_config payload)) in
  let years := Z.to_nat (years_of payload) in
  ((j < years)%nat ->
   exists snap,
     res_financial_results (run_simulation payload) !! (12 * j + m)%nat = Some snap
     /\ ms_monthly_income snap == income0 * (1 + raise) ^ Z.of_nat j
     /\ ms_monthly_expense snap
        == expense0 * (1 + inflation_of payload) ^ Z.of_nat j)
  /\ ((j < Z.to_nat (years_in_retirement_of payload))%nat ->
      exists snap,
        res_financial_results (run_simulation payload)
          !! (12 * (years + j) + m)%nat = Some snap
        /\ ms_monthly_income snap = 0
        /\ ms_monthly_expense snap
           == expense0 * (1 + inflation_of payload) ^ Z.of_nat (years + j)).
Proof.
  intros Hm income0 expense0 raise years. split; intros Hj.
  - eexists. split; [now apply accumulation_entry_snapshot|].
    cbn [ms_monthly_income ms_monthly_expense].
    rewrite accumulation_entry_income, accumulation_entry_expense.
    unfold accumulation_entry. rewrite accumulation_months_zero.
    destruct (process_events_income_expense payload
                (Nat.iter j (accumulation_year payload) (initial_state payload)))
      as [-> ->].
    apply accumulation_years_income_expense.
  - eexists. split; [now apply retirement_entry_snapshot|].
    cbn [ms_monthly_income ms_monthly_expense]. split; [reflexivity|].
    rewrite retirement_entry_expense. unfold retirement_entry.
    cbn [range seq map fold_left]. rewrite retirement_years_expense.
    now rewrite Nat2Z.inj_add.
Qed.

Lemma income_and_expense_by_year_witness :
  exists snap,
    res_financial_results (run_simulation (simple_payload 25 27 28 30000 20000))
      !! 17%nat = Some snap
    /\ ms_monthly_expense snap == 20000 * (1 + 0.03) ^ 1.
Proof.
  destruct (income_and_expense_by_year (simple_payload 25 27 28 30000 20000) 1 5)
    as [Hacc _]; [lia|].
  destruct Hacc as (snap & Hsnap & _ & Hexp); [vm_compute; lia|].
  exists snap. split; [exact Hsnap | exact Hexp].
Defined.

(** ** The debt never grows by itself *)

Lemma accumulation_month_debt_le payload gr cr hr st m :
  current_debt (accumulation_month payload gr cr hr st m) <= current_debt st.
Proof.
  cbn [accumulation_month current_debt].
  destruct (Qltb 0 (current_debt st)) eqn:Ed; cbn [andb]; [|lra].
  destruct (Qltb 0 (monthly_house_payment st)) eqn:Ep; [|lra].
  apply Qltb_true in Ed, Ep.
  destruct (Qlt_le_dec 0 (current_debt st - monthly_house_payment st)).
  - rewrite Qmax0_pos by assumption. lra.
  - rewrite Qmax0_nonpos by assumption. lra.
Qed.

Lemma retirement_month_debt payload st m :
  current_debt (retirement_month payload st m)
  = Qmax 0 (current_debt st - monthly_house_payment st).
Proof. unfold retirement_month. now destruct (withdraw _ _ _ _) as [[s b] c]. Qed.

Lemma retirement_year_payment_nonneg payload st :
  0 <= monthly_house_payment st ->
  0 <= monthly_house_payment (retirement_year payload st).
Proof.
  intros H. unfold retirement_year. cbn [retirement_year_end monthly_house_payment].
  destruct (Qleb _ 0); [lra|].
  now rewrite (months_preserve monthly_house_payment)
    by (intros; apply retirement_month_payment).
Qed.

Lemma accumulation_phase_payment_nonneg payload :
  0 <= monthly_house_payment (accumulation_phase payload).
Proof.
  unfold accumulation_phase.
  induction (Z.to_nat (years_of payload)) as [|j IH].
  - cbn. lra.
  - rewrite Nat.iter_succ. now apply accumulation_year_payment_nonneg.
Qed.

Lemma retirement_entry_payment_nonneg payload j m :
  0 <= monthly_house_payment (retirement_entry payload j m).
Proof.
  rewrite retirement_entry_payment. unfold retirement_entry.
  cbn [range seq map fold_left].
  induction j as [|j IH].
  - cbn [Nat.iter nat_rect]. apply accumulation_phase_payment_nonneg.
  - rewrite Nat.iter_succ. now apply retirement_year_payment_nonneg.
Qed.

Lemma retirement_entry_debt_succ payload j m :
  0 <= current_debt (retirement_entry payload j (S m))
  /\ (0 <= current_debt (retirement_entry payload j m) ->
      current_debt (retirement_entry payload j (S m))
      <= current_debt (retirement_entry payload j m)).
Proof.
  rewrite retirement_entry_succ, retirement_month_debt.
  split; [apply Qmax0_nonneg|]. intros Hd.
  pose proof (retirement_entry_payment_nonneg payload j m) as Hp.
  destruct (Qlt_le_dec 0 (current_debt (retirement_entry payload j m)
                          - monthly_house_payment (retirement_entry payload j m))).
  - rewrite Qmax0_pos by assumption. lra.
  - rewrite Qmax0_nonpos by assumption. lra.
Qed.

Lemma retirement_entry_next_year payload j :
  retirement_entry payload (S j) 0
  = retirement_year_end payload (retirement_entry payload j 12).
Proof. unfold retirement_entry. now rewrite Nat.iter_succ. Qed.

Lemma retirement_year_end_debt payload st :
  current_debt (retirement_year_end payload st) = current_debt st.
Proof. reflexivity. Qed.

Lemma retirement_boundary_debt payload j :
  0 <= current_debt (retirement_entry payload (S j) 1)
    <= current_debt (retirement_entry payload j 12).
Proof.
  destruct (retirement_entry_debt_succ payload j 11) as [Hpos _].
  pose proof (retirement_entry_payment_nonneg payload (S j) 0) as Hp.
  rewrite (retirement_entry_succ payload (S j) 0), retirement_month_debt.
  rewrite retirement_entry_next_year in *. rewrite retirement_year_end_debt.
  remember (current_debt (retirement_entry payload j 12)) as d eqn:Hd.
  remember (monthly_house_payment
              (retirement_year_end payload (retirement_entry payload j 12)))
    as p eqn:Hpay.
  clear Hd Hpay. split; [apply Qmax0_nonneg|].
  destruct (Qlt_le_dec 0 (d - p)).
  - rewrite Qmax0_pos by assumption. lra.
  - rewrite Qmax0_nonpos by assumption. exact Hpos.
Qed.

(** X11. In the accumulation phase the recorded debt of a month is never above
    that of the month before in the same year; in the retirement phase
    the recorded debt is never negative and never above that of the
    month before, year ends included. *)
Theorem debt_never_increases (payload : Payload) (j m : nat) :
  ((j < Z.to_nat (years_of payload))%nat -> (m < 11)%nat ->
   exists before after,
     res_financial_results (run_simulation payload) !! (12 * j + m)%nat
     = Some before
     /\ res_financial_results (run_simulation payload) !! (12 * j + S m)%nat
        = Some after
     /\ ms_debt after <= ms_debt before)
  /\ ((j < Z.to_nat (years_in_retirement_of payload))%nat -> (m < 11)%nat ->
      exists before after,
        res_financial_results (run_simulation payload)
          !! (12 * (Z.to_nat (years_of payload) + j) + m)%nat = Some before
        /\ res_financial_results (run_simulation payload)
             !! (12 * (Z.to_nat (years_of payload) + j) + S m)%nat = Some after
        /\ 0 <= ms_debt after <= ms_debt before)
  /\ ((S j < Z.to_nat (years_in_retirement_of payload))%nat ->
      exists before after,
        res_financial_results (run_simulation payload)
          !! (12 * (Z.to_nat (years_of payload) + j) + 11)%nat = Some before
        /\ res_financial_results (run_simulation payload)
             !! (12 * (Z.to_nat (years_of payload) + S j) + 0)%nat = Some after
        /\ 0 <= ms_debt after <= ms_debt before).
Proof.
  split; [|split].
  - intros Hj Hm. do 2 eexists.
    split; [apply accumulation_entry_snapshot; [exact Hj | lia]|].
    split; [apply accumulation_entry_snapshot; [exact Hj | lia]|].
    cbn [ms_debt].
    destruct (get_allocation_ratios
                (cur_age (accumulation_entry payload j (S m)))
                (investment_config payload)) as [[gr cr] hr] eqn:E.
    rewrite (accumulation_entry_succ payload j (S m) gr cr hr E).
    apply accumulation_month_debt_le.
  - intros Hj Hm. do 2 eexists.
    split; [apply retirement_entry_snapshot; [exact Hj | lia]|].
    split; [apply retirement_entry_snapshot; [exact Hj | lia]|].
    cbn [ms_debt].
    destruct (retirement_entry_debt_succ payload j m) as [Hpos _].
    destruct (retirement_entry_debt_succ payload j (S m)) as [Hpos' Hle].
    split; [exact Hpos' | now apply Hle].
  - intros Hj. do 2 eexists.
    split; [apply retirement_entry_snapshot; lia|].
    split; [apply retirement_entry_snapshot; lia|].
    cbn [ms_debt]. apply retirement_boundary_debt.
Qed.

Lemma debt_never_increases_witness :
  exists before after,
    res_financial_results (run_simulation house_payload) !! 0%nat = Some before
    /\ res_financial_results (run_simulation house_payload) !! 1%nat = Some after
    /\ ms_debt after <= ms_debt before.
Proof.
  destruct (debt_never_increases house_payload 0 0) as [Hacc _].
  apply Hacc; [vm_compute; lia | lia].
Defined.

(** ** Life events the engine does not read *)

Lemma accumulation_month_set_life_planning lp payload gr cr hr st m :
  accumulation_month (set_life_planning lp payload) gr cr hr st m
  = accumulation_month payload gr cr hr st m.
Proof. reflexivity. Qed.

Lemma accumulation_months_set_life_planning lp payload st m :
  accumulation_months (set_life_planning lp payload) st m
  = accumulation_months payload st m.
Proof.
  unfold accumulation_months.
  change (investment_config (set_life_planning lp payload))
    with (investment_config payload).
  destruct (get_allocation_ratios _ _) as [[gr cr] hr].
  apply fold_left_ext. intros. apply accumulation_month_set_life_planning.
Qed.

Lemma accumulation_year_end_set_life_planning lp payload st :
  accumulation_year_end (set_life_planning lp payload) st
  = accumulation_year_end payload st.
Proof. reflexivity. Qed.

Lemma accumulation_year_set_life_planning lp payload st :
  process_events (set_life_planning lp payload) st = process_events payload st ->
  accumulation_year (set_life_planning lp payload) st
  = accumulation_year payload st.
Proof.
  intros H. rewrite !accumulation_year_unfold, H.
  now rewrite accumulation_months_set_life_planning,
    accumulation_year_end_set_life_planning.
Qed.

Lemma retirement_month_set_life_planning lp payload st m :
  retirement_month (set_life_planning lp payload) st m
  = retirement_month payload st m.
Proof. reflexivity. Qed.

Lemma retirement_year_end_set_life_planning lp payload st :
  retirement_year_end (set_life_planning lp payload) st
  = retirement_year_end payload st.
Proof. reflexivity. Qed.

Lemma retirement_year_set_life_planning lp payload st :
  retirement_year (set_life_planning lp payload) st = retirement_year payload st.
Proof.
  unfold retirement_year.
  rewrite (fold_left_ext _ _ (retirement_month_set_life_planning lp payload)).
  apply retirement_year_end_set_life_planning.
Qed.

Lemma accumulation_years_set_life_planning lp payload j :
  (forall st,
      (age_of payload <= cur_age st < age_of payload + Z.of_nat j)%Z ->
      process_events (set_life_planning lp payload) st
      = process_events payload st) ->
  Nat.iter j (accumulation_year (set_life_planning lp payload))
    (initial_state payload)
  = Nat.iter j (accumulation_year payload) (initial_state payload).
Proof.
  induction j as [|j IH]; intros H; [reflexivity|].
  rewrite !Nat.iter_succ, IH by (intros st Hst; apply H; lia).
  apply accumulation_year_set_life_planning, H.
  rewrite accumulation_years_cur_age. lia.
Qed.

Lemma run_simulation_set_life_planning lp payload :
  (forall st,
      (age_of payload <= cur_age st < age_of payload + years_of payload)%Z ->
      process_events (set_life_planning lp payload) st
      = process_events payload st) ->
  run_simulation (set_life_planning lp payload) = run_simulation payload.
Proof.
  intros H. unfold run_simulation, retirement_phase, accumulation_phase.
  change (years_of (set_life_planning lp payload)) with (years_of payload).
  change (years_in_retirement_of (set_life_planning lp payload))
    with (years_in_retirement_of payload).
  change (initial_state (set_life_planning lp payload))
    with (initial_state payload).
  rewrite accumulation_years_set_life_planning
    by (intros st Hst; apply H; unfold years_of in *; lia).
  now rewrite (iter_ext _ _ (retirement_year_set_life_planning lp payload)).
Qed.

Lemma fold_left_apply_event_purchases evs st :
  fold_left apply_event (List.filter is_purchase evs) st
  = fold_left apply_event evs st.
Proof.
  revert st. induction evs as [|ev evs IH]; intros st; [reflexivity|].
  cbn [List.filter fold_left]. unfold is_purchase at 1.
  destruct (ev_type ev) eqn:E; cbn [fold_left].
  - apply IH.
  - rewrite IH. f_equal. symmetry. apply apply_event_other. congruence.
Qed.

(** X12. Events that are not house purchases have no effect: dropping them
    from every age of [life_planning] leaves the whole output unchanged. *)
Theorem other_events_are_ignored (payload : Payload) :
  run_simulation
    (set_life_planning (only_purchases (life_planning payload)) payload)
  = run_simulation payload.
Proof.
  apply run_simulation_set_life_planning. intros st _.
  unfold process_events, only_purchases. cbn [life_planning set_life_planning].
  rewrite lookup_fmap.
  destruct (life_planning payload !! cur_age st) as [evs|]; [|reflexivity].
  apply fold_left_apply_event_purchases.
Qed.

(** X13. Only the events keyed to an age of the accumulation phase are read:
    two maps that agree on the ages from the starting age up to, not
    including, the retirement age give the same output. *)
Theorem events_outside_accumulation_are_ignored
    (payload : Payload) (lp : gmap Z (list Event)) :
  (forall a, (age_of payload <= a < age_of payload + years_of payload)%Z ->
             lp !! a = life_planning payload !! a) ->
  run_simulation (set_life_planning lp payload) = run_simulation payload.
Proof.
  intros H. apply run_simulation_set_life_planning. intros st Hst.
  unfold process_events. cbn [life_planning set_life_planning].
  now rewrite H.
Qed.

Lemma events_outside_accumulation_are_ignored_witness :
  run_simulation
    (set_life_planning {[ 26%Z := [reference_purchase] ]}
       (simple_payload 25 26 27 30000 20000))
  = run_simulation (simple_payload 25 26 27 30000 20000).
Proof.
  apply events_outside_accumulation_are_ignored.
  intros a Ha.
  change (age_of (simple_payload 25 26 27 30000 20000)) with 25%Z in Ha.
  change (years_of (simple_payload 25 26 27 30000 20000)) with 1%Z in Ha.
  rewrite lookup_singleton_ne by lia. reflexivity.
Defined.

(** ** A person who starts at or after the retirement age *)

Lemma retirement_month_penniless payload st m :
  penniless st -> penniless (retirement_month payload st m).
Proof.
  intros (Hs & Hb & Hc & Hp & He).
  pose proof (retirement_month_balances payload st m) as Hbal.
  unfold penniless.
  rewrite retirement_month_payment, retirement_month_expense.
  remember (stock_amt (retirement_month payload st m)) as s' eqn:Es.
  remember (bond_amt (retirement_month payload st m)) as b' eqn:Eb.
  remember (cash_amt (retirement_month payload st m)) as c' eqn:Ec.
  clear Es Eb Ec. unfold withdraw in Hbal.
  destruct (Qleb _ (cash_amt st * _)) eqn:E1;
    [|destruct (Qleb _ (cash_amt st * _ + bond_amt st * _)) eqn:E2];
    injection Hbal as -> -> ->;
    try apply Qleb_true in E1; try apply Qleb_false in E1;
    try apply Qleb_true in E2; try apply Qleb_false in E2;
    rewrite ?Hs, ?Hb, ?Hc, ?Hp in *.
  - repeat split; try lra.
  - repeat split; try lra.
  - repeat split; try lra. rewrite Qmax0_nonpos; lra.
Qed.

Lemma retirement_months_penniless payload ms st :
  penniless st -> penniless (fold_left (retirement_month payload) ms st).
Proof.
  revert st. induction ms as [|m ms IH]; intros st H; cbn [fold_left].
  - exact H.
  - now apply IH, retirement_month_penniless.
Qed.

Lemma retirement_year_end_penniless payload st :
  0 <= 1 + inflation_of payload ->
  penniless st -> penniless (retirement_year_end payload st).
Proof.
  intros Hi (Hs & Hb & Hc & Hp & He). unfold penniless.
  cbn [retirement_year_end stock_amt bond_amt cash_amt monthly_house_payment
         monthly_expense].
  repeat split; try assumption.
  - destruct (Qleb (current_debt st) 0); [reflexivity | exact Hp].
  - nra.
Qed.

Lemma retirement_entry_penniless payload j m :
  0 <= 1 + inflation_of payload ->
  penniless (retire (accumulation_phase payload)) ->
  penniless (retirement_entry payload j m).
Proof.
  intros Hi H0. unfold retirement_entry. apply retirement_months_penniless.
  induction j as [|j IH]; [exact H0|].
  rewrite Nat.iter_succ. unfold retirement_year.
  now apply retirement_year_end_penniless, retirement_months_penniless.
Qed.

(** X14. With a retirement age that is not after the starting age there is
    no accumulation, and the balances start at zero whatever the savings:
    for an expense and an inflation factor that are not negative, every
    snapshot records no income, zero balances and zero net worth. *)
Theorem already_retired_has_no_assets (payload : Payload) (j m : nat) :
  (retirement_age_of payload <= age_of payload)%Z ->
  0 <= py_or_Q (ps_monthly_expense (player_status payload)) 0 ->
  0 <= 1 + inflation_of payload ->
  (j < Z.to_nat (years_in_retirement_of payload))%nat ->
  (m < 12)%nat ->
  exists snap,
    res_financial_results (run_simulation payload) !! (12 * j + m)%nat
    = Some snap
    /\ ms_monthly_income snap = 0
    /\ ms_net_worth snap == 0
    /\ ms_stock_investment snap = 0
    /\ ms_bond_investment snap = 0
    /\ ms_cash_investment snap = 0.
Proof.
  intros Hage He Hi Hj Hm.
  assert (Hyears : Z.to_nat (years_of payload) = 0%nat)
    by (unfold years_of; lia).
  assert (H0 : penniless (retire (accumulation_phase payload))).
  { unfold accumulation_phase. rewrite Hyears. cbn [Nat.iter nat_rect].
    repeat split; try reflexivity. exact He. }
  destruct (retirement_entry_penniless payload j (S m) Hi H0)
    as (Hs & Hb & Hc & _).
  eexists. split.
  - replace (12 * j + m)%nat
      with (12 * (Z.to_nat (years_of payload) + j) + m)%nat by lia.
    now apply retirement_entry_snapshot.
  - cbn [ms_monthly_income ms_net_worth ms_stock_investment ms_bond_investment
           ms_cash_investment].
    split; [reflexivity|]. split; [rewrite Hs, Hb, Hc; reflexivity|].
    repeat split; apply Qmax0_nonpos; lra.
Qed.

Lemma already_retired_has_no_assets_witness :
  exists snap,
    res_financial_results (run_simulation (simple_payload 70 65 72 50000 20000))
      !! 13%nat = Some snap
    /\ ms_net_worth snap == 0.
Proof.
  destruct (already_retired_has_no_assets (simple_payload 70 65 72 50000 20000) 1 1)
    as (snap & Hsnap & _ & Hnw & _).
  - discriminate.
  - discriminate.
  - discriminate.
  - vm_compute. lia.
  - lia.
  - exists snap. split; [exact Hsnap | exact Hnw].
Defined.

(** ** Any house purchase: repayment, and the payment after it *)

Lemma apply_event_purchase_owing st price dp rate term :
  0 < price * (1 - dp / 100) -> (0 < term)%Z ->
  owing (price * (1 - dp / 100))
    (price * (1 - dp / 100) / inject_Z (term * 12)) 0
    (apply_event st (house_purchase_event price dp rate term)).
Proof.
  intros HP HT.
  assert (Hprice : Qeq_bool price 0 = false).
  { apply Qeq_bool_false. intros E. rewrite E in HP. lra. }
  unfold owing, apply_event, house_purchase_event, house_data_get.
  cbn [ev_type ev_house_data mbind option_bind hd_house_price
         hd_down_payment_ratio hd_loan_rate hd_loan_years default from_option id
         current_debt monthly_house_payment py_or_Q].
  rewrite Hprice. split.
  - now apply calculate_monthly_payment_pos.
  - change (Z.of_nat 0) with 0%Z. ring.
Qed.

Lemma accumulation_month_paid_off payload gr cr hr st m :
  current_debt st == 0 ->
  current_debt (accumulation_month payload gr cr hr st m) == 0.
Proof.
  intros H. cbn [accumulation_month current_debt].
  assert (E : Qltb 0 (current_debt st) = false) by (apply Qltb_false; lra).
  rewrite E. exact H.
Qed.

Lemma accumulation_months_paid_off payload st m :
  current_debt st == 0 ->
  current_debt (accumulation_months payload st m) == 0.
Proof.
  intros H. unfold accumulation_months.
  destruct (get_allocation_ratios _ _) as [[gr cr] hr].
  generalize (range m). intros ms. revert st H.
  induction ms as [|x ms IH]; intros st H; cbn [fold_left].
  - exact H.
  - now apply IH, accumulation_month_paid_off.
Qed.

Lemma accumulation_year_end_cur_age payload st :
  cur_age (accumulation_year_end payload st) = (cur_age st + 1)%Z.
Proof. reflexivity. Qed.

Section AnyPurchase.
Variable payload : Payload.
Variable A : Z.
Variables price dp rate : Q.
Variable T : Z.
Hypothesis age_le_A : (age_of payload <= A)%Z.
Hypothesis T_pos : (0 < T)%Z.
Hypothesis principal_pos : 0 < price * (1 - dp / 100).
Hypothesis repaid_before_retirement : (A + T < retirement_age_of payload)%Z.
Hypothesis purchase_at_A :
  life_planning payload !! A = Some [house_purchase_event price dp rate T].
Hypothesis no_purchase_until_repaid :
  forall a evs, (A < a <= A + T)%Z -> life_planning payload !! a = Some evs ->
                Forall (fun ev => ev_type ev <> BuyHouse) evs.

Local Abbreviation j0 := (years_until payload A).
Local Abbreviation principal := (price * (1 - dp / 100)).
Local Abbreviation payment := (price * (1 - dp / 100) / inject_Z (T * 12)).
Local Abbreviation N := (Z.to_nat (T * 12)).

Lemma any_payment_positive : 0 < payment.
Proof.
  apply Qlt_shift_div_l; [|lra].
  change 0 with (inject_Z 0). rewrite <- Zlt_Qlt. lia.
Qed.

Lemma any_principal_payments : principal == inject_Z (Z.of_nat N) * payment.
Proof.
  rewrite Z2Nat.id by lia. field.
  change 0 with (inject_Z 0). rewrite inject_Z_injective. lia.
Qed.

Lemma any_year_entry i :
  (i <= Z.to_nat T)%nat ->
  owing principal payment (12 * i) (accumulation_entry payload (j0 + i) 0).
Proof.
  induction i as [|i IH]; intros Hi.
  - rewrite Nat.add_0_r. unfold accumulation_entry.
    rewrite accumulation_months_zero. unfold process_events.
    rewrite accumulation_years_cur_age.
    replace (age_of payload + Z.of_nat j0)%Z with A by (unfold years_until; lia).
    rewrite purchase_at_A. cbn [fold_left].
    now apply apply_event_purchase_owing.
  - replace (j0 + S i)%nat with (S (j0 + i)) by lia.
    rewrite accumulation_entry_next_year.
    assert (Hend : owing principal payment (12 * S i)
                     (accumulation_year_end payload
                        (accumulation_entry payload (j0 + i) 12))).
    { rewrite accumulation_entry_months.
      replace (12 * S i)%nat with (12 * i + 12)%nat by lia.
      apply (accumulation_months_owing payload principal payment N
               any_payment_positive any_principal_payments);
        [lia | apply IH; lia]. }
    rewrite process_events_no_purchase; [exact Hend|].
    intros evs. rewrite accumulation_year_end_cur_age.
    rewrite accumulation_entry_cur_age. apply no_purchase_until_repaid.
    unfold years_until. lia.
Qed.

Lemma any_debt_after k :
  (1 <= k <= 12 * Z.to_nat T)%nat ->
  exists snap,
    res_financial_results (run_simulation payload) !! (12 * j0 + k - 1)%nat
    = Some snap
    /\ ms_debt snap == principal - inject_Z (Z.of_nat k) * payment.
Proof.
  intros Hk.
  pose proof (Nat.div_mod_eq (k - 1) 12) as Hdm.
  pose proof (Nat.mod_upper_bound (k - 1) 12 ltac:(lia)) as Hmod.
  remember ((k - 1) / 12)%nat as i eqn:Ei.
  remember ((k - 1) mod 12)%nat as m eqn:Em. clear Ei Em.
  assert (Hi : (i < Z.to_nat T)%nat) by lia.
  assert (Hyears : (j0 + i < Z.to_nat (years_of payload))%nat)
    by (unfold years_of, years_until; lia).
  eexists. split.
  - replace (12 * j0 + k - 1)%nat with (12 * (j0 + i) + m)%nat by lia.
    now apply accumulation_entry_snapshot.
  - cbn [ms_debt]. rewrite accumulation_entry_months.
    destruct (accumulation_months_owing payload principal payment N
                any_payment_positive any_principal_payments
                (accumulation_entry payload (j0 + i) 0) (12 * i) (S m)
                ltac:(lia) (any_year_entry i ltac:(lia))) as [_ Hdebt].
    rewrite Hdebt. now replace (12 * i + S m)%nat with k by lia.
Qed.

Lemma any_payment_after_payoff m :
  (m < 12)%nat ->
  exists snap,
    res_financial_results (run_simulation payload)
      !! (12 * (j0 + Z.to_nat T) + m)%nat = Some snap
    /\ ms_debt snap == 0
    /\ ms_total_expense snap = ms_monthly_expense snap + payment.
Proof.
  intros Hm.
  assert (Hyears : (j0 + Z.to_nat T < Z.to_nat (years_of payload))%nat)
    by (unfold years_of, years_until; lia).
  destruct (any_year_entry (Z.to_nat T) ltac:(lia)) as [Hpay Hdebt].
  assert (Hzero : current_debt (accumulation_entry payload (j0 + Z.to_nat T) 0) == 0).
  { rewrite Hdebt. replace (12 * Z.to_nat T)%nat with N by lia.
    rewrite <- any_principal_payments. ring. }
  eexists. split; [now apply accumulation_entry_snapshot|].
  cbn [ms_debt ms_total_expense ms_monthly_expense]. split.
  - rewrite accumulation_entry_months. now apply accumulation_months_paid_off.
  - now rewrite accumulation_entry_payment, Hpay.
Qed.
End AnyPurchase.

(** X15. A house bought during accumulation with a positive principal and
    term, and no other purchase until the term is over, is repaid in
    equal instalments: the debt recorded after the [k]-th month is
    principal - k * payment.  The payment is not dropped when the loan is
    repaid: in the year after the last instalment, still in accumulation,
    every month records a debt of zero and a total expense of the monthly
    expense plus the payment. *)
Theorem house_payment_outlasts_the_loan
    (payload : Payload) (A : Z) (price dp rate : Q) (T : Z) :
  (age_of payload <= A)%Z ->
  (0 < T)%Z ->
  0 < price * (1 - dp / 100) ->
  (A + T < retirement_age_of payload)%Z ->
  life_planning payload !! A = Some [house_purchase_event price dp rate T] ->
  (forall a evs, (A < a <= A + T)%Z -> life_planning payload !! a = Some evs ->
                 Forall (fun ev => ev_type ev <> BuyHouse) evs) ->
  let j0 := years_until payload A in
  let principal := price * (1 - dp / 100) in
  let payment := principal / inject_Z (T * 12) in
  (forall k, (1 <= k <= 12 * Z.to_nat T)%nat ->
     exists snap,
       res_financial_results (run_simulation payload) !! (12 * j0 + k - 1)%nat
       = Some snap
       /\ ms_debt snap == principal - inject_Z (Z.of_nat k) * payment)
  /\ (forall m, (m < 12)%nat ->
        exists snap,
          res_financial_results (run_simulation payload)
            !! (12 * (j0 + Z.to_nat T) + m)%nat = Some snap
          /\ ms_debt snap == 0
          /\ ms_total_expense snap = ms_monthly_expense snap + payment).
Proof.
  intros H1 H2 H3 H4 H5 H6 j0 principal payment. split.
  - intros k Hk.
    exact (any_debt_after payload A price dp rate T H1 H2 H3 H4 H5 H6 k Hk).
  - intros m Hm.
    exact (any_payment_after_payoff payload A price dp rate T
             H1 H2 H3 H4 H5 H6 m Hm).
Qed.

Lemma house_payment_outlasts_the_loan_witness :
  exists snap,
    res_financial_results (run_simulation short_loan_payload) !! 36%nat = Some snap
    /\ ms_debt snap == 0
    /\ ms_total_expense snap
       = ms_monthly_expense snap + 1200000 * (1 - 20 / 100) / inject_Z (2 * 12).
Proof.
  destruct (house_payment_outlasts_the_loan short_loan_payload 31 1200000 20 0.03 2)
    as [_ Hafter].
  - discriminate.
  - reflexivity.
  - reflexivity.
  - reflexivity.
  - reflexivity.
  - intros a evs Ha H. unfold short_loan_payload in H. cbn [life_planning] in H.
    rewrite lookup_singleton_ne in H by lia. discriminate H.
  - destruct (Hafter 0%nat ltac:(lia)) as (snap & Hsnap & Hdebt & Hexp).
    exists snap. split; [exact Hsnap | split; [exact Hdebt | exact Hexp]].
Defined.

(** ** The house payment in retirement *)

Lemma retirement_year_end_payment payload st :
  monthly_house_payment (retirement_year_end payload st)
  = if Qleb (current_debt st) 0 then 0 else monthly_house_payment st.
Proof. reflexivity. Qed.

Lemma retirement_entry_payment_next payload j m :
  monthly_house_payment (retirement_entry payload (S j) m)
  = if Qleb (current_debt (retirement_entry payload j 12)) 0 then 0
    else monthly_house_payment (retirement_entry payload j 11).
Proof.
  rewrite (retirement_entry_payment payload (S j) m).
  rewrite retirement_entry_next_year, retirement_year_end_payment.
  rewrite (retirement_entry_payment payload j 12).
  now rewrite (retirement_entry_payment payload j 11).
Qed.

Lemma payment_follows_debt (d p e e' : Q) :
  (d <= 0 -> e + (if Qleb d 0 then 0 else p) == e)
  /\ (0 < d -> e + (if Qleb d 0 then 0 else p) - e == e' + p - e').
Proof.
  destruct (Qleb d 0) eqn:E.
  - apply Qleb_true in E. split; intros H; [ring | lra].
  - apply Qleb_false in E. split; intros H; [lra | ring].
Qed.

(** X16. In retirement the house payment follows the debt, year by year: if
    the December snapshot of a retirement year shows no debt, every month
    of the next year is charged the living expense alone; if it shows a
    debt, every month of the next year is charged the same house payment
    on top of the living expense as that December. *)
Theorem retirement_payment_follows_the_debt (payload : Payload) (j m : nat) :
  (S j < Z.to_nat (years_in_retirement_of payload))%nat ->
  (m < 12)%nat ->
  exists december snap,
    res_financial_results (run_simulation payload)
      !! (12 * (Z.to_nat (years_of payload) + j) + 11)%nat = Some december
    /\ res_financial_results (run_simulation payload)
         !! (12 * (Z.to_nat (years_of payload) + S j) + m)%nat = Some snap
    /\ (ms_debt december <= 0 ->
        ms_total_expense snap == ms_monthly_expense snap)
    /\ (0 < ms_debt december ->
        ms_total_expense snap - ms_monthly_expense snap
        == ms_total_expense december - ms_monthly_expense december).
Proof.
  intros Hj Hm. do 2 eexists.
  split; [apply retirement_entry_snapshot; lia|].
  split; [apply retirement_entry_snapshot; [exact Hj | exact Hm]|].
  cbn [ms_debt ms_total_expense ms_monthly_expense].
  rewrite retirement_entry_payment_next.
  exact (payment_follows_debt
           (current_debt (retirement_entry payload j 12))
           (monthly_house_payment (retirement_entry payload j 11))
           (monthly_expense (retirement_entry payload (S j) m))
           (monthly_expense (retirement_entry payload j 11))).
Qed.

Lemma retirement_payment_follows_the_debt_witness :
  exists december snap,
    res_financial_results (run_simulation (simple_payload 30 31 35 50000 20000))
      !! 23%nat = Some december
    /\ res_financial_results (run_simulation (simple_payload 30 31 35 50000 20000))
         !! 24%nat = Some snap
    /\ (ms_debt december <= 0 ->
        ms_total_expense snap == ms_monthly_expense snap).
Proof.
  destruct (retirement_payment_follows_the_debt
              (simple_payload 30 31 35 50000 20000) 0 0)
    as (december & snap & Hdec & Hsnap & Hpaid & _).
  - vm_compute. lia.
  - lia.
  - exists december, snap.
    split; [exact Hdec | split; [exact Hsnap | exact Hpaid]].
Defined.

(** ** The engine against the manual check of the smoke test *)

Lemma all_cash_ratio (g c h : Q) :
  g == 0 -> c == 0 ->
  ratios_eq (if Qleb (g + c + h) 0 then (0, 0, 1)
             else (g / (g + c + h), c / (g + c + h), h / (g + c + h)))
            (0, 0, 1).
Proof.
  intros Hg Hc. destruct (Qleb (g + c + h) 0) eqn:E.
  - repeat split; reflexivity.
  - apply Qleb_false in E. unfold ratios_eq. cbn [fst snd].
    assert (Ht : g + c + h == h) by lra.
    rewrite Ht. rewrite Ht in E. rewrite Hg, Hc.
    repeat split; field; lra.
Qed.

Lemma no_growth_or_bonds_ratios age invest :
  no_growth_or_bonds invest ->
  ratios_eq (get_allocation_ratios age invest) (0, 0, 1).
Proof.
  intros (H1 & H2 & H3 & H4 & H5 & H6). unfold get_allocation_ratios.
  destruct (age <=? 40)%Z; [|destruct (age <=? 55)%Z];
    now apply all_cash_ratio.
Qed.

Lemma accumulation_month_saving_cash payload gr cr hr st m inc exp tot :
  gr == 0 -> cr == 0 -> hr == 1 -> cash_return_of payload == 0 ->
  saving_cash inc exp tot st ->
  saving_cash inc exp (tot + (inc - exp))
    (accumulation_month payload gr cr hr st m).
Proof.
  intros Hg Hc Hh Hr (Hi & He & Hp & Hs & Hb & Hcash).
  unfold saving_cash.
  cbn [accumulation_month monthly_income monthly_expense monthly_house_payment
         stock_amt bond_amt cash_amt].
  rewrite Hi, He, Hp, Hs, Hb, Hcash, Hg, Hc, Hh, Hr.
  repeat split; try reflexivity; field.
Qed.

Lemma accumulation_months_saving_cash payload st m inc exp tot :
  no_growth_or_bonds (investment_config payload) ->
  cash_return_of payload == 0 ->
  saving_cash inc exp tot st ->
  saving_cash inc exp (tot + inject_Z (Z.of_nat m) * (inc - exp))
    (accumulation_months payload st m).
Proof.
  intros Hw Hr Hst. induction m as [|m IH].
  - rewrite accumulation_months_zero. change (Z.of_nat 0) with 0%Z.
    destruct Hst as (Hi & He & Hp & Hs & Hb & Hcash).
    repeat split; try assumption. rewrite Hcash. ring.
  - pose proof (no_growth_or_bonds_ratios (cur_age st) _ Hw) as Hratios.
    destruct (get_allocation_ratios (cur_age st) (investment_config payload))
      as [[gr cr] hr] eqn:E.
    destruct Hratios as (Hg & Hc & Hh). cbn [fst snd] in Hg, Hc, Hh.
    rewrite (accumulation_months_succ _ _ _ _ _ _ E).
    pose proof (accumulation_month_saving_cash payload gr cr hr _ (Z.of_nat m)
                  inc exp _ Hg Hc Hh Hr IH) as (Hi & He & Hp & Hs & Hb & Hcash).
    repeat split; try assumption. rewrite Hcash.
    rewrite Nat2Z.inj_succ. unfold Z.succ. rewrite inject_Z_plus. ring.
Qed.

Lemma accumulation_year_end_saving_cash payload st inc exp tot :
  saving_cash inc exp tot st ->
  saving_cash
    (inc * (1 + default 0 (sc_young_growth_rate (salary_config payload))))
    (exp * (1 + inflation_of payload)) tot
    (accumulation_year_end payload st).
Proof.
  intros (Hi & He & Hp & Hs & Hb & Hcash). unfold saving_cash.
  cbn [accumulation_year_end monthly_income monthly_expense
         monthly_house_payment stock_amt bond_amt cash_amt].
  rewrite Hi, He. repeat split; try assumption; reflexivity.
Qed.

Lemma manual_check_of_succ payload n :
  manual_check_of payload (S n)
  = manual_check_year (inflation_of payload)
      (default 0 (sc_young_growth_rate (salary_config payload)))
      (cash_return_of payload) (manual_check_of payload n).
Proof. unfold manual_check_of, manual_check. now rewrite Nat.iter_succ. Qed.

Lemma manual_check_year_total inflation salary_growth cash_return s :
  cash_return == 0 ->
  mc_total_savings (manual_check_year inflation salary_growth cash_return s)
  == mc_total_savings s
     + inject_Z (Z.of_nat 12) * (mc_monthly_income s - mc_monthly_expense s).
Proof.
  intros Hr. cbn [manual_check_year mc_total_savings]. rewrite Hr.
  change (inject_Z (Z.of_nat 12)) with 12. ring.
Qed.

Section CashOnly.
Variable payload : Payload.
Hypothesis cash_only : no_growth_or_bonds (investment_config payload).
Hypothesis no_cash_return : cash_return_of payload == 0.
Hypothesis no_purchase :
  forall a evs, life_planning payload !! a = Some evs ->
                Forall (fun ev => ev_type ev <> BuyHouse) evs.

Lemma cash_only_year_entry j :
  saving_cash (mc_monthly_income (manual_check_of payload j))
    (mc_monthly_expense (manual_check_of payload j))
    (mc_total_savings (manual_check_of payload j))
    (accumulation_entry payload j 0).
Proof.
  induction j as [|j IH].
  - unfold accumulation_entry. rewrite accumulation_months_zero.
    rewrite process_events_no_purchase by (intros evs; apply no_purchase).
    repeat split; reflexivity.
  - rewrite accumulation_entry_next_year.
    rewrite process_events_no_purchase by (intros evs; apply no_purchase).
    rewrite accumulation_entry_months.
    pose proof (accumulation_year_end_saving_cash payload _ _ _ _
                  (accumulation_months_saving_cash payload _ 12 _ _ _
                     cash_only no_cash_return IH))
      as (Hi & He & Hp & Hs & Hb & Hcash).
    rewrite manual_check_of_succ.
    repeat split; try assumption.
    rewrite Hcash. symmetry. now apply manual_check_year_total.
Qed.

Lemma cash_only_year_close j :
  saving_cash (mc_monthly_income (manual_check_of payload j))
    (mc_monthly_expense (manual_check_of payload j))
    (mc_total_savings (manual_check_of payload (S j)))
    (accumulation_entry payload j 12).
Proof.
  rewrite accumulation_entry_months.
  pose proof (accumulation_months_saving_cash payload _ 12 _ _ _
                cash_only no_cash_return (cash_only_year_entry j))
    as (Hi & He & Hp & Hs & Hb & Hcash).
  repeat split; try assumption.
  rewrite Hcash, manual_check_of_succ. symmetry.
  now apply manual_check_year_total.
Qed.
End CashOnly.

(** X17. With no weight on growth or conservative assets, a cash return of 0
    and no house purchase, the engine agrees with the manual check of the
    smoke test: the record of accumulation year [j] holds in cash, and as
    net worth, the total the manual loop reaches after [j + 1] passes,
    and nothing in stocks or bonds; its income and expense are those the
    manual loop had on entry to that pass. *)
Theorem engine_agrees_with_manual_check (payload : Payload) (j : nat) :
  no_growth_or_bonds (investment_config payload) ->
  cash_return_of payload == 0 ->
  (forall a evs, life_planning payload !! a = Some evs ->
                 Forall (fun ev => ev_type ev <> BuyHouse) evs) ->
  (j < Z.to_nat (years_of payload))%nat ->
  exists ye,
    simulation_results (run_simulation payload)
      !! (age_of payload + Z.of_nat j)%Z = Some ye
    /\ ye_cash_investment ye == mc_total_savings (manual_check_of payload (S j))
    /\ ye_net_worth ye == mc_total_savings (manual_check_of payload (S j))
    /\ ye_stock_investment ye == 0
    /\ ye_bond_investment ye == 0
    /\ ye_monthly_income ye == mc_monthly_income (manual_check_of payload j)
    /\ ye_monthly_expense ye == mc_monthly_expense (manual_check_of payload j).
Proof.
  intros Hw Hr Hev Hj.
  destruct (cash_only_year_close payload Hw Hr Hev j)
    as (Hi & He & Hp & Hs & Hb & Hcash).
  eexists. split; [apply (retirement_years_lookup_accumulation payload _ j Hj)|].
  cbn [ye_of_accumulation ye_cash_investment ye_net_worth ye_stock_investment
         ye_bond_investment ye_monthly_income ye_monthly_expense].
  rewrite Hs, Hb, Hcash, Hi, He.
  repeat split; try reflexivity; ring.
Qed.

Lemma engine_agrees_with_manual_check_witness :
  exists ye,
    simulation_results (run_simulation smoke_test_payload)
      !! (age_of smoke_test_payload + Z.of_nat 39)%Z = Some ye
    /\ ye_cash_investment ye
       == mc_total_savings (manual_check_of smoke_test_payload 40).
Proof.
  destruct (engine_agrees_with_manual_check smoke_test_payload 39)
    as (ye & Hye & Hcash & _).
  - repeat split; reflexivity.
  - reflexivity.
  - intros a evs H. unfold smoke_test_payload in H. cbn [life_planning] in H.
    rewrite lookup_empty in H. discriminate H.
  - vm_compute. lia.
  - exists ye. split; [exact Hye | exact Hcash].
Defined.

(** ** The narrative of the evaluator *)

Lemma py_pow_Some b n p : py_pow b n = Some p -> p = b ^ n.
Proof.
  unfold py_pow. destruct (Qeq_bool b 0 && (n <? 0)%Z); [discriminate|].
  now intros [= <-].
Qed.

Lemma narrates_growing sr fp ft ach age target :
  calculate_growing_annuity_present_value
    (future_expense fp age) (fp_life_expectancy fp - age)
    (fp_conservative fp) (fp_inflation fp) = Some target ->
  target <= net_worth_at sr age ->
  narrates sr fp None ft ach ->
  narrates sr fp (Some age) ft
    (ach ++ [GrowingAchieved age target (net_worth_at sr age)]).
Proof.
  intros Epv Eg (HG & HT & HgE & HtE & Hlen). unfold narrates.
  rewrite length_app. cbn [length found] in *.
  split; [|split; [|split; [|split]]].
  - intros a t nw [Hin|Hin%list_elem_of_singleton]%elem_of_app.
    + now destruct (HG a t nw Hin).
    + now injection Hin as -> -> ->.
  - intros a t nw [Hin|Hin%list_elem_of_singleton]%elem_of_app.
    + now apply HT.
    + discriminate Hin.
  - intros a [= <-]. exists target, (net_worth_at sr age).
    apply elem_of_app. right. now apply list_elem_of_singleton.
  - intros a Ha. destruct (HtE a Ha) as (t & nw & Hin).
    exists t, nw. apply elem_of_app. now left.
  - lia.
Qed.

Lemma narrates_traditional sr fp fg ach age :
  future_expense fp age * 25 <= net_worth_at sr age ->
  narrates sr fp fg None ach ->
  narrates sr fp fg (Some age)
    (ach ++ [TraditionalAchieved age (future_expense fp age * 25)
               (net_worth_at sr age)]).
Proof.
  intros Et (HG & HT & HgE & HtE & Hlen). unfold narrates.
  rewrite length_app. cbn [length found] in *.
  split; [|split; [|split; [|split]]].
  - intros a t nw [Hin|Hin%list_elem_of_singleton]%elem_of_app.
    + now apply HG.
    + discriminate Hin.
  - intros a t nw [Hin|Hin%list_elem_of_singleton]%elem_of_app.
    + now destruct (HT a t nw Hin).
    + now injection Hin as -> -> ->.
  - intros a Ha. destruct (HgE a Ha) as (t & nw & Hin).
    exists t, nw. apply elem_of_app. now left.
  - intros a [= <-]. exists (future_expense fp age * 25), (net_worth_at sr age).
    apply elem_of_app. right. now apply list_elem_of_singleton.
  - lia.
Qed.

Lemma check_age_narrates sr fp result age result' :
  check_age sr fp result age = Some result' ->
  narrates sr fp (fire_age_growing result) (fire_age_traditional result)
    (achievements result) ->
  narrates sr fp (fire_age_growing result') (fire_age_traditional result')
    (achievements result').
Proof.
  unfold check_age. fold (net_worth_at sr age).
  destruct (fp_life_expectancy fp - age <=? 0)%Z; [now intros [= <-]|].
  destruct (py_pow (1 + fp_inflation fp) (age - fp_current_age fp))
    as [power|] eqn:Epow; cbn [mbind option_bind]; [|discriminate].
  apply py_pow_Some in Epow. subst power. fold (future_expense fp age).
  destruct (calculate_growing_annuity_present_value (future_expense fp age)
              (fp_life_expectancy fp - age) (fp_conservative fp)
              (fp_inflation fp)) as [target|] eqn:Epv;
    cbn [mbind option_bind]; [|discriminate].
  destruct result as [fg ft tg tt rs ach].
  cbn [fire_age_growing fire_age_traditional achievements].
  destruct (Qleb target (net_worth_at sr age)) eqn:Eg;
    destruct (Qleb (future_expense fp age * 25) (net_worth_at sr age)) eqn:Et;
    try apply Qleb_true in Eg; try apply Qleb_true in Et;
    destruct fg as [ag|], ft as [at_|];
    cbn [fire_age_growing fire_age_traditional achievements];
    intros [= <-] Hinv;
    cbn [fire_age_growing fire_age_traditional achievements];
    first [ exact Hinv
          | now apply narrates_growing
          | now apply narrates_traditional
          | now apply narrates_traditional, narrates_growing ].
Qed.

Lemma scan_ages_narrates sr fp ages : forall result result',
  scan_ages sr fp ages result = Some result' ->
  narrates sr fp (fire_age_growing result) (fire_age_traditional result)
    (achievements result) ->
  narrates sr fp (fire_age_growing result') (fire_age_traditional result')
    (achievements result').
Proof.
  induction ages as [|age rest IH]; intros result result'; cbn [scan_ages].
  - now intros [= <-].
  - destruct (check_age sr fp result age) as [r1|] eqn:E; [|discriminate].
    cbn [mbind option_bind]. intros Hscan Hinv.
    apply (IH r1 result' Hscan). now apply (check_age_narrates sr fp result age).
Qed.

(** X18. The narrative agrees with the achievement ages.  Whenever the
    evaluator returns, an entry of [achievements] for a formula names
    that formula's achievement age, the formula's target at that age and
    the net worth recorded at that age, and the net worth reaches the
    target; each achievement age that is not null has its entry; and
    there are exactly as many entries as achievement ages. *)
Theorem achievements_match_fire_ages
    (sr : gmap Z YearEnd) (ps : PlayerStatus) (ic : InvestmentConfig)
    (result : FireResult) :
  check_fire_achievement sr ps ic = Some result ->
  let fp := fire_params ps ic in
  (forall a t nw, GrowingAchieved a t nw ∈ achievements result ->
     fire_age_growing result = Some a
     /\ calculate_growing_annuity_present_value
          (future_expense fp a) (fp_life_expectancy fp - a)
          (fp_conservative fp) (fp_inflation fp) = Some t
     /\ t <= nw /\ nw = net_worth_at sr a)
  /\ (forall a t nw, TraditionalAchieved a t nw ∈ achievements result ->
        fire_age_traditional result = Some a
        /\ t = future_expense fp a * 25
        /\ t <= nw /\ nw = net_worth_at sr a)
  /\ (forall a, fire_age_growing result = Some a ->
        exists t nw, GrowingAchieved a t nw ∈ achievements result)
  /\ (forall a, fire_age_traditional result = Some a ->
        exists t nw, TraditionalAchieved a t nw ∈ achievements result)
  /\ length (achievements result)
     = (found (fire_age_growing result)
        + found (fire_age_traditional result))%nat.
Proof.
  intros H fp. unfold check_fire_achievement in H. fold fp in H.
  destruct (headline_targets sr fp) as [[tg tt]|]; [|discriminate].
  cbn [mbind option_bind] in H.
  match type of H with
  | context [scan_ages sr fp (sorted_ages sr) ?r0] =>
      destruct (scan_ages sr fp (sorted_ages sr) r0) as [r|] eqn:Escan;
        [|discriminate];
      pose proof (scan_ages_narrates sr fp _ r0 r Escan) as Hinv
  end.
  cbn [mbind option_bind] in H. injection H as <-.
  cbn [fire_age_growing fire_age_traditional achievements] in *.
  apply Hinv. unfold narrates.
  repeat split; try (intros; exfalso; eapply elem_of_nil; eassumption);
    intros; discriminate.
Qed.

Lemma achievements_match_fire_ages_witness :
  exists result,
    check_fire_achievement sample_results sample_player empty_investment_config
    = Some result
    /\ length (achievements result)
       = (found (fire_age_growing result)
          + found (fire_age_traditional result))%nat.
Proof.
  destruct (check_fire_achievement sample_results sample_player
              empty_investment_config) as [result|] eqn:E.
  - exists result. split; [reflexivity|].
    destruct (achievements_match_fire_ages _ _ _ result E)
      as (_ & _ & _ & _ & Hlen).
    exact Hlen.
  - vm_compute in E. discriminate E.
Defined.

(** ** The retirement summary of the evaluator *)

Lemma check_age_targets sr fp result age result' :
  check_age sr fp result age = Some result' ->
  fire_target_growing result' = fire_target_growing result
  /\ fire_target_traditional result' = fire_target_traditional result.
Proof.
  unfold check_age.
  destruct (fp_life_expectancy fp - age <=? 0)%Z; [now intros [= <-]|].
  destruct (py_pow _ _) as [power|]; cbn [mbind option_bind]; [|discriminate].
  destruct (calculate_growing_annuity_present_value _ _ _ _) as [target|];
    cbn [mbind option_bind]; [|discriminate].
  destruct result as [fg ft tg tt rs ach].
  cbn [fire_age_growing fire_age_traditional].
  destruct fg, ft; cbn [fire_age_growing fire_age_traditional];
    repeat match goal with
           | |- context [if ?c then _ else _] =>
               destruct c; cbn [fire_age_growing fire_age_traditional]
           end;
    now intros [= <-].
Qed.

Lemma scan_ages_targets sr fp ages : forall result result',
  scan_ages sr fp ages result = Some result' ->
  fire_target_growing result' = fire_target_growing result
  /\ fire_target_traditional result' = fire_target_traditional result.
Proof.
  induction ages as [|age rest IH]; intros result result'; cbn [scan_ages].
  - now intros [= <-].
  - destruct (check_age sr fp result age) as [r1|] eqn:E;
      cbn [mbind option_bind]; [|discriminate].
    intros Hscan. destruct (IH r1 result' Hscan) as [-> ->].
    now apply (check_age_targets sr fp result age).
Qed.

Lemma four_percent_rule (net_worth annual_expense : Q) :
  annual_expense <= net_worth * 0.04 <-> annual_expense * 25 <= net_worth.
Proof. split; intros H; lra. Qed.

(** X19. The retirement summary and the headline targets.  Whenever the
    evaluator returns, the summary is missing exactly when the retirement
    age is not a simulated age.  When it is there, it is about the
    retirement age and the net worth recorded at that age; the headline
    25x target is 25 times its annual expense, the headline
    growing-annuity target is the present value of that annual expense
    over the years from the retirement age to the life expectancy, and
    its safe withdrawal of 4% covers its annual expense exactly when its
    net worth reaches the headline 25x target.  When it is missing, the
    headline targets are the two projections from the current expense. *)
Theorem retirement_status_and_headline_targets
    (sr : gmap Z YearEnd) (ps : PlayerStatus) (ic : InvestmentConfig)
    (result : FireResult) :
  check_fire_achievement sr ps ic = Some result ->
  let fp := fire_params ps ic in
  (retirement_status result = None <-> fp_retirement_age fp ∉ dom sr)
  /\ (forall rs, retirement_status result = Some rs ->
        rs_age rs = fp_retirement_age fp
        /\ rs_net_worth rs = net_worth_at sr (fp_retirement_age fp)
        /\ fire_target_traditional result = rs_annual_expense rs * 25
        /\ calculate_growing_annuity_present_value (rs_annual_expense rs)
             (Z.max 0 (fp_life_expectancy fp - fp_retirement_age fp))
             (fp_conservative fp) (fp_inflation fp)
           = Some (fire_target_growing result)
        /\ (rs_annual_expense rs <= rs_safe_withdrawal rs
            <-> fire_target_traditional result <= rs_net_worth rs))
  /\ (retirement_status result = None ->
        calculate_retirement_target_growing_annuity
          (fp_current_monthly_expense fp) (fp_current_age fp)
          (fp_retirement_age fp) (fp_life_expectancy fp)
          (fp_inflation fp) (fp_conservative fp)
        = Some (fire_target_growing result)
        /\ calculate_retirement_target_traditional_25x
             (fp_current_monthly_expense fp) (fp_current_age fp)
             (fp_retirement_age fp) (fp_inflation fp)
           = Some (fire_target_traditional result)).
Proof.
  intros H fp. unfold check_fire_achievement in H. fold fp in H.
  unfold headline_targets in H. unfold net_worth_at.
  rewrite not_elem_of_dom.
  destruct (sr !! fp_retirement_age fp) as [data|] eqn:Edata.
  - destruct (calculate_growing_annuity_present_value _ _ _ _) as [tg|] eqn:Epv;
      cbn [mbind option_bind] in H; [|discriminate].
    destruct (scan_ages _ _ _ _) as [r|] eqn:Escan;
      cbn [mbind option_bind] in H; [|discriminate].
    apply scan_ages_targets in Escan as [Hg Ht].
    cbn [fire_target_growing fire_target_traditional] in Hg, Ht.
    injection H as <-. cbn [retirement_status fire_target_growing
                              fire_target_traditional].
    split; [split; discriminate|]. split; [|discriminate].
    intros rs [= <-].
    cbn [rs_age rs_net_worth rs_annual_expense rs_safe_withdrawal from_option].
    rewrite Hg, Ht. repeat split; try reflexivity; try exact Epv;
      apply four_percent_rule.
  - destruct (calculate_retirement_target_growing_annuity _ _ _ _ _ _)
      as [tg|] eqn:Eg; cbn [mbind option_bind] in H; [|discriminate].
    destruct (calculate_retirement_target_traditional_25x _ _ _ _)
      as [tt|] eqn:Et; cbn [mbind option_bind] in H; [|discriminate].
    destruct (scan_ages _ _ _ _) as [r|] eqn:Escan;
      cbn [mbind option_bind] in H; [|discriminate].
    apply scan_ages_targets in Escan as [Hg Ht].
    cbn [fire_target_growing fire_target_traditional] in Hg, Ht.
    injection H as <-. cbn [retirement_status fire_target_growing
                              fire_target_traditional].
    split; [split; reflexivity|]. split; [discriminate|].
    intros _. now rewrite Hg, Ht.
Qed.

Lemma retirement_status_and_headline_targets_witness :
  exists result,
    check_fire_achievement sample_results sample_player empty_investment_config
    = Some result
    /\ (retirement_status result = None
        <-> fp_retirement_age (fire_params sample_player empty_investment_config)
            ∉ dom sample_results).
Proof.
  destruct (check_fire_achievement sample_results sample_player
              empty_investment_config) as [result|] eqn:E.
  - exists result. split; [reflexivity|].
    destruct (retirement_status_and_headline_targets _ _ _ result E)
      as (Hnone & _).
    exact Hnone.
  - vm_compute in E. discriminate E.
Defined.

(** ** Life-planning endpoints of the backend *)

Lemma add_life_event_insert event lp :
  add_life_event event lp
  = <[ler_age event := events_at lp (ler_age event) ++ [event_data event]]> lp.
Proof.
  unfold add_life_event, events_at. apply map_eq. intros a.
  destruct (decide (a = ler_age event)) as [->|Hne].
  - rewrite lookup_insert_eq, lookup_alter_eq.
    destruct (lp !! ler_age event) as [events|] eqn:E.
    + now rewrite E.
    + now rewrite lookup_insert_eq.
  - rewrite lookup_insert_ne, lookup_alter_ne by congruence.
    destruct (lp !! ler_age event); [reflexivity|].
    now rewrite lookup_insert_ne by congruence.
Qed.

Lemma add_life_event_no_empty_list event lp :
  no_empty_list lp -> no_empty_list (add_life_event event lp).
Proof.
  intros H age events. rewrite add_life_event_insert.
  destruct (decide (age = ler_age event)) as [->|Hne].
  - rewrite lookup_insert_eq. intros [= <-].
    now destruct (events_at lp (ler_age event)).
  - rewrite lookup_insert_ne by congruence. apply H.
Qed.

Lemma delete_life_event_no_empty_list req lp lp' removed :
  delete_life_event req lp = inr (lp', removed) ->
  no_empty_list lp -> no_empty_list lp'.
Proof.
  unfold delete_life_event.
  destruct (lp !! dr_age req) as [events|]; [|discriminate].
  destruct (_ || _); [discriminate|].
  destruct (py_pop _ events) as [[r events']|]; [|discriminate].
  intros [= <- <-] H age evs.
  destruct events' as [|e events'].
  - destruct (decide (age = dr_age req)) as [->|Hne].
    + now rewrite lookup_delete_eq.
    + rewrite lookup_delete_ne, lookup_insert_ne by congruence. apply H.
  - destruct (decide (age = dr_age req)) as [->|Hne].
    + rewrite lookup_insert_eq. now intros [= <-].
    + rewrite lookup_insert_ne by congruence. apply H.
Qed.

Lemma update_life_event_no_empty_list req lp lp' event :
  update_life_event req lp = inr (lp', event) ->
  no_empty_list lp -> no_empty_list lp'.
Proof.
  unfold update_life_event.
  destruct (lp !! ur_age req) as [events|] eqn:E; [|discriminate].
  destruct (_ || _); [discriminate|].
  destruct (events !! Z.to_nat (ur_index req)) as [ev|] eqn:Eev; [|discriminate].
  intros [= <- <-] H age evs.
  destruct (decide (age = ur_age req)) as [->|Hne].
  - rewrite lookup_insert_eq. intros [= <-] Hnil.
    apply (f_equal length) in Hnil. rewrite length_insert in Hnil.
    apply (H _ _ E). now destruct events.
  - rewrite lookup_insert_ne by congruence. apply H.
Qed.

Lemma api_step_no_empty_list lp call :
  no_empty_list lp -> no_empty_list (api_step lp call).
Proof.
  intros H. destruct call as [event|req|req| |]; cbn [api_step].
  - now apply add_life_event_no_empty_list.
  - destruct (delete_life_event req lp) as [e|[lp' removed]] eqn:E; [exact H|].
    now apply (delete_life_event_no_empty_list req lp lp' removed).
  - destruct (update_life_event req lp) as [e|[lp' event]] eqn:E; [exact H|].
    now apply (update_life_event_no_empty_list req lp lp' event).
  - intros age events. unfold clear_all_planning. now rewrite lookup_empty.
  - intros age events. unfold restart_tool. now rewrite lookup_empty.
Qed.

Lemma api_run_no_empty_list calls : no_empty_list (api_run calls).
Proof.
  unfold api_run.
  assert (H : no_empty_list (∅ : LifePlanning))
    by (intros age events; now rewrite lookup_empty).
  revert H. generalize (∅ : LifePlanning).
  induction calls as [|call calls IH]; intros lp H; cbn [fold_left].
  - exact H.
  - now apply IH, api_step_no_empty_list.
Qed.

(** X20. Whatever the calls made on a fresh state, no age of the planning
    holds an empty list of events: the board shows an age as planned
    exactly when the age is a key of the planning. *)
Theorem life_planning_has_no_empty_list (calls : list ApiCall) (age : Z) :
  (forall events, api_run calls !! age = Some events -> events <> [])
  /\ (has_planning (api_run calls) age = true <-> age ∈ dom (api_run calls)).
Proof.
  pose proof (api_run_no_empty_list calls) as H. split.
  - intros events. apply H.
  - unfold has_planning. rewrite elem_of_dom.
    destruct (api_run calls !! age) as [events|] eqn:E.
    + split; [now eexists|]. intros _. apply Nat.ltb_lt.
      specialize (H age events E). destruct events; [congruence|cbn; lia].
    + split; [discriminate|]. now intros [? [=]].
Qed.

(** X21. Adding an event and then deleting the last event of its age gives
    back the planning as it was, and the deleted event is the stored form
    of the one added, provided no age was planned with an empty list. *)
Theorem add_then_delete_life_event (event : LifeEventRequest) (lp : LifePlanning) :
  no_empty_list lp ->
  delete_life_event
    {| dr_age := ler_age event;
       dr_index := Z.of_nat (length (events_at lp (ler_age event))) |}
    (add_life_event event lp)
  = inr (lp, event_data event).
Proof.
  intros H. rewrite add_life_event_insert. unfold delete_life_event.
  cbn [dr_age dr_index]. rewrite lookup_insert_eq.
  set (events := events_at lp (ler_age event)).
  rewrite length_app. cbn [length].
  destruct (Z.ltb_spec (Z.of_nat (length events)) 0); [lia|].
  destruct (Z.leb_spec (Z.of_nat (length events + 1)) (Z.of_nat (length events)));
    [lia|].
  cbn [orb]. rewrite Nat2Z.id. unfold py_pop.
  rewrite list_lookup_middle by reflexivity. cbn [mbind option_bind].
  replace (delete (length events) (events ++ [event_data event])) with events.
  2:{ rewrite delete_middle. now rewrite app_nil_r. }
  rewrite insert_insert_eq. f_equal. f_equal.
  subst events. unfold events_at.
  destruct (lp !! ler_age event) as [evs|] eqn:E; cbn [default from_option id].
  - destruct evs as [|e evs]; [now destruct (H _ _ E)|].
    now apply insert_id.
  - rewrite delete_insert_eq. now apply delete_id.
Qed.

Lemma add_then_delete_life_event_witness :
  delete_life_event {| dr_age := 30%Z; dr_index := 0%Z |}
    (add_life_event travel_request ∅)
  = inr (∅, event_data travel_request).
Proof.
  assert (H : no_empty_list (∅ : LifePlanning)).
  { intros age events H. rewrite lookup_empty in H. discriminate H. }
  pose proof (add_then_delete_life_event travel_request ∅ H) as E.
  unfold events_at in E. rewrite lookup_empty in E. exact E.
Defined.

Lemma index_in_range (idx : Z) (n : nat) :
  (idx <? 0)%Z || (Z.of_nat n <=? idx)%Z = false
  <-> (0 <= idx < Z.of_nat n)%Z.
Proof.
  destruct (Z.ltb_spec idx 0), (Z.leb_spec (Z.of_nat n) idx); cbn [orb];
    split; intros; try discriminate; try reflexivity; lia.
Qed.

(** X22. The two handlers that take an index fail alike: with 404 when the age
    is not planned, with 400 when the index is not that of an event of
    the age, and in no other case and no other way.  A deletion that
    succeeds returns the event at the index and leaves the other events
    of the age, in order, and every other age as it was; an update that
    succeeds keeps the ages and writes the returned event at the index;
    an update that names no field changes nothing. *)
Theorem delete_and_update_life_event_outcomes
    (lp : LifePlanning) (age idx : Z)
    (event_type : option string) (amount : option Q) (description : option string) :
  let dreq := {| dr_age := age; dr_index := idx |} in
  let ureq := {| ur_age := age; ur_index := idx; ur_event_type := event_type;
                 ur_amount := amount; ur_description := description |} in
  (age ∉ dom lp ->
     delete_life_event dreq lp = inl (HTTPException 404)
     /\ update_life_event ureq lp = inl (HTTPException 404))
  /\ (age ∈ dom lp ->
      ~ (0 <= idx < Z.of_nat (length (events_at lp age)))%Z ->
      delete_life_event dreq lp = inl (HTTPException 400)
      /\ update_life_event ureq lp = inl (HTTPException 400))
  /\ (age ∈ dom lp ->
      (0 <= idx < Z.of_nat (length (events_at lp age)))%Z ->
      exists event lp1 updated lp2,
        events_at lp age !! Z.to_nat idx = Some event
        /\ delete_life_event dreq lp = inr (lp1, event)
        /\ events_at lp1 age = delete (Z.to_nat idx) (events_at lp age)
        /\ (forall a, a <> age -> lp1 !! a = lp !! a)
        /\ update_life_event ureq lp = inr (lp2, updated)
        /\ lp2 = <[age := <[Z.to_nat idx := updated]> (events_at lp age)]> lp
        /\ led_type updated = default (led_type event) event_type
        /\ led_amount updated
           = match amount with Some a => Some a | None => led_amount event end
        /\ led_description updated
           = default (led_description event) description
        /\ (event_type = None -> amount = None -> description = None ->
            lp2 = lp)).
Proof.
  intros dreq ureq. unfold delete_life_event, update_life_event, events_at.
  cbn [dr_age dr_index ur_age ur_index ur_event_type ur_amount ur_description
         dreq ureq].
  rewrite not_elem_of_dom, elem_of_dom.
  destruct (lp !! age) as [events|] eqn:E; cbn [default from_option id].
  - split; [discriminate|]. split.
    + intros _ Hout.
      destruct ((idx <? 0)%Z || (Z.of_nat (length events) <=? idx)%Z) eqn:Eb;
        [now split|].
      apply index_in_range in Eb. contradiction.
    + intros _ Hin. pose proof Hin as Eb. apply index_in_range in Eb.
      rewrite Eb.
      destruct (lookup_lt_is_Some_2 events (Z.to_nat idx) ltac:(lia))
        as [event Hev].
      unfold py_pop. rewrite Hev. cbn [mbind option_bind].
      eexists event, _, _, _.
      split; [reflexivity|]. split; [reflexivity|]. split.
      { destruct (delete (Z.to_nat idx) events) as [|e rest].
        - now rewrite lookup_delete_eq.
        - now rewrite lookup_insert_eq. }
      split.
      { intros a Ha. destruct (delete (Z.to_nat idx) events).
        - now rewrite lookup_delete_ne, lookup_insert_ne by congruence.
        - now rewrite lookup_insert_ne by congruence. }
      split; [reflexivity|]. split; [reflexivity|].
      split; [reflexivity|]. split; [reflexivity|]. split; [reflexivity|].
      intros -> -> ->. cbn [default from_option id led_type led_amount
                              led_description].
      destruct event as [t a d]. cbn [led_type led_amount led_description].
      rewrite (list_insert_id events _ _ Hev). now apply insert_id.
  - split; [now split|]. split; intros [? [=]].
Qed.

Lemma delete_and_update_life_event_outcomes_witness :
  delete_life_event {| dr_age := 30%Z; dr_index := 1%Z |}
    (add_life_event travel_request ∅)
  = inl (HTTPException 400).
Proof.
  destruct (delete_and_update_life_event_outcomes
              (add_life_event travel_request ∅) 30 1 None None None)
    as (_ & Hrange & _).
  destruct Hrange as [Hdel _].
  - apply elem_of_dom. rewrite add_life_event_insert.
    rewrite lookup_insert_eq. now eexists.
  - rewrite add_life_event_insert. unfold events_at.
    rewrite lookup_insert_eq, lookup_empty. cbn. lia.
  - exact Hdel.
Defined.
